(** * Session, transport and track orchestration of the broadcast client

    A shallow embedding of [src/App.js] (the [App] component) and the
    properties of its orchestration logic.

    The component is single-threaded and cooperative: a handler runs until it
    reaches an [await] on something the outside world has to complete (an
    HTTP exchange, media acquisition, a signaling acknowledgement, a library
    promise, a timer).  The embedding follows that granularity.  A [World]
    holds the React state, the refs, and the pool of suspended handlers; an
    [Event] is one thing the outside world does (a click, a server
    notification, the completion of a suspended handler); [step] runs the
    handler code for one event up to its next suspension.

    Awaits on promises that are already settled (for instance
    [await consumeStream(..)], whose body has no suspension) resume in a
    microtask before any other event is delivered, so they are sequenced
    inside one [step].

    Left out: the JSX rendering, the [srcObject] assignments on the video
    elements and console output.  The [connect] and [produce] listeners that
    [createProducerTransport] and [createConsumerTransport] attach to a
    transport only relay requests of the media library over the channel and
    settle the library's own promise; their effect is part of the outcome of
    [produce(..)] and [consume(..)], which the environment chooses. *)

From Stdlib Require Import String List Bool Arith Lia.
From stdpp Require Import base option list gmap strings pretty.

Open Scope string_scope.
Open Scope list_scope.
Open Scope nat_scope.

(** ** Data *)

(** What the browser's URL parser makes of a string: [origin] is
    [protocol + "//" + host], or [None] when [new URL(href)] throws. *)
Record Url := mkUrl { href : string; origin : option string }.

(** [data] of the connect response: only [data.broadcaster] is read. *)
Record ConnInfo := mkConnInfo {
  broadcaster_url : Url;
  broadcaster_token : string;
  broadcaster_ice : string
}.

(** Payload of a [newProducer] notification. *)
Record Announcement := mkAnnouncement {
  a_producerId : string;
  a_userId : string;
  a_kind : string
}.

(** Successful acknowledgement of [createTransport]. *)
Record TransportParams := mkTransportParams { tp_id : string }.

(** Successful acknowledgement of [consume]. *)
Record ConsumeResponse := mkConsumeResponse {
  cr_id : string;
  cr_producerId : string;
  cr_kind : string
}.

(** A mediasoup [Device]; [d_obj] is the identity of the object. *)
Record Device := mkDevice { d_obj : nat; d_loaded : bool }.

(** A send or receive transport; [t_obj] is the identity of the object. *)
Record Transport := mkTransport { t_obj : nat; t_id : string; t_closed : bool }.

Record Producer := mkProducer { pr_id : string }.

(** A [MediaStreamTrack]; [tr_obj] is the identity of the object. *)
Record Track := mkTrack { tr_obj : nat; tr_kind : string }.

Record Consumer := mkConsumer {
  c_id : string;
  c_producerId : string;
  c_kind : string;
  c_track : Track
}.

(** The stream of [getUserMedia]. *)
Record LocalStream := mkLocalStream {
  ls_video : bool;
  ls_audio : bool;
  ls_stopped : bool
}.

(** An entry of the [participants] map. *)
Record Participant := mkParticipant {
  p_userId : string;
  p_stream : list Track;
  p_videoProducerId : option string;
  p_audioProducerId : option string
}.

(** What the handlers registered on one socket close over: [userId] and
    [connectionInfo] of the render in which [startBroadcast] ran. *)
Record Env := mkEnv { e_userId : string; e_connInfo : ConnInfo }.

Record Socket := mkSocket { s_open : bool; s_env : Env }.

(** One constructor per [log(..)] call of the source, with the values it
    interpolates. *)
Inductive LogMsg :=
| LConnecting
| LApiResponse
| LBroadcasterUrl (u : string)
| LError (msg : string)
| LDisconnected
| LStartingBroadcast
| LGotLocalMedia
| LConnectingSocket (u : string)
| LSocketConnected (sid : nat)
| LSocketConnectError (msg : string)
| LReceivedRouterCapabilities
| LDeviceLoaded
| LProcessingPending (n : nat)
| LNewProducerDetected (uid kind : string)
| LSkippingOwnStream
| LDeviceNotReady
| LUserDisconnected (uid : string)
| LSocketEvent (name : string)
| LBroadcastError (msg : string)
| LProducerTransportCreated
| LVideoProducerCreated
| LAudioProducerCreated
| LCheckingOtherProducers
| LConsumerTransportCreated
| LAttemptConsume (pid uid : string)
| LErrorConsuming (err : string)
| LConsumerCreated (cid pid : string)
| LSuccessfullyConsuming (kind uid : string)
| LBroadcastStopped.

(** Messages sent with [socketRef.current.emit]. *)
Inductive Msg :=
| MCreateTransport (producing consuming : bool)
| MConsume (producerId : string)
| MRefreshProducers.

(** Who awaits a [handleNewProducer] call: the [newProducer] listener, or
    the drain loop of the [routerCapabilities] listener, which continues at
    index [idx] of array [arr]. *)
Inductive Ret :=
| RetLive
| RetDrain (arr idx : nat).

(** Suspended handlers, one constructor per suspension point. *)
Inductive Cont :=
| KFetch
| KJson
| KGetUserMedia (uid : string) (ci : option ConnInfo)
| KLoad (env : Env) (dev : nat)
| KCreateProducerAck (env : Env)
| KProduceVideo (env : Env) (audioTrack : bool)
| KProduceAudio (env : Env)
| KCreateConsumerAck (env : Env) (a : Announcement) (ret : Ret)
| KPoll (env : Env) (a : Announcement) (ret : Ret)
| KConsumeAck (remoteUserId : string)
| KConsuming (resp : ConsumeResponse) (remoteUserId : string).

(** Calls into the outside world, in the order they are made. *)
Inductive Output :=
| OFetch (room user : string)
| OGetUserMedia
| OTracksStopped
| OSocketOpen (sid : nat) (url token : string)
| OSocketDisconnect (sid : nat)
| OEmit (sid : nat) (m : Msg) (ack : option nat)
| OCreateSendTransport (obj : nat) (id ice : string)
| OCreateRecvTransport (obj : nat) (id ice : string)
| OTransportClose (obj : nat)
| OProduce (transport : nat) (kind : string)
| OConsume (transport : nat) (resp : ConsumeResponse)
| OUnhandled (msg : string).

(** The React state of [App] (first seven fields), its refs (next nine), and
    what the runtime holds: the socket objects, the array objects that
    [pendingProducersRef] has pointed to, the suspended handlers, the next
    fresh identity and the calls made so far. *)
Record World := mkWorld {
  roomId : string;
  userId : string;
  isConnected : bool;
  isBroadcasting : bool;
  logs : list LogMsg;
  connectionInfo : option ConnInfo;
  participants : gmap string Participant;
  socketRef : option nat;
  deviceRef : option Device;
  producerTransportRef : option Transport;
  consumerTransportRef : option Transport;
  producersRef : gmap string Producer;
  consumersRef : gmap string Consumer;
  localStreamRef : option LocalStream;
  pendingProducersRef : nat;
  creatingConsumerTransportRef : bool;
  sockets : gmap nat Socket;
  arrays : gmap nat (list Announcement);
  pool : gmap nat Cont;
  nextId : nat;
  trace : list Output
}.

Definition upd_roomId (f : string -> string) (w : World) : World :=
  mkWorld (f (roomId w)) (userId w) (isConnected w) (isBroadcasting w)
    (logs w) (connectionInfo w) (participants w) (socketRef w) (deviceRef w)
    (producerTransportRef w) (consumerTransportRef w) (producersRef w)
    (consumersRef w) (localStreamRef w) (pendingProducersRef w)
    (creatingConsumerTransportRef w) (sockets w) (arrays w) (pool w)
    (nextId w) (trace w).

Definition upd_userId (f : string -> string) (w : World) : World :=
  mkWorld (roomId w) (f (userId w)) (isConnected w) (isBroadcasting w)
    (logs w) (connectionInfo w) (participants w) (socketRef w) (deviceRef w)
    (producerTransportRef w) (consumerTransportRef w) (producersRef w)
    (consumersRef w) (localStreamRef w) (pendingProducersRef w)
    (creatingConsumerTransportRef w) (sockets w) (arrays w) (pool w)
    (nextId w) (trace w).

Definition upd_isConnected (f : bool -> bool) (w : World) : World :=
  mkWorld (roomId w) (userId w) (f (isConnected w)) (isBroadcasting w)
    (logs w) (connectionInfo w) (participants w) (socketRef w) (deviceRef w)
    (producerTransportRef w) (consumerTransportRef w) (producersRef w)
    (consumersRef w) (localStreamRef w) (pendingProducersRef w)
    (creatingConsumerTransportRef w) (sockets w) (arrays w) (pool w)
    (nextId w) (trace w).

Definition upd_isBroadcasting (f : bool -> bool) (w : World) : World :=
  mkWorld (roomId w) (userId w) (isConnected w) (f (isBroadcasting w))
    (logs w) (connectionInfo w) (participants w) (socketRef w) (deviceRef w)
    (producerTransportRef w) (consumerTransportRef w) (producersRef w)
    (consumersRef w) (localStreamRef w) (pendingProducersRef w)
    (creatingConsumerTransportRef w) (sockets w) (arrays w) (pool w)
    (nextId w) (trace w).

Definition upd_logs (f : list LogMsg -> list LogMsg) (w : World) : World :=
  mkWorld (roomId w) (userId w) (isConnected w) (isBroadcasting w)
    (f (logs w)) (connectionInfo w) (participants w) (socketRef w)
    (deviceRef w) (producerTransportRef w) (consumerTransportRef w)
    (producersRef w) (consumersRef w) (localStreamRef w)
    (pendingProducersRef w) (creatingConsumerTransportRef w) (sockets w)
    (arrays w) (pool w) (nextId w) (trace w).

Definition upd_connectionInfo (f : option ConnInfo -> option ConnInfo) (w : World) : World :=
  mkWorld (roomId w) (userId w) (isConnected w) (isBroadcasting w) (logs w)
    (f (connectionInfo w)) (participants w) (socketRef w) (deviceRef w)
    (producerTransportRef w) (consumerTransportRef w) (producersRef w)
    (consumersRef w) (localStreamRef w) (pendingProducersRef w)
    (creatingConsumerTransportRef w) (sockets w) (arrays w) (pool w)
    (nextId w) (trace w).

Definition upd_participants (f : gmap string Participant -> gmap string Participant) (w : World) : World :=
  mkWorld (roomId w) (userId w) (isConnected w) (isBroadcasting w) (logs w)
    (connectionInfo w) (f (participants w)) (socketRef w) (deviceRef w)
    (producerTransportRef w) (consumerTransportRef w) (producersRef w)
    (consumersRef w) (localStreamRef w) (pendingProducersRef w)
    (creatingConsumerTransportRef w) (sockets w) (arrays w) (pool w)
    (nextId w) (trace w).

Definition upd_socketRef (f : option nat -> option nat) (w : World) : World :=
  mkWorld (roomId w) (userId w) (isConnected w) (isBroadcasting w) (logs w)
    (connectionInfo w) (participants w) (f (socketRef w)) (deviceRef w)
    (producerTransportRef w) (consumerTransportRef w) (producersRef w)
    (consumersRef w) (localStreamRef w) (pendingProducersRef w)
    (creatingConsumerTransportRef w) (sockets w) (arrays w) (pool w)
    (nextId w) (trace w).

Definition upd_deviceRef (f : option Device -> option Device) (w : World) : World :=
  mkWorld (roomId w) (userId w) (isConnected w) (isBroadcasting w) (logs w)
    (connectionInfo w) (participants w) (socketRef w) (f (deviceRef w))
    (producerTransportRef w) (consumerTransportRef w) (producersRef w)
    (consumersRef w) (localStreamRef w) (pendingProducersRef w)
    (creatingConsumerTransportRef w) (sockets w) (arrays w) (pool w)
    (nextId w) (trace w).

Definition upd_producerTransportRef (f : option Transport -> option Transport) (w : World) : World :=
  mkWorld (roomId w) (userId w) (isConnected w) (isBroadcasting w) (logs w)
    (connectionInfo w) (participants w) (socketRef w) (deviceRef w)
    (f (producerTransportRef w)) (consumerTransportRef w) (producersRef w)
    (consumersRef w) (localStreamRef w) (pendingProducersRef w)
    (creatingConsumerTransportRef w) (sockets w) (arrays w) (pool w)
    (nextId w) (trace w).

Definition upd_consumerTransportRef (f : option Transport -> option Transport) (w : World) : World :=
  mkWorld (roomId w) (userId w) (isConnected w) (isBroadcasting w) (logs w)
    (connectionInfo w) (participants w) (socketRef w) (deviceRef w)
    (producerTransportRef w) (f (consumerTransportRef w)) (producersRef w)
    (consumersRef w) (localStreamRef w) (pendingProducersRef w)
    (creatingConsumerTransportRef w) (sockets w) (arrays w) (pool w)
    (nextId w) (trace w).

Definition upd_producersRef (f : gmap string Producer -> gmap string Producer) (w : World) : World :=
  mkWorld (roomId w) (userId w) (isConnected w) (isBroadcasting w) (logs w)
    (connectionInfo w) (participants w) (socketRef w) (deviceRef w)
    (producerTransportRef w) (consumerTransportRef w) (f (producersRef w))
    (consumersRef w) (localStreamRef w) (pendingProducersRef w)
    (creatingConsumerTransportRef w) (sockets w) (arrays w) (pool w)
    (nextId w) (trace w).

Definition upd_consumersRef (f : gmap string Consumer -> gmap string Consumer) (w : World) : World :=
  mkWorld (roomId w) (userId w) (isConnected w) (isBroadcasting w) (logs w)
    (connectionInfo w) (participants w) (socketRef w) (deviceRef w)
    (producerTransportRef w) (consumerTransportRef w) (producersRef w)
    (f (consumersRef w)) (localStreamRef w) (pendingProducersRef w)
    (creatingConsumerTransportRef w) (sockets w) (arrays w) (pool w)
    (nextId w) (trace w).

Definition upd_localStreamRef (f : option LocalStream -> option LocalStream) (w : World) : World :=
  mkWorld (roomId w) (userId w) (isConnected w) (isBroadcasting w) (logs w)
    (connectionInfo w) (participants w) (socketRef w) (deviceRef w)
    (producerTransportRef w) (consumerTransportRef w) (producersRef w)
    (consumersRef w) (f (localStreamRef w)) (pendingProducersRef w)
    (creatingConsumerTransportRef w) (sockets w) (arrays w) (pool w)
    (nextId w) (trace w).

Definition upd_pendingProducersRef (f : nat -> nat) (w : World) : World :=
  mkWorld (roomId w) (userId w) (isConnected w) (isBroadcasting w) (logs w)
    (connectionInfo w) (participants w) (socketRef w) (deviceRef w)
    (producerTransportRef w) (consumerTransportRef w) (producersRef w)
    (consumersRef w) (localStreamRef w) (f (pendingProducersRef w))
    (creatingConsumerTransportRef w) (sockets w) (arrays w) (pool w)
    (nextId w) (trace w).

Definition upd_creatingConsumerTransportRef (f : bool -> bool) (w : World) : World :=
  mkWorld (roomId w) (userId w) (isConnected w) (isBroadcasting w) (logs w)
    (connectionInfo w) (participants w) (socketRef w) (deviceRef w)
    (producerTransportRef w) (consumerTransportRef w) (producersRef w)
    (consumersRef w) (localStreamRef w) (pendingProducersRef w)
    (f (creatingConsumerTransportRef w)) (sockets w) (arrays w) (pool w)
    (nextId w) (trace w).

Definition upd_sockets (f : gmap nat Socket -> gmap nat Socket) (w : World) : World :=
  mkWorld (roomId w) (userId w) (isConnected w) (isBroadcasting w) (logs w)
    (connectionInfo w) (participants w) (socketRef w) (deviceRef w)
    (producerTransportRef w) (consumerTransportRef w) (producersRef w)
    (consumersRef w) (localStreamRef w) (pendingProducersRef w)
    (creatingConsumerTransportRef w) (f (sockets w)) (arrays w) (pool w)
    (nextId w) (trace w).

Definition upd_arrays (f : gmap nat (list Announcement) -> gmap nat (list Announcement)) (w : World) : World :=
  mkWorld (roomId w) (userId w) (isConnected w) (isBroadcasting w) (logs w)
    (connectionInfo w) (participants w) (socketRef w) (deviceRef w)
    (producerTransportRef w) (consumerTransportRef w) (producersRef w)
    (consumersRef w) (localStreamRef w) (pendingProducersRef w)
    (creatingConsumerTransportRef w) (sockets w) (f (arrays w)) (pool w)
    (nextId w) (trace w).

Definition upd_pool (f : gmap nat Cont -> gmap nat Cont) (w : World) : World :=
  mkWorld (roomId w) (userId w) (isConnected w) (isBroadcasting w) (logs w)
    (connectionInfo w) (participants w) (socketRef w) (deviceRef w)
    (producerTransportRef w) (consumerTransportRef w) (producersRef w)
    (consumersRef w) (localStreamRef w) (pendingProducersRef w)
    (creatingConsumerTransportRef w) (sockets w) (arrays w) (f (pool w))
    (nextId w) (trace w).

Definition upd_nextId (f : nat -> nat) (w : World) : World :=
  mkWorld (roomId w) (userId w) (isConnected w) (isBroadcasting w) (logs w)
    (connectionInfo w) (participants w) (socketRef w) (deviceRef w)
    (producerTransportRef w) (consumerTransportRef w) (producersRef w)
    (consumersRef w) (localStreamRef w) (pendingProducersRef w)
    (creatingConsumerTransportRef w) (sockets w) (arrays w) (pool w)
    (f (nextId w)) (trace w).

Definition upd_trace (f : list Output -> list Output) (w : World) : World :=
  mkWorld (roomId w) (userId w) (isConnected w) (isBroadcasting w) (logs w)
    (connectionInfo w) (participants w) (socketRef w) (deviceRef w)
    (producerTransportRef w) (consumerTransportRef w) (producersRef w)
    (consumersRef w) (localStreamRef w) (pendingProducersRef w)
    (creatingConsumerTransportRef w) (sockets w) (arrays w) (pool w)
    (nextId w) (f (trace w)).

(** [pendingProducersRef.current], the array the ref points to now. *)
Definition pendingProducers (w : World) : list Announcement :=
  default [] (arrays w !! pendingProducersRef w).

(** The state of a freshly mounted component; the initial [userId] is a
    random string, taken as a parameter. *)
Definition initial (uid : string) : World :=
  mkWorld "test-room" uid false false [] None ∅ None None None None ∅ ∅ None
    0 false ∅ {[ 0 := [] ]} ∅ 1 [].

(** ** Handler code: state, exceptions and suspension *)

(** A piece of handler code either runs to its end ([Ok]), throws, or stops
    at a suspension point after having left its continuation in the pool. *)
Inductive Status (A : Type) :=
| Ok (a : A)
| Throw (msg : string)
| Suspend.
Arguments Ok {A} a.
Arguments Throw {A} msg.
Arguments Suspend {A}.

Definition M (A : Type) : Type := World -> World * Status A.

Definition retM {A} (a : A) : M A := fun w => (w, Ok a).

Definition bindM {A B} (m : M A) (f : A -> M B) : M B :=
  fun w =>
    match m w with
    | (w', Ok a) => f a w'
    | (w', Throw e) => (w', Throw e)
    | (w', Suspend) => (w', Suspend)
    end.

#[export] Instance M_ret : MRet M := @retM.
#[export] Instance M_bind : MBind M := fun A B f m => bindM m f.

Definition get : M World := fun w => (w, Ok w).
Definition modify (f : World -> World) : M unit := fun w => (f w, Ok tt).
Definition throw {A} (msg : string) : M A := fun w => (w, Throw msg).
Definition suspend : M unit := fun w => (w, Suspend).

(** [try { m } catch (error) { h error.message }] *)
Definition try_catch (m : M unit) (h : string -> M unit) : M unit :=
  fun w =>
    match m w with
    | (w', Throw e) => h e w'
    | r => r
    end.

Definition log (m : LogMsg) : M unit := modify (upd_logs (fun l => l ++ [m])).
Definition out (o : Output) : M unit := modify (upd_trace (fun t => t ++ [o])).
Definition freshId : M nat := fun w => (upd_nextId S w, Ok (nextId w)).

(** Leave continuation [c] in the pool, to be resumed by the outside world. *)
Definition await (c : Cont) : M unit :=
  k ← freshId; modify (upd_pool <[ k := c ]>).

(** [socketRef.current.emit(m)] and [socketRef.current.emit(m, callback)];
    reading a member of [null] throws. *)
Definition emit (m : Msg) (callback : option Cont) : M unit :=
  w ← get;
  match socketRef w with
  | None => throw "TypeError"
  | Some sid =>
      match callback with
      | None => out (OEmit sid m None)
      | Some c =>
          k ← freshId;
          modify (upd_pool <[ k := c ]>);;
          out (OEmit sid m (Some k))
      end
  end.

(** What a handler does when run to its next suspension; an exception that
    nothing catches is reported by the runtime. *)
Definition exec (m : M unit) (w : World) : World :=
  match m w with
  | (w', Throw e) => upd_trace (fun t => t ++ [OUnhandled e]) w'
  | (w', _) => w'
  end.

(** ** The handlers of [App] *)

(** What the outside world answers when it completes a suspended handler.
    [RAckError e] is an acknowledgement whose [error] member is truthy;
    [RBadData] is a response body that is [null] or has no [broadcaster]
    member. *)
Inductive Result :=
| RUnit
| RReject (msg : string)
| RHttp (ok : bool) (status : nat)
| RData (d : ConnInfo)
| RBadData
| RMedia (video audio : bool)
| RAckError (err : string)
| RAckTransport (p : TransportParams)
| RAckConsume (r : ConsumeResponse)
| RProducer (id : string).

(** Notifications a socket receives. *)
Inductive Notification :=
| NConnect
| NConnectError (msg : string)
| NRouterCapabilities (caps : string)
| NNewProducer (a : Announcement)
| NPeerDisconnected (uid : string)
| NOther (name : string).

(** *** connect *)

Definition connect_catch (e : string) : M unit := log (LError e).

Definition connect : M unit :=
  try_catch
    (log LConnecting;;
     w ← get;
     out (OFetch (roomId w) (userId w));;
     await KFetch;;
     suspend)
    connect_catch.

Definition connect_response (ok : bool) (status : nat) : M unit :=
  try_catch
    (if ok then await KJson;; suspend
     else throw ("HTTP error! status: " +:+ pretty status))
    connect_catch.

Definition connect_data (data : ConnInfo) : M unit :=
  try_catch
    (modify (upd_connectionInfo (fun _ => Some data));;
     modify (upd_isConnected (fun _ => true));;
     log LApiResponse;;
     log (LBroadcasterUrl (href (broadcaster_url data))))
    connect_catch.

(** [connect] from a body that is [null] or has no [broadcaster] member.
    The body is stored and the component is connected before
    [data.broadcaster.url] is read, which throws; [connectionInfo], which
    holds what can be read of [connectionInfo.broadcaster], is then [None],
    as it is for [null]. *)
Definition connect_badData : M unit :=
  try_catch
    (modify (upd_connectionInfo (fun _ => None));;
     modify (upd_isConnected (fun _ => true));;
     log LApiResponse;;
     throw "TypeError")
    connect_catch.

(** *** disconnect *)

(** [localStreamRef.current.getTracks().forEach(track => track.stop())],
    under [if (localStreamRef.current)]. *)
Definition stopLocalTracks : M unit :=
  w ← get;
  match localStreamRef w with
  | Some s =>
      modify (upd_localStreamRef
                (fun _ => Some (mkLocalStream (ls_video s) (ls_audio s) true)));;
      out OTracksStopped
  | None => mret tt
  end.

(** [socket.disconnect()] on the socket object [sid]. *)
Definition closeSocket (sid : nat) : M unit :=
  modify (upd_sockets (alter (fun s => mkSocket false (s_env s)) sid));;
  out (OSocketDisconnect sid).

Definition disconnect : M unit :=
  stopLocalTracks;;
  w ← get;
  match socketRef w with
  | Some sid => closeSocket sid;; modify (upd_socketRef (fun _ => None))
  | None => mret tt
  end;;
  modify (upd_isConnected (fun _ => false));;
  modify (upd_isBroadcasting (fun _ => false));;
  modify (upd_connectionInfo (fun _ => None));;
  modify (upd_participants (fun _ => ∅));;
  log LDisconnected.

(** *** stopBroadcast *)

(** [transport.close()] as the component sees it: the transport object is
    closed, and stays in its ref.  What the media library makes of a
    [produce(..)] or a [consume(..)] that is in flight on the transport is
    the outside world's to tell: it completes the suspended handler, with
    [RReject] where the library rejects the call. *)
Definition closeTransport (t : Transport) : Transport :=
  mkTransport (t_obj t) (t_id t) true.

(** [if (producerTransportRef.current) producerTransportRef.current.close()] *)
Definition closeProducerTransport : M unit :=
  w ← get;
  match producerTransportRef w with
  | Some t =>
      modify (upd_producerTransportRef (fun _ => Some (closeTransport t)));;
      out (OTransportClose (t_obj t))
  | None => mret tt
  end.

(** [if (consumerTransportRef.current) consumerTransportRef.current.close()] *)
Definition closeConsumerTransport : M unit :=
  w ← get;
  match consumerTransportRef w with
  | Some t =>
      modify (upd_consumerTransportRef (fun _ => Some (closeTransport t)));;
      out (OTransportClose (t_obj t))
  | None => mret tt
  end.

Definition stopBroadcast : M unit :=
  stopLocalTracks;;
  closeProducerTransport;;
  closeConsumerTransport;;
  w ← get;
  match socketRef w with
  | Some sid => closeSocket sid
  | None => mret tt
  end;;
  modify (upd_producersRef (fun _ => ∅));;
  modify (upd_consumersRef (fun _ => ∅));;
  modify (upd_participants (fun _ => ∅));;
  modify (upd_isBroadcasting (fun _ => false));;
  log LBroadcastStopped.

(** *** consumeStream *)

(** [MediaStream.addTrack]: a track already in the stream is not added
    again. *)
Definition addTrack (t : Track) (stream : list Track) : list Track :=
  if existsb (fun t' => tr_obj t' =? tr_obj t) stream then stream
  else stream ++ [t].

(** The updater passed to [setParticipants] in [consumeStream].  The source
    mutates the participant object found in [prev] and stores the same object
    in the copy; the entry below is that object after the mutation. *)
Definition addConsumerTrack (remoteUserId : string) (response : ConsumeResponse)
    (track : Track) (prev : gmap string Participant) : gmap string Participant :=
  let participant :=
    default (mkParticipant remoteUserId [] None None) (prev !! remoteUserId) in
  let stream := addTrack track (p_stream participant) in
  let participant :=
    if String.eqb (cr_kind response) "video" then
      mkParticipant (p_userId participant) stream
        (Some (cr_producerId response)) (p_audioProducerId participant)
    else if String.eqb (cr_kind response) "audio" then
      mkParticipant (p_userId participant) stream
        (p_videoProducerId participant) (Some (cr_producerId response))
    else
      mkParticipant (p_userId participant) stream
        (p_videoProducerId participant) (p_audioProducerId participant) in
  <[ remoteUserId := participant ]> prev.

(** [consumeStream] up to the end of its body: it sends the request and
    returns; the callback is [consume_ack].  Reading [rtpCapabilities] of a
    device that is not loaded throws in the media library. *)
Definition consumeStream (producerId remoteUserId : string) : M unit :=
  log (LAttemptConsume producerId remoteUserId);;
  w ← get;
  match socketRef w, deviceRef w with
  | None, _ => throw "TypeError"
  | Some _, None => throw "TypeError"
  | Some _, Some d =>
      if d_loaded d then emit (MConsume producerId) (Some (KConsumeAck remoteUserId))
      else throw "InvalidStateError"
  end.

(** The callback of the [consume] request, up to
    [await consumerTransportRef.current.consume(..)]. *)
Definition consume_ack (remoteUserId : string) (r : Result) : option (M unit) :=
  match r with
  | RAckError e => Some (log (LErrorConsuming e))
  | RAckConsume response =>
      Some (log (LConsumerCreated (cr_id response) (cr_producerId response));;
            w ← get;
            match consumerTransportRef w with
            | None => throw "TypeError"
            | Some t =>
                out (OConsume (t_obj t) response);;
                await (KConsuming response remoteUserId);;
                suspend
            end)
  | _ => None
  end.

(** The rest of the callback, once the library has made the consumer. *)
Definition consume_made (response : ConsumeResponse) (remoteUserId : string)
    (r : Result) : option (M unit) :=
  match r with
  | RUnit =>
      Some (tr ← freshId;
            let consumer :=
              mkConsumer (cr_id response) (cr_producerId response)
                (cr_kind response) (mkTrack tr (cr_kind response)) in
            modify (upd_consumersRef <[ c_id consumer := consumer ]>);;
            modify (upd_participants
                      (addConsumerTrack remoteUserId response (c_track consumer)));;
            log (LSuccessfullyConsuming (cr_kind response) remoteUserId))
  | RReject e => Some (throw e)
  | _ => None
  end.

(** *** createConsumerTransport and handleNewProducer *)

(** [deviceRef.current.createSendTransport(..)] and [createRecvTransport(..)]:
    the media library refuses a device that is not loaded. *)
Definition newTransport (p : TransportParams) : M Transport :=
  w ← get;
  match deviceRef w with
  | None => throw "TypeError"
  | Some d =>
      if d_loaded d then obj ← freshId; mret (mkTransport obj (tp_id p) false)
      else throw "InvalidStateError"
  end.

(** [createConsumerTransport] up to the point where its promise is pending:
    the request is sent, and [c] stands for the callback together with the
    caller that awaits the promise. *)
Definition createConsumerTransport (c : Cont) : M unit :=
  emit (MCreateTransport false true) (Some c);;
  suspend.

(** The callback of that request.  [reject] makes the awaiting caller throw;
    an exception in the callback itself leaves the promise pending for ever,
    and in both cases the caller does not continue. *)
Definition createConsumerTransport_ack (env : Env) (r : Result) : option (M unit) :=
  match r with
  | RAckError e => Some (throw e)
  | RAckTransport p =>
      Some (log LConsumerTransportCreated;;
            t ← newTransport p;
            out (OCreateRecvTransport (t_obj t) (t_id t)
                   (broadcaster_ice (e_connInfo env)));;
            modify (upd_consumerTransportRef (fun _ => Some t)))
  | _ => None
  end.

(** The [while (creatingConsumerTransportRef.current)] loop of
    [handleNewProducer] and what follows it. *)
Definition waitForTransport (env : Env) (a : Announcement) (ret : Ret) : M unit :=
  w ← get;
  if creatingConsumerTransportRef w then await (KPoll env a ret);; suspend
  else consumeStream (a_producerId a) (a_userId a).

(** [handleNewProducer], called with [ret] telling who awaits it. *)
Definition handleNewProducer (env : Env) (a : Announcement) (ret : Ret) : M unit :=
  log (LNewProducerDetected (a_userId a) (a_kind a));;
  if String.eqb (a_userId a) (e_userId env) then log LSkippingOwnStream
  else
    w ← get;
    (if negb (bool_decide (is_Some (consumerTransportRef w)))
        && negb (creatingConsumerTransportRef w)
     then
       modify (upd_creatingConsumerTransportRef (fun _ => true));;
       createConsumerTransport (KCreateConsumerAck env a ret);;
       modify (upd_creatingConsumerTransportRef (fun _ => false))
     else mret tt);;
    waitForTransport env a ret.

(** [handleNewProducer] from the return of [await createConsumerTransport()]. *)
Definition handleNewProducer_created (env : Env) (a : Announcement) (ret : Ret)
    : M unit :=
  modify (upd_creatingConsumerTransportRef (fun _ => false));;
  waitForTransport env a ret.

(** *** The routerCapabilities listener *)

(** [pendingProducersRef.current = []]: the ref points to a new array. *)
Definition resetPending : M unit :=
  k ← freshId;
  modify (upd_arrays <[ k := [] ]>);;
  modify (upd_pendingProducersRef (fun _ => k)).

(** The [for .. of] loop over array [arr] from index [idx], where [l] is
    what the array holds from that index on, and the assignment after it. *)
Fixpoint drainLoop (env : Env) (arr idx : nat) (l : list Announcement) : M unit :=
  match l with
  | [] => resetPending
  | producer :: l' =>
      handleNewProducer env producer (RetDrain arr (S idx));;
      drainLoop env arr (S idx) l'
  end.

(** Lines 143-150: process the pending producers. *)
Definition processPending (env : Env) : M unit :=
  w ← get;
  let arr := pendingProducersRef w in
  let l := pendingProducers w in
  if 0 <? length l then
    log (LProcessingPending (length l));;
    drainLoop env arr 0 l
  else mret tt.

(** What runs once a [handleNewProducer] call that had suspended returns. *)
Definition finish (env : Env) (ret : Ret) : M unit :=
  match ret with
  | RetLive => mret tt
  | RetDrain arr idx =>
      w ← get;
      drainLoop env arr idx (drop idx (default [] (arrays w !! arr)))
  end.

(** [producerTransportRef.current.produce({ track })]. *)
Definition produce (kind : string) (c : Cont) : M unit :=
  w ← get;
  match producerTransportRef w with
  | None => throw "TypeError"
  | Some t => out (OProduce (t_obj t) kind);; await c;; suspend
  end.

(** [createProducerTransport]: the request. *)
Definition createProducerTransport (env : Env) : M unit :=
  emit (MCreateTransport true false) (Some (KCreateProducerAck env));;
  suspend.

(** The end of the callback ([resolve()]) and the listener's continuation
    after [await createProducerTransport()]. *)
Definition producing_done (env : Env) : M unit :=
  log LCheckingOtherProducers;;
  emit MRefreshProducers None;;
  processPending env.

Definition produce_audio (env : Env) (audioTrack : bool) : M unit :=
  if audioTrack then produce "audio" (KProduceAudio env)
  else producing_done env.

Definition createProducerTransport_ack (env : Env) (r : Result) : option (M unit) :=
  match r with
  | RAckError e => Some (throw e)
  | RAckTransport p =>
      Some (log LProducerTransportCreated;;
            t ← newTransport p;
            out (OCreateSendTransport (t_obj t) (t_id t)
                   (broadcaster_ice (e_connInfo env)));;
            modify (upd_producerTransportRef (fun _ => Some t));;
            w ← get;
            match localStreamRef w with
            | None => throw "TypeError"
            | Some s =>
                let videoTrack := ls_video s in
                let audioTrack := ls_audio s in
                if videoTrack then produce "video" (KProduceVideo env audioTrack)
                else produce_audio env audioTrack
            end)
  | _ => None
  end.

Definition produced_video (env : Env) (audioTrack : bool) (r : Result)
    : option (M unit) :=
  match r with
  | RProducer id =>
      Some (modify (upd_producersRef <[ "video" := mkProducer id ]>);;
            log LVideoProducerCreated;;
            produce_audio env audioTrack)
  | RReject e => Some (throw e)
  | _ => None
  end.

Definition produced_audio (env : Env) (r : Result) : option (M unit) :=
  match r with
  | RProducer id =>
      Some (modify (upd_producersRef <[ "audio" := mkProducer id ]>);;
            log LAudioProducerCreated;;
            producing_done env)
  | RReject e => Some (throw e)
  | _ => None
  end.

Definition onRouterCapabilities (env : Env) : M unit :=
  log LReceivedRouterCapabilities;;
  d ← freshId;
  modify (upd_deviceRef (fun _ => Some (mkDevice d false)));;
  await (KLoad env d);;
  suspend.

(** After [await deviceRef.current.load(..)]: the device object [dev] on
    which [load] was called is loaded. *)
Definition loaded (env : Env) (dev : nat) (r : Result) : option (M unit) :=
  match r with
  | RUnit =>
      Some (modify (upd_deviceRef (fun dr =>
              match dr with
              | Some d => if d_obj d =? dev then Some (mkDevice dev true) else dr
              | None => None
              end));;
            log LDeviceLoaded;;
            createProducerTransport env)
  | RReject e => Some (throw e)
  | _ => None
  end.

(** *** startBroadcast and the listeners it registers *)

Definition startBroadcast_catch (e : string) : M unit := log (LBroadcastError e).

Definition startBroadcast : M unit :=
  try_catch
    (log LStartingBroadcast;;
     out OGetUserMedia;;
     w ← get;
     await (KGetUserMedia (userId w) (connectionInfo w));;
     suspend)
    startBroadcast_catch.

(** From the return of [await getUserMedia(..)] to the end of the [try]
    block; [uid] and [ci] are [userId] and [connectionInfo] of the render in
    which the button was clicked.  The listeners registered on the new socket
    are the ones of [onNotification], closed over [uid] and [ci]. *)
Definition startBroadcast_media (uid : string) (ci : option ConnInfo)
    (video audio : bool) : M unit :=
  try_catch
    (modify (upd_localStreamRef (fun _ => Some (mkLocalStream video audio false)));;
     log LGotLocalMedia;;
     match ci with
     | None => throw "TypeError"
     | Some ci =>
         match origin (broadcaster_url ci) with
         | None => throw "TypeError"
         | Some socketUrl =>
             log (LConnectingSocket socketUrl);;
             sid ← freshId;
             modify (upd_sockets <[ sid := mkSocket true (mkEnv uid ci) ]>);;
             modify (upd_socketRef (fun _ => Some sid));;
             out (OSocketOpen sid socketUrl (broadcaster_token ci));;
             modify (upd_isBroadcasting (fun _ => true))
         end
     end)
    startBroadcast_catch.

Definition onNewProducer (env : Env) (data : Announcement) : M unit :=
  w ← get;
  match deviceRef w with
  | None =>
      log LDeviceNotReady;;
      modify (upd_arrays
                (<[ pendingProducersRef w := pendingProducers w ++ [data] ]>))
  | Some _ => handleNewProducer env data RetLive
  end.

Definition onPeerDisconnected (disconnectedUserId : string) : M unit :=
  log (LUserDisconnected disconnectedUserId);;
  modify (upd_participants (delete disconnectedUserId)).

(** The listeners of a socket.  Server events reach the [onAny] listener
    first, then the listener of their name; [connect] and [connect_error]
    are events of the socket itself and do not reach [onAny]. *)
Definition onNotification (env : Env) (n : Notification) : M unit :=
  match n with
  | NConnect =>
      w ← get;
      match socketRef w with
      | Some sid => log (LSocketConnected sid)
      | None => throw "TypeError"
      end
  | NConnectError msg => log (LSocketConnectError msg)
  | NRouterCapabilities _ =>
      log (LSocketEvent "routerCapabilities");; onRouterCapabilities env
  | NNewProducer data =>
      log (LSocketEvent "newProducer");; onNewProducer env data
  | NPeerDisconnected uid =>
      log (LSocketEvent "peerDisconnected");; onPeerDisconnected uid
  | NOther name => log (LSocketEvent name)
  end.

(** ** The event loop *)

(** The code that continues a suspended handler, given what the outside
    world answers; [None] when the answer is not one this suspension point
    can receive. *)
Definition resume (c : Cont) (r : Result) : option (M unit) :=
  match c with
  | KFetch =>
      match r with
      | RHttp ok status => Some (connect_response ok status)
      | RReject e => Some (connect_catch e)
      | _ => None
      end
  | KJson =>
      match r with
      | RData data => Some (connect_data data)
      | RBadData => Some connect_badData
      | RReject e => Some (connect_catch e)
      | _ => None
      end
  | KGetUserMedia uid ci =>
      match r with
      | RMedia video audio => Some (startBroadcast_media uid ci video audio)
      | RReject e => Some (startBroadcast_catch e)
      | _ => None
      end
  | KLoad env dev => loaded env dev r
  | KCreateProducerAck env => createProducerTransport_ack env r
  | KProduceVideo env audioTrack => produced_video env audioTrack r
  | KProduceAudio env => produced_audio env r
  | KCreateConsumerAck env a ret =>
      match createConsumerTransport_ack env r with
      | Some callback =>
          Some (callback;; handleNewProducer_created env a ret;; finish env ret)
      | None => None
      end
  | KPoll env a ret =>
      match r with
      | RUnit => Some (waitForTransport env a ret;; finish env ret)
      | _ => None
      end
  | KConsumeAck remoteUserId => consume_ack remoteUserId r
  | KConsuming response remoteUserId => consume_made response remoteUserId r
  end.

(** What the outside world does: the user edits a field or clicks a button,
    a socket receives a notification, or a suspended handler is completed. *)
Inductive Event :=
| USetRoomId (s : string)
| USetUserId (s : string)
| UConnect
| UDisconnect
| UStartBroadcast
| UStopBroadcast
| Notify (sid : nat) (n : Notification)
| Resume (k : nat) (r : Result).

(** One turn of the event loop.  The guards on the user events are the
    [disabled] attributes and the conditional rendering of the buttons; a
    socket that was disconnected delivers nothing. Acknowledgements and
    other completions may come at any time, also ones that a closed channel
    would never deliver. *)
Definition step (e : Event) (w : World) : World :=
  match e with
  | USetRoomId s => if isConnected w then w else upd_roomId (fun _ => s) w
  | USetUserId s => if isConnected w then w else upd_userId (fun _ => s) w
  | UConnect => if isConnected w then w else exec connect w
  | UDisconnect => if isConnected w then exec disconnect w else w
  | UStartBroadcast =>
      if negb (isConnected w) || isBroadcasting w then w else exec startBroadcast w
  | UStopBroadcast => if isBroadcasting w then exec stopBroadcast w else w
  | Notify sid n =>
      match sockets w !! sid with
      | Some s => if s_open s then exec (onNotification (s_env s) n) w else w
      | None => w
      end
  | Resume k r =>
      match pool w !! k with
      | Some c =>
          match resume c r with
          | Some m => exec m (upd_pool (delete k) w)
          | None => w
          end
      | None => w
      end
  end.

Definition run (es : list Event) (w : World) : World :=
  fold_left (fun w e => step e w) es w.

(** ** What the properties observe *)

(** Receive transports constructed so far, by object identity. *)
Definition recvConstructionOf (o : Output) : option nat :=
  match o with
  | OCreateRecvTransport obj _ _ => Some obj
  | _ => None
  end.

Definition recvConstructions (w : World) : list nat :=
  omap recvConstructionOf (trace w).

Definition constructed (w : World) : nat := length (recvConstructions w).

(** Requests for a receive transport whose acknowledgement is outstanding. *)
Definition creationOf (c : Cont) : option Announcement :=
  match c with
  | KCreateConsumerAck _ a _ => Some a
  | _ => None
  end.

Definition underConstruction (w : World) : nat := size (omap creationOf (pool w)).

(** The transport objects on which [consume(..)] was called. *)
Definition consumeUseOf (o : Output) : option nat :=
  match o with
  | OConsume obj _ => Some obj
  | _ => None
  end.

Definition consumeUses (w : World) : list nat := omap consumeUseOf (trace w).

(** The producer ids for which a [consume] request was sent. *)
Definition consumeRequestOf (o : Output) : option string :=
  match o with
  | OEmit _ (MConsume producerId) _ => Some producerId
  | _ => None
  end.

Definition consumeRequests (w : World) : list string :=
  omap consumeRequestOf (trace w).

(** The [handleNewProducer] calls that are suspended, with the announcement
    each one handles. *)
Definition handlerOf (c : Cont) : option Announcement :=
  match c with
  | KCreateConsumerAck _ a _ => Some a
  | KPoll _ a _ => Some a
  | _ => None
  end.

Definition handlersInFlight (w : World) : gmap nat Announcement :=
  omap handlerOf (pool w).


(** How often the drain of the pending queue was entered: once per
    [Processing n pending producers] line of the log. *)
Definition isProcessing (m : LogMsg) : bool :=
  match m with
  | LProcessingPending _ => true
  | _ => false
  end.

Definition drains (w : World) : nat := length (List.filter isProcessing (logs w)).

(** The announcements among a list of events, and those of them that are
    not the local participant's own. *)
Definition arrivalOf (e : Event) : option Announcement :=
  match e with
  | Notify _ (NNewProducer a) => Some a
  | _ => None
  end.

Definition arrivals (es : list Event) : list Announcement := omap arrivalOf es.


(** ** Invariants of the event loop *)

(** The creation guard of [handleNewProducer]. *)
Definition GuardInv (w : World) : Prop :=
  underConstruction w ≤ 1 ∧
  (creatingConsumerTransportRef w = false → consumerTransportRef w = None →
   handlersInFlight w = ∅) ∧
  match consumerTransportRef w with
  | None => recvConstructions w = [] ∧ consumeUses w = []
  | Some t =>
      underConstruction w = 0 ∧ recvConstructions w = [t_obj t] ∧
      Forall (eq (t_obj t)) (consumeUses w)
  end.

Definition TransportSet (w : World) : Prop := is_Some (consumerTransportRef w).

(** Identities of suspended handlers are below the next fresh one. *)
Definition FreshPool (w : World) : Prop :=
  map_Forall (fun k _ => k < nextId w) (pool w).

(** The queue has been drained: the device exists, the queue is empty and
    the drain was entered [n] times. *)
Definition Drained (n : nat) (w : World) : Prop :=
  is_Some (deviceRef w) ∧ pendingProducers w = [] ∧ drains w = n.

Definition NotBroadcasting (w : World) : Prop := isBroadcasting w = false.

(** The queue is as long as it was, or has been emptied. *)
Definition NoGrowth (l : list Announcement) (w : World) : Prop :=
  pendingProducers w = l ∨ pendingProducers w = [].

(** [preserves I m]: handler code [m] keeps [I], however it ends. *)
Definition preserves (I : World -> Prop) {A} (m : M A) : Prop :=
  forall w, I w -> I (m w).1.

(** ** Runs in which announcements are handled concurrently *)




(** ** Concrete sessions *)

Module Scenario.

Definition info : ConnInfo :=
mkConnInfo (mkUrl "https://sfu.example/room" (Some "https://sfu.example"))
"token" "ice".

Definition bob_video : Announcement := mkAnnouncement "p1" "bob" "video".
Definition carol_audio : Announcement := mkAnnouncement "p2" "carol" "audio".
Definition dave_video : Announcement := mkAnnouncement "p3" "dave" "video".

(** [connect()], the HTTP response and its body. *)
Definition connected : list Event :=
[UConnect; Resume 1 (RHttp true 200); Resume 2 (RData info)].

(** [startBroadcast()] and the media stream; the socket is object 4. *)
Definition started : list Event :=
connected ++ [UStartBroadcast; Resume 3 (RMedia true true)].

(** The router capabilities arrive, the device loads, the send transport
is acknowledged and both local tracks are produced. *)
Definition negotiation : list Event :=
[Notify 4 (NRouterCapabilities "caps"); Resume 6 RUnit;
 Resume 7 (RAckTransport (mkTransportParams "send-1"));
 Resume 9 (RProducer "local-video"); Resume 10 (RProducer "local-audio")].

Definition negotiated : list Event := started ++ negotiation.

Definition start : World := initial "me".

(** [alice] announces video [p1]: the receive transport (object 12) is
created and the track is consumed. *)
Definition alice_p1 : list Event :=
[Notify 4 (NNewProducer (mkAnnouncement "p1" "alice" "video"));
 Resume 11 (RAckTransport (mkTransportParams "recv-1"));
 Resume 13 (RAckConsume (mkConsumeResponse "c1" "p1" "video"));
 Resume 14 RUnit].

(** [alice] announces audio [p2], then video [p3]; both are consumed. *)
Definition alice_p2_p3 : list Event :=
[Notify 4 (NNewProducer (mkAnnouncement "p2" "alice" "audio"));
 Resume 16 (RAckConsume (mkConsumeResponse "c2" "p2" "audio"));
 Resume 17 RUnit;
 Notify 4 (NNewProducer (mkAnnouncement "p3" "alice" "video"));
 Resume 19 (RAckConsume (mkConsumeResponse "c3" "p3" "video"));
 Resume 20 RUnit].

(** A broadcast with both transports, two producers, one consumer and
one participant. *)
Definition broadcasting : list Event := negotiated ++ alice_p1.

(** The broadcast is stopped and started again; the new socket is
object 17. *)
Definition restarted : list Event :=
broadcasting ++ [UStopBroadcast; UStartBroadcast; Resume 16 (RMedia true true)].

(** [bob] is announced before the router capabilities, [carol] while the
send transport is being created; the two [createTransport] requests are
acknowledged in the order in which they were sent, the receive transport
while the local video is being published. *)
Definition raced : list Event :=
started ++
[Notify 4 (NNewProducer bob_video);
 Notify 4 (NRouterCapabilities "caps");
 Resume 6 RUnit;
 Notify 4 (NNewProducer carol_audio);
 Resume 7 (RAckTransport (mkTransportParams "send-1"));
 Resume 8 (RAckTransport (mkTransportParams "recv-1"));
 Resume 10 (RProducer "local-video");
 Resume 13 (RProducer "local-audio")].

(** [carol] is announced while the device is loading. *)
Definition racedDuringLoad : list Event :=
started ++
[Notify 4 (NNewProducer bob_video);
 Notify 4 (NRouterCapabilities "caps");
 Notify 4 (NNewProducer carol_audio)].


(** Two [routerCapabilities] notifications after [bob] and [carol] were
announced.  Both negotiations run to their end (devices 5 and 7, send
transports 11 and 15), and each one enters the drain loop over the same
array: the first loop asks for the receive transport (request 14), the
second one waits for it on its timer (18).  The acknowledgement of the
transport lets the first loop handle [bob] and [carol] and empty the
queue, while the second loop is still suspended. *)
Definition twice : list Event :=
started ++
[Notify 4 (NNewProducer bob_video);
 Notify 4 (NNewProducer carol_audio);
 Notify 4 (NRouterCapabilities "caps");
 Notify 4 (NRouterCapabilities "caps");
 Resume 8 RUnit;
 Resume 6 RUnit;
 Resume 9 (RAckTransport (mkTransportParams "send-1"));
 Resume 12 (RProducer "v1");
 Resume 13 (RProducer "a1");
 Resume 10 (RAckTransport (mkTransportParams "send-2"));
 Resume 16 (RProducer "v2");
 Resume 17 (RProducer "a2");
 Resume 14 (RAckTransport (mkTransportParams "recv-1"))].

(** The router capabilities arrive and the broadcast is stopped while the
device is loading. *)
Definition stoppedWhileLoading : list Event :=
started ++ [Notify 4 (NRouterCapabilities "caps"); UStopBroadcast].

End Scenario.

(** [w'] has the participants, the consumers, the receive transport, the
    creation flag, the suspended handlers and the outside calls of [w]:
    nothing was created and nothing was requested between the two. *)
Definition nothingCreated (w w' : World) : Prop :=
  participants w' = participants w ∧
  consumersRef w' = consumersRef w ∧
  consumerTransportRef w' = consumerTransportRef w ∧
  creatingConsumerTransportRef w' = creatingConsumerTransportRef w ∧
  pool w' = pool w ∧
  nextId w' = nextId w ∧
  trace w' = trace w.

(** ** Sequences of consumed announcements *)

(** One run of the callback of [consumeStream] to its end: the participant
    the track is for, the response of the server and the identity of the
    track of the new consumer. *)
Record Consumption := mkConsumption {
  cn_user : string;
  cn_response : ConsumeResponse;
  cn_obj : nat
}.

Definition cn_track (c : Consumption) : Track :=
  mkTrack (cn_obj c) (cr_kind (cn_response c)).

(** The participant map after the updaters of a list of consumptions. *)
Definition consumeAll (cs : list Consumption) (m : gmap string Participant)
    : gmap string Participant :=
  fold_left
    (fun m c => addConsumerTrack (cn_user c) (cn_response c) (cn_track c) m) cs m.

Definition ofUser (u : string) (cs : list Consumption) : list Consumption :=
  filter (fun c => cn_user c = u) cs.

Definition ofKind (kind : string) (cs : list Consumption) : list Consumption :=
  filter (fun c => cr_kind (cn_response c) = kind) cs.

(** The producer of the last consumption of a kind, if there is one. *)
Definition lastProducer (kind : string) (cs : list Consumption) : option string :=
  last ((fun c => cr_producerId (cn_response c)) <$> ofKind kind cs).

Definition tracksOfKind (kind : string) (stream : list Track) : list Track :=
  filter (fun t => tr_kind t = kind) stream.

(** The entry that the consumptions [mine] of one participant [u] leave in
    the map: none before the first one; then all their tracks in order, and
    in each slot the producer of the last consumption of that kind. *)
Definition entryOf (u : string) (mine : list Consumption) : option Participant :=
  match mine with
  | [] => None
  | _ =>
      Some (mkParticipant u (cn_track <$> mine)
              (lastProducer "video" mine) (lastProducer "audio" mine))
  end.

(** What C4 asks of a participant: at most one track of each kind. *)
Definition oneTrackPerKind (p : Participant) : Prop :=
  length (tracksOfKind "video" (p_stream p)) ≤ 1 ∧
  length (tracksOfKind "audio" (p_stream p)) ≤ 1.

(** The [NEW PRODUCER DETECTED] lines of the log: one per call of
    [handleNewProducer], in the order of the calls. *)
Definition detectionOf (m : LogMsg) : option string :=
  match m with
  | LNewProducerDetected uid _ => Some uid
  | _ => None
  end.

Definition detections (w : World) : list string := omap detectionOf (logs w).

(** Requests for a receive transport sent so far. *)
Definition createRequestOf (o : Output) : option nat :=
  match o with
  | OEmit sid (MCreateTransport false true) _ => Some sid
  | _ => None
  end.

Definition createRequests (w : World) : list nat := omap createRequestOf (trace w).

(** Transports closed so far. *)
Definition closeOf (o : Output) : option nat :=
  match o with
  | OTransportClose obj => Some obj
  | _ => None
  end.

Definition closes (w : World) : list nat := omap closeOf (trace w).

(** Between [w] and [w'] the entry of [uid] left the participant map and two
    lines were logged; every other part of the state is the same. *)
Definition onlyParticipantRemoved (uid : string) (w w' : World) : Prop :=
  participants w' = delete uid (participants w) ∧
  logs w' = logs w ++ [LSocketEvent "peerDisconnected"; LUserDisconnected uid] ∧
  consumersRef w' = consumersRef w ∧
  producersRef w' = producersRef w ∧
  producerTransportRef w' = producerTransportRef w ∧
  consumerTransportRef w' = consumerTransportRef w ∧
  isConnected w' = isConnected w ∧
  isBroadcasting w' = isBroadcasting w ∧
  connectionInfo w' = connectionInfo w ∧
  roomId w' = roomId w ∧
  userId w' = userId w ∧
  socketRef w' = socketRef w ∧
  deviceRef w' = deviceRef w ∧
  localStreamRef w' = localStreamRef w ∧
  pendingProducersRef w' = pendingProducersRef w ∧
  creatingConsumerTransportRef w' = creatingConsumerTransportRef w ∧
  sockets w' = sockets w ∧
  arrays w' = arrays w ∧
  pool w' = pool w ∧
  nextId w' = nextId w ∧
  trace w' = trace w.

(** The flag is up, no transport is cached, no request for one is
    outstanding, and [reqs] are the requests sent so far. *)
Definition Stuck (reqs : list nat) (w : World) : Prop :=
  creatingConsumerTransportRef w = true ∧ consumerTransportRef w = None ∧
  underConstruction w = 0 ∧ createRequests w = reqs.

(** ** The states a handler of [newProducer] leaves behind *)


(** The handler found the flag up and sleeps for 50 ms. *)
Definition pollState (env : Env) (a : Announcement) (ret : Ret) (w : World) : World :=
  upd_pool <[ nextId w := KPoll env a ret ]> (upd_nextId S w).


(** The callback of the transport request made and cached the transport. *)
Definition createdState (env : Env) (p : TransportParams) (w : World) : World :=
  upd_consumerTransportRef (fun _ => Some (mkTransport (nextId w) (tp_id p) false))
    (upd_trace
       (fun t => t ++ [OCreateRecvTransport (nextId w) (tp_id p)
                         (broadcaster_ice (e_connInfo env))])
       (upd_nextId S (upd_logs (fun l => l ++ [LConsumerTransportCreated]) w))).





(** ** Drain loops that are suspended *)

(** A call of [handleNewProducer] made by the drain loop of the
    [routerCapabilities] listener and suspended: when it returns, the loop
    goes on over the array it was started on. *)
Definition suspendedDrain (c : Cont) : bool :=
  match c with
  | KCreateConsumerAck _ _ (RetDrain _ _) | KPoll _ _ (RetDrain _ _) => true
  | _ => false
  end.

Definition noDrain (w : World) : Prop :=
  map_Forall (fun _ c => suspendedDrain c = false) (pool w).

(** The announcement that a turn hands to the [newProducer] listener, and
    those of the turns of a run. *)
Definition deliveredAt (e : Event) (w : World) : list Announcement :=
  match e with
  | Notify sid (NNewProducer a) =>
      match sockets w !! sid with
      | Some s => if s_open s then [a] else []
      | None => []
      end
  | _ => []
  end.

Fixpoint delivered (es : list Event) (w : World) : list Announcement :=
  match es with
  | [] => []
  | e :: es' => deliveredAt e w ++ delivered es' (step e w)
  end.

(** The queue has been drained, no drain loop is suspended, and [l] are the
    calls of [handleNewProducer] so far. *)
Definition Settled (n : nat) (l : list string) (w : World) : Prop :=
  Drained n w ∧ noDrain w ∧ detections w = l.

(** ** Negotiation *)

(** The suspension points of the [routerCapabilities] listener up to the
    last local producer. *)
Definition negotiating (c : Cont) : bool :=
  match c with
  | KLoad _ _ | KCreateProducerAck _ | KProduceVideo _ _ | KProduceAudio _ => true
  | _ => false
  end.

(** The turns of the negotiation: a [routerCapabilities] notification on an
    open socket, and the completion of one of the suspension points
    above. *)
Definition negotiationTurn (e : Event) (w : World) : bool :=
  match e with
  | Notify sid (NRouterCapabilities _) =>
      match sockets w !! sid with
      | Some s => s_open s
      | None => false
      end
  | Resume k _ =>
      match pool w !! k with
      | Some c => negotiating c
      | None => false
      end
  | _ => false
  end.

(** The calls of the negotiation: the request for a send transport, its
    construction, and [produce]. *)
Definition negotiationCall (o : Output) : bool :=
  match o with
  | OEmit _ (MCreateTransport true false) _ => true
  | OCreateSendTransport _ _ _ => true
  | OProduce _ _ => true
  | _ => false
  end.

Definition negotiationCalls (w : World) : list Output :=
  List.filter negotiationCall (trace w).

(** The broadcasting flag is [b]. *)
Definition BroadcastingIs (b : bool) (w : World) : Prop := isBroadcasting w = b.

(** Since [w0] nothing of the negotiation was done: the device is the
    same, no call of the negotiation was made, the send transport is the
    same object and no producer was added. *)
Definition NoNegotiation (w0 w : World) : Prop :=
  deviceRef w = deviceRef w0 ∧
  negotiationCalls w = negotiationCalls w0 ∧
  t_obj <$> producerTransportRef w = t_obj <$> producerTransportRef w0 ∧
  producersRef w ⊆ producersRef w0.

(** The suspension points of [connect] and of [startBroadcast] before the
    socket is opened. *)
Definition beforeSocket (c : Cont) : bool :=
  match c with
  | KFetch | KJson | KGetUserMedia _ _ => true
  | _ => false
  end.

(** No socket was opened yet. *)
Definition Pristine (w : World) : Prop :=
  isBroadcasting w = false ∧ sockets w = ∅ ∧
  map_Forall (fun _ c => beforeSocket c = true) (pool w).

(** The session was marked as broadcasting in the course of the run [es]
    from [w0]. *)
Definition everBroadcasting (w0 : World) (es : list Event) : Prop :=
  exists es1 es2, es = es1 ++ es2 ∧ isBroadcasting (run es1 w0) = true.
(** ** What the further properties observe *)

(** The notifications that announce the producers [l] on socket [sid], in
    that order. *)
Definition announce (sid : nat) (l : list Announcement) : list Event :=
  (fun a => Notify sid (NNewProducer a)) <$> l.

(** The suspension points of [connect]. *)
Definition connecting (c : Cont) : Prop := c = KFetch ∨ c = KJson.

(** The log still begins with the lines [l0]. *)
Definition LogKept (l0 : list LogMsg) (w : World) : Prop := l0 `prefix_of` logs w.

(** The producer set has no key but ["video"] and ["audio"]. *)
Definition ProducerKinds (w : World) : Prop :=
  forall key, is_Some (producersRef w !! key) -> key = "video" ∨ key = "audio".

(** The entry of [remoteUserId] before an update of the participant map:
    the one found, or the empty one that [consumeStream] makes. *)
Definition entryBefore (remoteUserId : string) (prev : gmap string Participant)
    : Participant :=
  default (mkParticipant remoteUserId [] None None) (prev !! remoteUserId).

(** Every entry of the participant map is filed under its own [userId] and
    has a stream with at least one track, and the tracks were made by
    earlier turns. *)
Definition WellFormed (w : World) : Prop :=
  map_Forall
    (fun u p =>
       p_userId p = u ∧ p_stream p <> [] ∧
       Forall (fun t => tr_obj t < nextId w) (p_stream p))
    (participants w).

(** A suspended [startBroadcast] holds the [connectionInfo] of the render
    in which the button was clicked. *)
Definition startHasInfo (c : Cont) : Prop :=
  match c with
  | KGetUserMedia _ ci => is_Some ci
  | _ => True
  end.

(** An event other than the arrival of a response body that is [null] or
    has no [broadcaster] member. *)
Definition wellShaped (e : Event) : Prop :=
  match e with
  | Resume _ RBadData => False
  | _ => True
  end.

(** The component is connected whenever it holds a connect response whose
    [broadcaster] member can be read. *)
Definition Usable (w : World) : Prop :=
  is_Some (connectionInfo w) -> isConnected w = true.

(** The component is connected exactly when it holds a connect response
    whose [broadcaster] member can be read, and no suspended
    [startBroadcast] was started without one. *)
Definition ConnectedInv (w : World) : Prop :=
  (isConnected w = true ↔ is_Some (connectionInfo w)) ∧
  map_Forall (fun _ c => startHasInfo c) (pool w).

(** The suspension points of the callback of [consumeStream]. *)
Definition inConsumption (c : Cont) : Prop :=
  match c with
  | KConsumeAck _ | KConsuming _ _ => True
  | _ => False
  end.

(** No receive transport is cached and no [consume] request is outstanding. *)
Definition NoConsumption (w : World) : Prop :=
  consumerTransportRef w = None ∧
  map_Forall (fun _ c => ¬ inConsumption c) (pool w).

(** A [consume] request is outstanding only if a receive transport is
    cached. *)
Definition ConsumeSafe (w : World) : Prop :=
  forall k c, pool w !! k = Some c -> inConsumption c ->
              is_Some (consumerTransportRef w).



(** The address of the signaling socket that [startBroadcast] derives from
    the [connectionInfo] it closed over, when there is one and its URL
    parses. *)
Definition socketUrlOf (ci : option ConnInfo) : option string :=
  match ci with
  | Some i => origin (broadcaster_url i)
  | None => None
  end.

(** While the session is marked as broadcasting, the socket ref holds a
    socket that has not been disconnected. *)
Definition LiveSocket (w : World) : Prop :=
  isBroadcasting w = true ->
  exists sid s, socketRef w = Some sid ∧ sockets w !! sid = Some s ∧ s_open s = true.

(** The completions of [produce(..)] that follow the acknowledgement of the
    send transport when the local stream has a video track, an audio track,
    both or none; [n] is the identity of the first suspension. *)
Definition published (n : nat) (video audio : bool) (vid aid : string)
    : list Event :=
  (if video then [Resume n (RProducer vid)] else []) ++
  (if audio then [Resume (if video then S n else n) (RProducer aid)] else []).

(** The calls of [produce(..)] on transport [obj] for such a stream. *)
Definition produceCalls (obj : nat) (video audio : bool) : list Output :=
  (if video then [OProduce obj "video"] else []) ++
  (if audio then [OProduce obj "audio"] else []).

(** [getTracks().forEach(track => track.stop())] on a stream. *)
Definition stoppedStream (s : LocalStream) : LocalStream :=
  mkLocalStream (ls_video s) (ls_audio s) true.

(** A failure that its handler does not catch: the rejection, with message
    [e], of the promise that the device load, [produce(..)] or
    [consume(..)] returned, or the error [e] in the acknowledgement of the
    request for the send transport. *)
Definition uncaught (c : Cont) (r : Result) (e : string) : Prop :=
  match c with
  | KLoad _ _ | KProduceVideo _ _ | KProduceAudio _ | KConsuming _ _ =>
      r = RReject e
  | KCreateProducerAck _ => r = RAckError e
  | _ => False
  end.

(** The name under which the [onAny] listener of a socket sees a
    notification: none for [connect] and [connect_error], which are events
    of the socket itself. *)
Definition eventName (n : Notification) : option string :=
  match n with
  | NConnect | NConnectError _ => None
  | NRouterCapabilities _ => Some "routerCapabilities"
  | NNewProducer _ => Some "newProducer"
  | NPeerDisconnected _ => Some "peerDisconnected"
  | NOther name => Some name
  end.
(** * Properties *)

(** ** Reasoning about handler code *)

Section Preserves.
Variable I : World -> Prop.

Lemma pres_ret {A} (a : A) : preserves I (mret a).
Proof. intros w H. exact H. Qed.

Lemma pres_throw {A} msg : preserves I (@throw A msg).
Proof. intros w H. exact H. Qed.

Lemma pres_suspend : preserves I suspend.
Proof. intros w H. exact H. Qed.

Lemma pres_get : preserves I get.
Proof. intros w H. exact H. Qed.

Lemma pres_modify f : (forall w, I w -> I (f w)) -> preserves I (modify f).
Proof. intros Hf w H. apply Hf, H. Qed.

Lemma pres_freshId : (forall w, I w -> I (upd_nextId S w)) -> preserves I freshId.
Proof. intros Hf w H. apply Hf, H. Qed.

Lemma pres_bind {A B} (m : M A) (f : A -> M B) :
preserves I m -> (forall a, preserves I (f a)) -> preserves I (mbind f m).
Proof.
intros Hm Hf w H. specialize (Hm w H).
unfold mbind, M_bind, bindM. destruct (m w) as [w' [a| |]]; simpl in *; auto.
apply Hf, Hm.
Qed.

(** The same for code that starts by reading the state: the code that
follows is only run on the state it has read. *)
Lemma pres_get_bind {A} (f : World -> M A) :
(forall w, I w -> I (f w w).1) -> preserves I (mbind f get).
Proof. intros Hf w H. apply Hf, H. Qed.

Lemma pres_try_catch m h :
preserves I m -> (forall e, preserves I (h e)) -> preserves I (try_catch m h).
Proof.
intros Hm Hh w H. specialize (Hm w H). unfold try_catch.
destruct (m w) as [w' [a| |]]; simpl in *; auto. apply Hh, Hm.
Qed.

Lemma pres_exec m :
(forall e w, I w -> I (upd_trace (fun t => t ++ [OUnhandled e]) w)) ->
preserves I m -> forall w, I w -> I (exec m w).
Proof.
intros Ht Hm w H. specialize (Hm w H). unfold exec.
destruct (m w) as [w' [a| |]]; simpl in *; auto.
Qed.
End Preserves.

Lemma pres_and (I J : World -> Prop) {A} (m : M A) :
  preserves I m -> preserves J m -> preserves (fun w => I w ∧ J w) m.
Proof. intros HI HJ w [H1 H2]. split; [apply HI | apply HJ]; assumption. Qed.

Lemma run_app es1 es2 w : run (es1 ++ es2) w = run es2 (run es1 w).
Proof. unfold run. apply fold_left_app. Qed.

Lemma run_cons e es w : run (e :: es) w = run es (step e w).
Proof. reflexivity. Qed.

Lemma run_invariant (I : World -> Prop) :
  (forall e w, I w -> I (step e w)) -> forall es w, I w -> I (run es w).
Proof.
  intros Hstep es. induction es as [|e es IH]; intros w H; [exact H|].
  rewrite run_cons. apply IH, Hstep, H.
Qed.

Create HintDb pres discriminated.

Ltac head_of t :=
  lazymatch t with
  | ?f _ => head_of f
  | _ => t
  end.

(** Decompose a goal [preserves I m] along the structure of [m]; [leaf]
    is tried on the state updates. *)
Ltac pres_struct leaf :=
  lazymatch goal with
  | |- preserves _ (mret _) => apply pres_ret
  | |- preserves _ (throw _) => apply pres_throw
  | |- preserves _ suspend => apply pres_suspend
  | |- preserves _ get => apply pres_get
  | |- preserves _ (mbind _ _) => apply pres_bind; [ | intros ? ]
  | |- preserves _ (try_catch _ _) => apply pres_try_catch; [ | intros ? ]
  | |- preserves _ (modify _) => apply pres_modify; leaf
  | |- preserves _ freshId => apply pres_freshId; leaf
  | |- preserves _ (match ?x with _ => _ end) => destruct x
  | |- preserves _ ?m => let h := head_of m in progress (unfold h)
  end.

Ltac pres_with leaf :=
  repeat first [ solve [ eauto 2 with pres ] | pres_struct leaf ].

Ltac frame := let H := fresh in intros ? H; exact H.

(** Run handler code on a symbolic state. *)
Ltac msimpl :=
  unfold exec, try_catch, await, emit, log, out, freshId, modify, get, throw,
    suspend;
  unfold mbind, M_bind, bindM, mret, M_ret, retM;
  cbn.

Ltac msimpl_in H :=
  unfold exec, try_catch, await, emit, log, out, freshId, modify, get, throw,
    suspend in H;
  unfold mbind, M_bind, bindM, mret, M_ret, retM in H;
  cbn in H.

(** ** The event loop, one handler at a time *)

(** [msimpl] under the turns that are still to be taken. *)
Ltac msimpl_steps :=
  unfold exec, try_catch, await, emit, log, out, freshId, modify, get, throw,
    suspend;
  unfold mbind, M_bind, bindM, mret, M_ret, retM;
  cbn -[step].

Lemma step_resume k c r m w :
  pool w !! k = Some c -> resume c r = Some m ->
  step (Resume k r) w = exec m (upd_pool (delete k) w).
Proof. intros Hk Hr. unfold step. rewrite Hk, Hr. reflexivity. Qed.

Lemma step_resume_ignored k c r w :
  pool w !! k = Some c -> resume c r = None -> step (Resume k r) w = w.
Proof. intros Hk Hr. unfold step. rewrite Hk, Hr. reflexivity. Qed.


(** What relates a state to the next one, event by event, when every
    handler relates them where the interface lets it run. *)
Lemma step_cases_ev (R : Event -> World -> World -> Prop) :
  (forall e w, R e w w) ->
  (forall s w, R (USetRoomId s) w (upd_roomId (fun _ => s) w)) ->
  (forall s w, R (USetUserId s) w (upd_userId (fun _ => s) w)) ->
  (forall w, isConnected w = false -> R UConnect w (exec connect w)) ->
  (forall w, isConnected w = true -> R UDisconnect w (exec disconnect w)) ->
  (forall w, isConnected w = true -> isBroadcasting w = false ->
             R UStartBroadcast w (exec startBroadcast w)) ->
  (forall w, isBroadcasting w = true ->
             R UStopBroadcast w (exec stopBroadcast w)) ->
  (forall sid s n w, sockets w !! sid = Some s -> s_open s = true ->
                     R (Notify sid n) w (exec (onNotification (s_env s) n) w)) ->
  (forall k c r m w, pool w !! k = Some c -> resume c r = Some m ->
                     R (Resume k r) w (exec m (upd_pool (delete k) w))) ->
  forall e w, R e w (step e w).
Proof.
  intros Hid Hroom Huser Hc Hd Hs Hst Hn Hr e w.
  destruct e as [s0|s0| | | | |sid nt|k r]; simpl.
  - destruct (isConnected w); [apply Hid | apply Hroom].
  - destruct (isConnected w); [apply Hid | apply Huser].
  - destruct (isConnected w) eqn:E; [apply Hid|]. apply Hc; assumption.
  - destruct (isConnected w) eqn:E; [|apply Hid]. apply Hd; assumption.
  - destruct (isConnected w) eqn:E; [|apply Hid].
    destruct (isBroadcasting w) eqn:E'; [apply Hid|]. simpl. apply Hs; assumption.
  - destruct (isBroadcasting w) eqn:E; [|apply Hid]. apply Hst; assumption.
  - destruct (sockets w !! sid) as [s|] eqn:Hsock; [|apply Hid].
    destruct (s_open s) eqn:Hopen; [|apply Hid]. eapply Hn; eassumption.
  - destruct (pool w !! k) as [c|] eqn:Hk; [|apply Hid].
    destruct (resume c r) as [m|] eqn:Hm; [|apply Hid].
    eapply Hr; eassumption.
Qed.

(** What relates a state to the next one, whatever the event, when every
    handler relates them where the interface lets it run. *)
Lemma step_cases (R : World -> World -> Prop) :
  (forall w, R w w) ->
  (forall s w, R w (upd_roomId (fun _ => s) w)) ->
  (forall s w, R w (upd_userId (fun _ => s) w)) ->
  (forall w, isConnected w = false -> R w (exec connect w)) ->
  (forall w, isConnected w = true -> R w (exec disconnect w)) ->
  (forall w, isConnected w = true -> isBroadcasting w = false ->
             R w (exec startBroadcast w)) ->
  (forall w, isBroadcasting w = true -> R w (exec stopBroadcast w)) ->
  (forall sid s n w, sockets w !! sid = Some s -> s_open s = true ->
                     R w (exec (onNotification (s_env s) n) w)) ->
  (forall k c r m w, pool w !! k = Some c -> resume c r = Some m ->
                     R w (exec m (upd_pool (delete k) w))) ->
  forall e w, R w (step e w).
Proof.
  intros Hid Hroom Huser Hc Hd Hs Hst Hn Hr.
  apply (step_cases_ev (fun _ w w' => R w w')); eauto.
Qed.

(** A property kept by the turns of the events that satisfy [P] is kept by
    a run of such events. *)
Lemma run_invariant_where (P : Event -> Prop) (I : World -> Prop) :
  (forall e w, P e -> I w -> I (step e w)) ->
  forall es w, Forall P es -> I w -> I (run es w).
Proof.
  intros Hstep es. induction es as [|e es IH]; intros w Hes H; [exact H|].
  rewrite run_cons. inversion Hes; subst. apply IH; [assumption|].
  apply Hstep; assumption.
Qed.

(** A property that every handler keeps where the interface lets it run is
    kept by every turn. *)
Lemma step_guarded (I : World -> Prop) :
  (forall s w, I w -> I (upd_roomId (fun _ => s) w)) ->
  (forall s w, I w -> I (upd_userId (fun _ => s) w)) ->
  (forall w, isConnected w = false -> I w -> I (exec connect w)) ->
  (forall w, isConnected w = true -> I w -> I (exec disconnect w)) ->
  (forall w, isConnected w = true -> isBroadcasting w = false -> I w ->
             I (exec startBroadcast w)) ->
  (forall w, isBroadcasting w = true -> I w -> I (exec stopBroadcast w)) ->
  (forall sid s n w, sockets w !! sid = Some s -> s_open s = true -> I w ->
                     I (exec (onNotification (s_env s) n) w)) ->
  (forall k c r m w, pool w !! k = Some c -> resume c r = Some m -> I w ->
                     I (exec m (upd_pool (delete k) w))) ->
  forall e w, I w -> I (step e w).
Proof.
  intros Hroom Huser Hc Hd Hs Hst Hn Hr e w.
  apply (step_cases (fun w w' => I w -> I w')); eauto.
Qed.

(** A property that every handler keeps is kept by every turn. *)
Lemma step_preserves (I : World -> Prop) :
  (forall s w, I w -> I (upd_roomId (fun _ => s) w)) ->
  (forall s w, I w -> I (upd_userId (fun _ => s) w)) ->
  (forall e w, I w -> I (upd_trace (fun t => t ++ [OUnhandled e]) w)) ->
  (forall k w, I w -> I (upd_pool (delete k) w)) ->
  preserves I connect -> preserves I disconnect ->
  preserves I startBroadcast -> preserves I stopBroadcast ->
  (forall env n, preserves I (onNotification env n)) ->
  (forall c r m, resume c r = Some m -> preserves I m) ->
  forall e w, I w -> I (step e w).
Proof.
  intros Hroom Huser Hun Hdel Hc Hd Hs Hst Hn Hr.
  apply step_guarded; try assumption; intros; apply pres_exec; eauto.
Qed.

(** The continuations of [resume], each with the handlers unfolded. *)
Ltac resume_cases_of Hr r :=
  simpl in Hr;
  unfold loaded, createProducerTransport_ack, produced_video, produced_audio,
    createConsumerTransport_ack, consume_ack, consume_made in Hr;
  destruct r; simplify_eq.

Ltac resume_cases Hr c r :=
  destruct c; simpl in Hr;
  unfold loaded, createProducerTransport_ack, produced_video, produced_audio,
    createConsumerTransport_ack, consume_ack, consume_made in Hr;
  destruct r; simplify_eq.

(** ** When the session is marked as broadcasting *)

Section Broadcasting.

Ltac nb_leaf := first [ frame | intros; reflexivity ].

Lemma nb_handleNewProducer env a ret :
preserves NotBroadcasting (handleNewProducer env a ret).
Proof. pres_with nb_leaf. Qed.

Lemma nb_drainLoop env arr l idx :
preserves NotBroadcasting (drainLoop env arr idx l).
Proof.
revert idx. induction l as [|a l IH]; intros idx; simpl.
- pres_with nb_leaf.
- apply pres_bind; [apply nb_handleNewProducer | intros _; apply IH].
Qed.

Hint Resolve nb_drainLoop : pres.

Lemma nb_resume c r m :
resume c r = Some m -> (forall v a, r <> RMedia v a) ->
preserves NotBroadcasting m.
Proof.
intros Hr Hm.
destruct c; simpl in Hr;
unfold loaded, createProducerTransport_ack, produced_video, produced_audio,
createConsumerTransport_ack, consume_ack, consume_made in Hr;
destruct r; simplify_eq; try (pres_with nb_leaf; fail).
exfalso. eapply Hm. reflexivity.
Qed.

Lemma nb_unhandled e w :
NotBroadcasting w -> NotBroadcasting (upd_trace (fun t => t ++ [OUnhandled e]) w).
Proof. intros H. exact H. Qed.

Lemma nb_step e w :
(forall k v a, e <> Resume k (RMedia v a)) ->
NotBroadcasting w -> NotBroadcasting (step e w).
Proof.
intros He H. destruct e; simpl.
- destruct (isConnected w); exact H.
- destruct (isConnected w); exact H.
- destruct (isConnected w); [exact H|].
apply pres_exec; [apply nb_unhandled | pres_with nb_leaf | exact H].
- destruct (isConnected w); [|exact H].
apply pres_exec; [apply nb_unhandled | pres_with nb_leaf | exact H].
- destruct (negb (isConnected w) || isBroadcasting w); [exact H|].
apply pres_exec; [apply nb_unhandled | pres_with nb_leaf | exact H].
- destruct (isBroadcasting w); [|exact H].
apply pres_exec; [apply nb_unhandled | pres_with nb_leaf | exact H].
- destruct (sockets w !! sid) as [s|]; [|exact H].
destruct (s_open s); [|exact H].
apply pres_exec; [apply nb_unhandled | | exact H].
destruct n; pres_with nb_leaf.
- destruct (pool w !! k) as [c|]; [|exact H].
destruct (resume c r) as [m|] eqn:Hr; [|exact H].
apply pres_exec; [apply nb_unhandled | | exact H].
eapply nb_resume; [exact Hr|]. intros v a ->. eapply He. reflexivity.
Qed.

End Broadcasting.

(** C7, as stated, fails: after [startBroadcast] has acquired the media and
    opened the socket, and before any router capabilities have arrived, the
    session is marked as broadcasting although no device exists, no send
    transport was created and no producer was published. *)
Lemma C7_marked_before_negotiation :
  let w := run Scenario.started Scenario.start in
  isBroadcasting w = true ∧ deviceRef w = None ∧
  producerTransportRef w = None ∧ producersRef w = ∅ ∧
  arrivals Scenario.started = [] ∧
  trace w = [OFetch "test-room" "me"; OGetUserMedia;
             OSocketOpen 4 "https://sfu.example" "token"].
Proof. vm_compute. repeat split; reflexivity. Qed.

(** *** The turns of the negotiation leave the flag alone *)

Section Flag.

Variable b : bool.

Lemma flag_handleNewProducer env a ret :
  preserves (BroadcastingIs b) (handleNewProducer env a ret).
Proof. pres_with frame. Qed.

Lemma flag_drainLoop env arr l idx :
  preserves (BroadcastingIs b) (drainLoop env arr idx l).
Proof.
  revert idx. induction l as [|a l IH]; intros idx; simpl.
  - pres_with frame.
  - apply pres_bind; [apply flag_handleNewProducer | intros _; apply IH].
Qed.

Hint Resolve flag_drainLoop : pres.

Lemma flag_negotiating c r m :
  negotiating c = true -> resume c r = Some m -> preserves (BroadcastingIs b) m.
Proof.
  intros Hc Hr. destruct c; try discriminate;
    resume_cases_of Hr r; pres_with frame.
Qed.

Lemma flag_routerCapabilities env caps :
  preserves (BroadcastingIs b) (onNotification env (NRouterCapabilities caps)).
Proof. pres_with frame. Qed.

End Flag.

Lemma negotiation_keeps_flag e w :
  negotiationTurn e w = true -> isBroadcasting (step e w) = isBroadcasting w.
Proof.
  intros Hn. change (BroadcastingIs (isBroadcasting w) (step e w)).
  assert (H : BroadcastingIs (isBroadcasting w) w) by reflexivity.
  destruct e as [| | | | | |sid nt|k r]; try discriminate; simpl in Hn.
  - destruct nt; try discriminate. unfold step.
    destruct (sockets w !! sid) as [s|]; [|exact H].
    destruct (s_open s); [|exact H].
    apply pres_exec; [intros ? ? H'; exact H' | apply flag_routerCapabilities | exact H].
  - unfold step. destruct (pool w !! k) as [c|]; [|exact H].
    destruct (resume c r) as [m|] eqn:Hr; [|exact H].
    apply pres_exec; [intros ? ? H'; exact H' | | exact H].
    eapply flag_negotiating; eassumption.
Qed.

(** *** The other turns do nothing of the negotiation *)

Section Outside.

Variable w0 : World.

Lemma nn_out o :
  negotiationCall o = false ->
  forall w, NoNegotiation w0 w -> NoNegotiation w0 (upd_trace (fun t => t ++ [o]) w).
Proof.
  intros Ho w (H1 & H2 & H3 & H4). repeat split; try assumption.
  unfold negotiationCalls. cbn. rewrite List.filter_app. cbn. rewrite Ho.
  rewrite app_nil_r. exact H2.
Qed.

Lemma nn_close :
  forall w t, producerTransportRef w = Some t -> NoNegotiation w0 w ->
    NoNegotiation w0 (upd_producerTransportRef (fun _ => Some (closeTransport t)) w).
Proof.
  intros w t Ht (H1 & H2 & H3 & H4). repeat split; try assumption.
  cbn. rewrite <- H3, Ht. reflexivity.
Qed.

Lemma nn_clear w :
  NoNegotiation w0 w -> NoNegotiation w0 (upd_producersRef (fun _ => ∅) w).
Proof.
  intros (H1 & H2 & H3 & H4). repeat split; try assumption.
  cbn. apply map_empty_subseteq.
Qed.

Ltac nn_leaf :=
  first [ frame | apply nn_out; reflexivity | apply nn_clear ].

Lemma nn_handleNewProducer env a ret :
  preserves (NoNegotiation w0) (handleNewProducer env a ret).
Proof. pres_with nn_leaf. Qed.

Lemma nn_drainLoop env arr l idx :
  preserves (NoNegotiation w0) (drainLoop env arr idx l).
Proof.
  revert idx. induction l as [|a l IH]; intros idx; simpl.
  - pres_with nn_leaf.
  - apply pres_bind; [apply nn_handleNewProducer | intros _; apply IH].
Qed.

Hint Resolve nn_drainLoop : pres.

Lemma nn_closeProducerTransport :
  preserves (NoNegotiation w0) closeProducerTransport.
Proof.
  unfold closeProducerTransport. apply pres_get_bind. intros w H.
  destruct (producerTransportRef w) as [t|] eqn:Ht; [|exact H].
  msimpl. apply nn_out; [reflexivity|]. apply nn_close; assumption.
Qed.

Hint Resolve nn_closeProducerTransport : pres.

Lemma nn_resume c r m :
  negotiating c = false -> resume c r = Some m -> preserves (NoNegotiation w0) m.
Proof.
  intros Hc Hr. destruct c; try discriminate;
    resume_cases_of Hr r; pres_with nn_leaf.
Qed.

Lemma nn_notification env nt :
  (forall caps, nt <> NRouterCapabilities caps) ->
  preserves (NoNegotiation w0) (onNotification env nt).
Proof.
  intros Hn. destruct nt; try (pres_with nn_leaf; fail).
  exfalso. eapply Hn. reflexivity.
Qed.

Lemma nn_unhandled e w :
  NoNegotiation w0 w ->
  NoNegotiation w0 (upd_trace (fun t => t ++ [OUnhandled e]) w).
Proof. apply nn_out. reflexivity. Qed.

Lemma nn_step e w :
  negotiationTurn e w = false -> NoNegotiation w0 w -> NoNegotiation w0 (step e w).
Proof.
  intros Hn H. destruct e as [s0|s0| | | | |sid nt|k r]; simpl.
  - destruct (isConnected w); exact H.
  - destruct (isConnected w); exact H.
  - destruct (isConnected w); [exact H|].
    apply pres_exec; [apply nn_unhandled | pres_with nn_leaf | exact H].
  - destruct (isConnected w); [|exact H].
    apply pres_exec; [apply nn_unhandled | pres_with nn_leaf | exact H].
  - destruct (negb (isConnected w) || isBroadcasting w); [exact H|].
    apply pres_exec; [apply nn_unhandled | pres_with nn_leaf | exact H].
  - destruct (isBroadcasting w); [|exact H].
    apply pres_exec; [apply nn_unhandled | pres_with nn_leaf | exact H].
  - simpl in Hn. destruct (sockets w !! sid) as [s|]; [|exact H].
    destruct (s_open s); [|exact H].
    apply pres_exec; [apply nn_unhandled | | exact H].
    apply nn_notification. intros caps ->. discriminate.
  - simpl in Hn. destruct (pool w !! k) as [c|]; [|exact H].
    destruct (resume c r) as [m|] eqn:Hr; [|exact H].
    apply pres_exec; [apply nn_unhandled | | exact H].
    eapply nn_resume; eassumption.
Qed.

End Outside.

Lemma nn_refl w : NoNegotiation w w.
Proof. repeat split; reflexivity. Qed.

(** *** Nothing is negotiated before the socket is opened *)

Section BeforeSocket.

Lemma pristine_insert k c :
  beforeSocket c = true ->
  forall w, Pristine w -> Pristine (upd_pool <[ k := c ]> w).
Proof.
  intros Hc w (H1 & H2 & H3). repeat split; try assumption.
  cbn. apply map_Forall_insert_2; assumption.
Qed.

Lemma pristine_delete k w : Pristine w -> Pristine (upd_pool (delete k) w).
Proof.
  intros (H1 & H2 & H3). repeat split; try assumption.
  cbn. apply map_Forall_delete, H3.
Qed.

Lemma pristine_off w :
  Pristine w -> Pristine (upd_isBroadcasting (fun _ => false) w).
Proof. intros (H1 & H2 & H3). repeat split; assumption. Qed.

Lemma pristine_alter f sid w :
  Pristine w -> Pristine (upd_sockets (alter f sid) w).
Proof.
  intros (H1 & H2 & H3). repeat split; try assumption.
  cbn. rewrite H2. apply map_eq. intros i.
  destruct (decide (i = sid)) as [->|Hi].
  - rewrite lookup_alter_eq, lookup_empty. reflexivity.
  - rewrite lookup_alter_ne by congruence. reflexivity.
Qed.

Ltac pristine_leaf :=
  first [ frame
        | apply pristine_insert; reflexivity
        | apply pristine_off
        | apply pristine_alter ].

Lemma pristine_resume c r m :
  beforeSocket c = true -> (forall v a, r <> RMedia v a) ->
  resume c r = Some m -> preserves Pristine m.
Proof.
  intros Hc Hm Hr. destruct c; try discriminate;
    resume_cases_of Hr r; try (pres_with pristine_leaf; fail).
  exfalso. eapply Hm. reflexivity.
Qed.

Lemma pristine_media uid ci video audio w :
  Pristine w ->
  isBroadcasting (exec (startBroadcast_media uid ci video audio) w) = false ->
  Pristine (exec (startBroadcast_media uid ci video audio) w).
Proof.
  intros (H1 & H2 & H3) Hb. revert Hb.
  unfold startBroadcast_media, startBroadcast_catch.
  destruct ci as [ci|].
  - destruct (origin (broadcaster_url ci)) as [url|] eqn:Hu; msimpl;
      rewrite ?Hu; msimpl; intros Hb; [discriminate|].
    repeat split; assumption.
  - msimpl. intros _. repeat split; assumption.
Qed.

Lemma pristine_step e w :
  Pristine w -> isBroadcasting (step e w) = false -> Pristine (step e w).
Proof.
  intros H Hb. pose proof H as (H1 & H2 & H3).
  destruct e as [s0|s0| | | | |sid nt|k r]; simpl in *.
  - destruct (isConnected w); exact H.
  - destruct (isConnected w); exact H.
  - destruct (isConnected w); [exact H|].
    apply pres_exec; [intros ? ? H'; exact H' | pres_with pristine_leaf | exact H].
  - destruct (isConnected w); [|exact H].
    apply pres_exec; [intros ? ? H'; exact H' | pres_with pristine_leaf | exact H].
  - destruct (negb (isConnected w) || isBroadcasting w); [exact H|].
    apply pres_exec; [intros ? ? H'; exact H' | pres_with pristine_leaf | exact H].
  - rewrite H1. exact H.
  - rewrite H2, lookup_empty. exact H.
  - destruct (pool w !! k) as [c|] eqn:Hk; [|exact H].
    destruct (resume c r) as [m|] eqn:Hr; [|exact H].
    pose proof (H3 k c Hk) as Hc. cbn beta in Hc.
    assert (Hcase : (exists v a, r = RMedia v a) ∨ (forall v a, r <> RMedia v a))
      by (destruct r; try (right; intros; discriminate); left; eauto).
    destruct Hcase as [(v & a & ->)|Hm].
    + destruct c; try discriminate; simpl in Hr; simplify_eq.
      apply pristine_media; [apply pristine_delete, H | exact Hb].
    + apply pres_exec; [intros ? ? H'; exact H' | | apply pristine_delete, H].
      eapply pristine_resume; eassumption.
Qed.

Lemma pristine_quiet e w : Pristine w -> negotiationTurn e w = false.
Proof.
  intros (H1 & H2 & H3). destruct e as [| | | | | |sid nt|k r]; try reflexivity; simpl.
  - destruct nt; try reflexivity. rewrite H2, lookup_empty. reflexivity.
  - destruct (pool w !! k) as [c|] eqn:Hk; [|reflexivity].
    pose proof (H3 k c Hk) as Hc. cbn beta in Hc.
    destruct c; try discriminate; reflexivity.
Qed.

Lemma pristine_initial uid : Pristine (initial uid).
Proof.
  repeat split. cbn. apply map_Forall_empty.
Qed.

Lemma ever_or_pristine w0 es :
  Pristine w0 -> everBroadcasting w0 es ∨ Pristine (run es w0).
Proof.
  intros H0. induction es as [|e es IH] using rev_ind; [right; exact H0|].
  destruct IH as [(es1 & es2 & -> & Hb)|Hp].
  - left. exists es1, (es2 ++ [e]). rewrite app_assoc. split; [reflexivity | exact Hb].
  - rewrite run_app. simpl.
    destruct (isBroadcasting (step e (run es w0))) eqn:Hb.
    + left. exists (es ++ [e]), []. rewrite app_nil_r, run_app.
      split; [reflexivity | exact Hb].
    + right. apply pristine_step; assumption.
Qed.

End BeforeSocket.

(** C7 (amended): the session is marked as broadcasting by the step of
    [startBroadcast] that follows media acquisition and opens the signaling
    socket, and by no other step; that step makes no other call to the
    outside, leaves the device and the send transport as they were and
    publishes no producer.  The device is made and loaded, the send
    transport requested and made and the local producers published only in
    the turns of the [routerCapabilities] listener, and these turns never
    change the flag.  In every run of the component such a turn comes after
    the session was marked as broadcasting; the flag need not be set any
    more by then, as in the session of [Scenario.stoppedWhileLoading],
    where the broadcast was stopped while the device was loading and the
    send transport is requested all the same. *)
Theorem C7_broadcasting_marked_at_media :
  (forall e w,
     isBroadcasting w = false -> isBroadcasting (step e w) = true ->
     exists k uid ci video audio sid url,
       e = Resume k (RMedia video audio) ∧
       pool w !! k = Some (KGetUserMedia uid (Some ci)) ∧
       origin (broadcaster_url ci) = Some url ∧
       socketRef (step e w) = Some sid ∧
       trace (step e w) = trace w ++ [OSocketOpen sid url (broadcaster_token ci)] ∧
       deviceRef (step e w) = deviceRef w ∧
       producerTransportRef (step e w) = producerTransportRef w ∧
       producersRef (step e w) = producersRef w) ∧
  (forall e w,
     negotiationTurn e w = true ->
     isBroadcasting (step e w) = isBroadcasting w) ∧
  (forall e w,
     negotiationTurn e w = false -> NoNegotiation w (step e w)) ∧
  (forall uid es e,
     negotiationTurn e (run es (initial uid)) = true ->
     everBroadcasting (initial uid) es) ∧
  (let w := run Scenario.stoppedWhileLoading Scenario.start in
   let w' := step (Resume 6 RUnit) w in
   negotiationTurn (Resume 6 RUnit) w = true ∧
   isBroadcasting w = false ∧ isBroadcasting w' = false ∧
   deviceRef w = Some (mkDevice 5 false) ∧
   deviceRef w' = Some (mkDevice 5 true) ∧
   trace w' = trace w ++ [OEmit 4 (MCreateTransport true false) (Some 7)]).
Proof.
  split; [|split; [|split; [|split]]].
  - intros e w Hoff Hon.
    assert (Hcase : (exists k v a, e = Resume k (RMedia v a)) ∨
                    (forall k v a, e <> Resume k (RMedia v a))).
    { destruct e as [| | | | | | |k r]; try (right; intros; discriminate).
      destruct r; try (right; intros; discriminate). left; eauto. }
    destruct Hcase as [(k & v & a & ->)|Hne].
    2:{ apply (nb_step e w Hne) in Hoff. unfold NotBroadcasting in Hoff. congruence. }
    simpl in Hon |- *.
    destruct (pool w !! k) as [c|] eqn:Hk; [|congruence].
    destruct c; simpl in Hon |- *; try congruence.
    destruct ci as [ci|].
    2:{ exfalso. unfold startBroadcast_media, startBroadcast_catch in Hon.
        msimpl_in Hon. congruence. }
    destruct (origin (broadcaster_url ci)) as [url|] eqn:Hurl.
    + exists k, uid, ci, v, a, (nextId w), url.
      unfold startBroadcast_media. rewrite Hurl. msimpl.
      repeat split; first [ assumption | reflexivity ].
    + exfalso. unfold startBroadcast_media, startBroadcast_catch in Hon.
      rewrite Hurl in Hon. msimpl_in Hon. congruence.
  - apply negotiation_keeps_flag.
  - intros e w Hn. apply nn_step; [exact Hn | apply nn_refl].
  - intros uid es e Hn.
    destruct (ever_or_pristine (initial uid) es (pristine_initial uid)) as [H|H];
      [exact H|].
    rewrite (pristine_quiet e _ H) in Hn. discriminate.
  - vm_compute. repeat split; reflexivity.
Qed.

(** The theorem at the step that completes media acquisition in the
    session of [Scenario.started], at the [routerCapabilities] notification
    that follows it, and at an announcement in its place. *)
Lemma C7_broadcasting_marked_at_media_witness :
  let w := run (Scenario.connected ++ [UStartBroadcast]) Scenario.start in
  let e := Resume 3 (RMedia true true) in
  let w1 := run Scenario.started Scenario.start in
  let caps := Notify 4 (NRouterCapabilities "caps") in
  let bob := Notify 4 (NNewProducer Scenario.bob_video) in
  (isBroadcasting w = false ∧ isBroadcasting (step e w) = true ∧
   exists k uid ci video audio sid url,
     e = Resume k (RMedia video audio) ∧
     pool w !! k = Some (KGetUserMedia uid (Some ci)) ∧
     origin (broadcaster_url ci) = Some url ∧
     socketRef (step e w) = Some sid ∧
     trace (step e w) = trace w ++ [OSocketOpen sid url (broadcaster_token ci)] ∧
     deviceRef (step e w) = deviceRef w ∧
     producerTransportRef (step e w) = producerTransportRef w ∧
     producersRef (step e w) = producersRef w) ∧
  (negotiationTurn caps w1 = true ∧
   isBroadcasting (step caps w1) = isBroadcasting w1) ∧
  (negotiationTurn bob w1 = false ∧ NoNegotiation w1 (step bob w1)) ∧
  (negotiationTurn caps (run Scenario.started (initial "me")) = true ∧
   everBroadcasting (initial "me") Scenario.started).
Proof.
  split; [|split; [|split]].
  - split; [vm_compute; reflexivity|].
    split; [vm_compute; reflexivity|].
    apply (proj1 C7_broadcasting_marked_at_media); vm_compute; reflexivity.
  - split; [vm_compute; reflexivity|].
    apply (proj1 (proj2 C7_broadcasting_marked_at_media)); vm_compute; reflexivity.
  - split; [vm_compute; reflexivity|].
    apply (proj1 (proj2 (proj2 C7_broadcasting_marked_at_media)));
      vm_compute; reflexivity.
  - split; [vm_compute; reflexivity|].
    apply (proj1 (proj2 (proj2 (proj2 C7_broadcasting_marked_at_media)))
             "me" Scenario.started (Notify 4 (NRouterCapabilities "caps")));
      vm_compute; reflexivity.
Defined.
(** ** Single notifications *)

(** C9: handling a [peerDisconnected] notification removes the entry of that
    participant from the participant map and changes nothing else but the
    log: the consumer registry keeps the consumers of that participant (no
    call is made to close them), and the producer set, the transports, the
    session flags, the other refs and the suspended handlers are as
    before. *)
Theorem C9_peerDisconnected_frame (sid : nat) (s : Socket) (uid : string) (w : World) :
  sockets w !! sid = Some s -> s_open s = true ->
  onlyParticipantRemoved uid w (step (Notify sid (NPeerDisconnected uid)) w).
Proof.
  intros Hs Hopen. simpl. rewrite Hs, Hopen.
  split; [reflexivity|]. split; [|repeat split; reflexivity].
  unfold exec, onNotification, onPeerDisconnected. msimpl.
  rewrite <- app_assoc. reflexivity.
Qed.

(** The theorem when [alice], whose video is being consumed, disconnects:
    her entry goes and her consumer [c1] stays in the registry. *)
Lemma C9_peerDisconnected_frame_witness :
  let w := run Scenario.broadcasting Scenario.start in
  let w' := step (Notify 4 (NPeerDisconnected "alice")) w in
  sockets w !! 4 = Some (mkSocket true (mkEnv "me" Scenario.info)) ∧
  is_Some (participants w !! "alice") ∧
  onlyParticipantRemoved "alice" w w' ∧
  participants w' !! "alice" = None ∧
  is_Some (consumersRef w' !! "c1").
Proof.
  split; [vm_compute; reflexivity|].
  split; [vm_compute; eexists; reflexivity|].
  split.
  - apply (C9_peerDisconnected_frame 4 (mkSocket true (mkEnv "me" Scenario.info)));
      [vm_compute; reflexivity | reflexivity].
  - split; [vm_compute; reflexivity | vm_compute; eexists; reflexivity].
Defined.

(** C5: an announcement whose [userId] is the local one is ignored.  The
    handler returns at once, whoever awaits it, having created no
    participant entry, no consumer and no receive transport, and having
    asked for none; this holds for an announcement delivered live, and the
    drain loop goes on to the next pending announcement in the same way. *)
Theorem C5_own_announcement_ignored (env : Env) (a : Announcement) (w : World) :
  a_userId a = e_userId env ->
  (forall ret, exists w',
      handleNewProducer env a ret w = (w', Ok tt) ∧ nothingCreated w w') ∧
  (is_Some (deviceRef w) ->
   nothingCreated w (exec (onNotification env (NNewProducer a)) w)) ∧
  (forall arr idx l, exists w',
      nothingCreated w w' ∧
      drainLoop env arr idx (a :: l) w = drainLoop env arr (S idx) l w').
Proof.
  intros Hself. apply String.eqb_eq in Hself.
  assert (Hh : forall ret,
    handleNewProducer env a ret w =
    (upd_logs (fun l => (l ++ [LNewProducerDetected (a_userId a) (a_kind a)])
                          ++ [LSkippingOwnStream]) w, Ok tt)).
  { intros ret. unfold handleNewProducer. msimpl. rewrite Hself. reflexivity. }
  split; [|split].
  - intros ret. eexists. split; [apply Hh|]. repeat split; reflexivity.
  - intros [d Hd]. unfold onNotification, onNewProducer, exec.
    unfold mbind, M_bind, bindM, log, modify, get.
    cbn -[handleNewProducer]. rewrite Hd.
    unfold handleNewProducer. msimpl. rewrite Hself.
    repeat split; reflexivity.
  - intros arr idx l. eexists. split; [|cbn [drainLoop]].
    2:{ unfold mbind at 1, M_bind, bindM. rewrite Hh. reflexivity. }
    repeat split; reflexivity.
Qed.

(** The theorem at an announcement of the local participant [me]. *)
Lemma C5_own_announcement_ignored_witness :
  let env := mkEnv "me" Scenario.info in
  let a := mkAnnouncement "p0" "me" "video" in
  let w := run Scenario.negotiated Scenario.start in
  a_userId a = e_userId env ∧
  (forall ret, exists w',
      handleNewProducer env a ret w = (w', Ok tt) ∧ nothingCreated w w') ∧
  (is_Some (deviceRef w) ->
   nothingCreated w (exec (onNotification env (NNewProducer a)) w)) ∧
  (forall arr idx l, exists w',
      nothingCreated w w' ∧
      drainLoop env arr idx (a :: l) w = drainLoop env arr (S idx) l w').
Proof.
  split; [reflexivity|].
  apply C5_own_announcement_ignored. reflexivity.
Defined.

(** ** The aggregated stream of a participant *)

Lemma addTrack_new (t : Track) (stream : list Track) :
  tr_obj t ∉ tr_obj <$> stream -> addTrack t stream = stream ++ [t].
Proof.
  intros Hnew. unfold addTrack.
  destruct (existsb (fun t' => tr_obj t' =? tr_obj t) stream) eqn:He; [|reflexivity].
  exfalso. apply existsb_exists in He as (t' & Hin & Heq).
  apply Nat.eqb_eq in Heq. apply Hnew. rewrite <- Heq.
  apply list_elem_of_fmap. exists t'. split; [reflexivity|].
  apply list_elem_of_In. exact Hin.
Qed.

Lemma consumeAll_snoc cs c m :
  consumeAll (cs ++ [c]) m =
  addConsumerTrack (cn_user c) (cn_response c) (cn_track c) (consumeAll cs m).
Proof. unfold consumeAll. rewrite fold_left_app. reflexivity. Qed.

(** The step of the event loop that ends a consumption applies the updater
    with a track that no earlier step has made. *)
Lemma consume_made_participants k response remoteUserId w :
  pool w !! k = Some (KConsuming response remoteUserId) ->
  participants (step (Resume k RUnit) w) =
  addConsumerTrack remoteUserId response
    (mkTrack (nextId w) (cr_kind response)) (participants w) ∧
  nextId (step (Resume k RUnit) w) = S (nextId w).
Proof. intros Hk. simpl. rewrite Hk. simpl. split; reflexivity. Qed.

Lemma lastProducer_snoc kind cs c :
  lastProducer kind (cs ++ [c]) =
  if decide (cr_kind (cn_response c) = kind)
  then Some (cr_producerId (cn_response c))
  else lastProducer kind cs.
Proof.
  unfold lastProducer, ofKind. rewrite filter_app.
  destruct (decide (cr_kind (cn_response c) = kind)) as [Hk|Hk].
  - rewrite (filter_cons_True _ c []) by exact Hk.
    rewrite fmap_app. cbn [fmap list_fmap filter list_filter].
    apply last_snoc.
  - rewrite (filter_cons_False _ c []) by exact Hk.
    rewrite app_nil_r. reflexivity.
Qed.

Lemma entryOf_default u mine :
  default (mkParticipant u [] None None) (entryOf u mine) =
  mkParticipant u (cn_track <$> mine)
    (lastProducer "video" mine) (lastProducer "audio" mine).
Proof. destruct mine; reflexivity. Qed.

(** The entry of a participant after a list of consumptions, none of them
    for a track that is already in the stream. *)
Lemma consumeAll_entry (u : string) (m : gmap string Participant) (cs : list Consumption) :
  m !! u = None ->
  NoDup (cn_obj <$> ofUser u cs) ->
  consumeAll cs m !! u = entryOf u (ofUser u cs).
Proof.
  intros Hm. induction cs as [|c cs IH] using rev_ind; intros Hnd.
  - exact Hm.
  - rewrite consumeAll_snoc. unfold ofUser in *. rewrite filter_app in *.
    destruct (decide (cn_user c = u)) as [Hu|Hu].
    + rewrite (filter_cons_True _ c []) in * by exact Hu.
      rewrite filter_nil in *. rewrite fmap_app in Hnd.
      apply NoDup_app in Hnd as (Hnd1 & Hnew & _).
      specialize (IH Hnd1).
      set (mine := filter (fun c => cn_user c = u) cs) in *.
      assert (Hfresh : tr_obj (cn_track c) ∉ tr_obj <$> (cn_track <$> mine)).
      { intros Hin. rewrite <- list_fmap_compose in Hin.
        apply (Hnew (cn_obj c)); [exact Hin|]. simpl. left. }
      unfold addConsumerTrack. rewrite Hu, lookup_insert_eq, IH, entryOf_default.
      cbn [p_stream p_userId p_videoProducerId p_audioProducerId].
      rewrite addTrack_new by exact Hfresh.
      assert (Hentry : entryOf u (mine ++ [c]) =
        Some (mkParticipant u ((cn_track <$> mine) ++ [cn_track c])
                (lastProducer "video" (mine ++ [c]))
                (lastProducer "audio" (mine ++ [c])))).
      { unfold entryOf. rewrite fmap_app. destruct mine; reflexivity. }
      rewrite Hentry, !lastProducer_snoc. f_equal.
      destruct (String.eqb (cr_kind (cn_response c)) "video") eqn:Hv.
      * apply String.eqb_eq in Hv. rewrite Hv.
        rewrite decide_True by reflexivity.
        rewrite decide_False by discriminate. reflexivity.
      * apply String.eqb_neq in Hv. rewrite (decide_False _ _ Hv).
        destruct (String.eqb (cr_kind (cn_response c)) "audio") eqn:Ha.
        -- apply String.eqb_eq in Ha. rewrite (decide_True _ _ Ha). reflexivity.
        -- apply String.eqb_neq in Ha. rewrite (decide_False _ _ Ha). reflexivity.
    + rewrite (filter_cons_False _ c []) in * by exact Hu.
      rewrite app_nil_r in *.
      unfold addConsumerTrack. rewrite lookup_insert_ne by exact Hu.
      apply IH, Hnd.
Qed.

Lemma tracksOfKind_consumptions kind cs :
  length (tracksOfKind kind (cn_track <$> cs)) = length (ofKind kind cs).
Proof.
  unfold tracksOfKind, ofKind. induction cs as [|c cs IH]; [reflexivity|].
  rewrite fmap_cons.
  destruct (decide (cr_kind (cn_response c) = kind)) as [Hk|Hk].
  - rewrite !filter_cons_True by exact Hk. simpl. rewrite IH. reflexivity.
  - rewrite !filter_cons_False by exact Hk. exact IH.
Qed.

(** C4, as stated, fails: [alice] announces video [p1], audio [p2] and then
    video [p3], and each is consumed.  The video slot names [p3], but the
    stream holds three tracks, two of them video. *)
Lemma C4_duplicate_adds_second_track :
  let w :=
    run (Scenario.negotiated ++ Scenario.alice_p1 ++ Scenario.alice_p2_p3)
      Scenario.start in
  exists p,
    participants w !! "alice" = Some p ∧
    p_videoProducerId p = Some "p3" ∧
    p_stream p = [mkTrack 15 "video"; mkTrack 18 "audio"; mkTrack 21 "video"] ∧
    ¬ oneTrackPerKind p.
Proof.
  eexists. split; [vm_compute; reflexivity|].
  split; [reflexivity|]. split; [reflexivity|].
  intros [Hv _]. vm_compute in Hv. lia.
Qed.

(** C4 (amended): after any sequence of consumed announcements, each with
    its own track, a participant that had no entry before has one as soon as
    one of the announcements is for it.  Its video slot names the producer
    of the last consumed video announcement for it and its audio slot that
    of the last consumed audio announcement, while its stream holds the
    track of every announcement consumed for it, in order: as many video
    tracks as video announcements and as many audio tracks as audio
    announcements.  A duplicate announcement replaces the producer id of
    the slot and adds a track. *)
Theorem C4_slot_replaced_track_added (u : string) (m : gmap string Participant)
    (cs : list Consumption) :
  m !! u = None ->
  NoDup (cn_obj <$> ofUser u cs) ->
  ofUser u cs <> [] ->
  exists p,
    consumeAll cs m !! u = Some p ∧
    p_videoProducerId p = lastProducer "video" (ofUser u cs) ∧
    p_audioProducerId p = lastProducer "audio" (ofUser u cs) ∧
    p_stream p = cn_track <$> ofUser u cs ∧
    length (tracksOfKind "video" (p_stream p)) = length (ofKind "video" (ofUser u cs)) ∧
    length (tracksOfKind "audio" (p_stream p)) = length (ofKind "audio" (ofUser u cs)).
Proof.
  intros Hm Hnd Hne. rewrite (consumeAll_entry u m cs Hm Hnd).
  unfold entryOf. destruct (ofUser u cs) as [|c mine] eqn:Hmine; [congruence|].
  eexists. split; [reflexivity|]. cbn [p_videoProducerId p_audioProducerId p_stream].
  repeat split; apply tracksOfKind_consumptions.
Qed.

(** The theorem at the three consumptions for [alice] above. *)
Lemma C4_slot_replaced_track_added_witness :
  let cs :=
    [mkConsumption "alice" (mkConsumeResponse "c1" "p1" "video") 15;
     mkConsumption "alice" (mkConsumeResponse "c2" "p2" "audio") 18;
     mkConsumption "alice" (mkConsumeResponse "c3" "p3" "video") 21] in
  (∅ : gmap string Participant) !! "alice" = None ∧
  NoDup (cn_obj <$> ofUser "alice" cs) ∧
  ofUser "alice" cs <> [] ∧
  exists p,
    consumeAll cs ∅ !! "alice" = Some p ∧
    p_videoProducerId p = lastProducer "video" (ofUser "alice" cs) ∧
    p_audioProducerId p = lastProducer "audio" (ofUser "alice" cs) ∧
    p_stream p = cn_track <$> ofUser "alice" cs ∧
    length (tracksOfKind "video" (p_stream p))
      = length (ofKind "video" (ofUser "alice" cs)) ∧
    length (tracksOfKind "audio" (p_stream p))
      = length (ofKind "audio" (ofUser "alice" cs)).
Proof.
  assert (Hnd : NoDup [15; 18; 21]).
  { repeat constructor; rewrite ?list_elem_of_In; simpl; intuition lia. }
  split; [reflexivity|]. split; [exact Hnd|]. split; [discriminate|].
  apply C4_slot_replaced_track_added; [reflexivity | exact Hnd | discriminate].
Defined.

(** ** Tearing the session down *)

(** Whatever the state, [disconnect] leaves both transport refs, the
    producer set and the consumer registry as they are and closes no
    transport. *)
Lemma disconnect_keeps_transports (w : World) :
  let w' := exec disconnect w in
  producerTransportRef w' = producerTransportRef w ∧
  consumerTransportRef w' = consumerTransportRef w ∧
  producersRef w' = producersRef w ∧
  consumersRef w' = consumersRef w ∧
  closes w' = closes w.
Proof.
  unfold disconnect, stopLocalTracks, closeSocket, closes. msimpl.
  destruct (localStreamRef w); msimpl; destruct (socketRef w); msimpl;
    rewrite ?omap_app, ?app_nil_r; repeat split; reflexivity.
Qed.

(** C8 at a failing input: [disconnect()] during a broadcast with both
    transports open, two producers and one consumer.  It stops the local
    tracks, disconnects the socket, forgets the credentials and resets both
    flags, but both transports stay open and the producer set and the
    consumer registry keep their entries; [stopBroadcast()] in the same
    state closes the two transports and empties both. *)
Lemma C8_disconnect_skips_transports_and_registries :
  let w := run Scenario.broadcasting Scenario.start in
  isConnected w = true ∧ isBroadcasting w = true ∧
  (let w' := step UDisconnect w in
   isConnected w' = false ∧ isBroadcasting w' = false ∧
   connectionInfo w' = None ∧ socketRef w' = None ∧
   localStreamRef w' = Some (mkLocalStream true true true) ∧
   trace w' = trace w ++ [OTracksStopped; OSocketDisconnect 4] ∧
   producerTransportRef w' = Some (mkTransport 8 "send-1" false) ∧
   consumerTransportRef w' = Some (mkTransport 12 "recv-1" false) ∧
   producersRef w' !! "video" = Some (mkProducer "local-video") ∧
   producersRef w' !! "audio" = Some (mkProducer "local-audio") ∧
   is_Some (consumersRef w' !! "c1")) ∧
  (let w' := step UStopBroadcast w in
   trace w' = trace w ++ [OTracksStopped; OTransportClose 8; OTransportClose 12;
                          OSocketDisconnect 4] ∧
   producerTransportRef w' = Some (mkTransport 8 "send-1" true) ∧
   consumerTransportRef w' = Some (mkTransport 12 "recv-1" true) ∧
   producersRef w' = ∅ ∧ consumersRef w' = ∅).
Proof.
  vm_compute. repeat split; try reflexivity. eexists; reflexivity.
Qed.

(** C6 at a failing input.  After [stopBroadcast()] the producer set, the
    consumer registry and the participant map are empty, but
    [consumerTransportRef] still holds the closed transport and [deviceRef]
    the device of the broadcast that ended.  In a first broadcast an
    announcement that arrives before the router capabilities is queued; in
    the broadcast started after the stop the same announcement is handled at
    once, no receive transport is asked for, and the answer of the server is
    consumed on the closed transport. *)
Lemma C6_restart_uses_stale_transport :
  let stopped := run (Scenario.broadcasting ++ [UStopBroadcast]) Scenario.start in
  let first := run (Scenario.started ++ [Notify 4 (NNewProducer Scenario.bob_video)])
                 Scenario.start in
  let restarted := run Scenario.restarted Scenario.start in
  let second := step (Notify 17 (NNewProducer Scenario.bob_video)) restarted in
  let answered :=
    step (Resume 18 (RAckConsume (mkConsumeResponse "c2" "p1" "video"))) second in
  (producersRef stopped = ∅ ∧ consumersRef stopped = ∅ ∧ participants stopped = ∅) ∧
  consumerTransportRef stopped = Some (mkTransport 12 "recv-1" true) ∧
  deviceRef stopped = Some (mkDevice 5 true) ∧
  (pendingProducers first = [Scenario.bob_video] ∧
   trace first = trace (run Scenario.started Scenario.start)) ∧
  (isBroadcasting restarted = true ∧ socketRef restarted = Some 17 ∧
   closes restarted = [8; 12]) ∧
  (pendingProducers second = [] ∧
   trace second = trace restarted ++ [OEmit 17 (MConsume "p1") (Some 18)] ∧
   createRequests second = createRequests stopped) ∧
  trace answered =
    trace second ++ [OConsume 12 (mkConsumeResponse "c2" "p1" "video")].
Proof. vm_compute. repeat split; reflexivity. Qed.

(** ** Announcements around the negotiation *)

(** C3 at a failing input.  [bob] is announced before the router
    capabilities and is queued.  [carol] is announced after the device has
    loaded, while the send transport is being created: she is handled at
    once, and her [consume] request is sent before the queue is drained and
    [bob] is handled.  An announcement that arrives while the device is
    loading is not queued either. *)
Lemma C3_live_announcement_overtakes_the_queue :
  let before := run (Scenario.started ++ [Notify 4 (NNewProducer Scenario.bob_video)])
                  Scenario.start in
  let w := run Scenario.raced Scenario.start in
  let loading := run Scenario.racedDuringLoad Scenario.start in
  arrivals Scenario.raced = [Scenario.bob_video; Scenario.carol_audio] ∧
  pendingProducers before = [Scenario.bob_video] ∧
  detections w = ["carol"; "bob"] ∧
  consumeRequests w = ["p2"; "p1"] ∧
  drains w = 1 ∧
  (deviceRef loading = Some (mkDevice 5 false) ∧
   pendingProducers loading = [Scenario.bob_video] ∧
   detections loading = ["carol"]).
Proof. vm_compute. repeat split; reflexivity. Qed.

(** ** The pending queue *)

Section Pending.

Ltac ng_leaf := first [ frame | intros; reflexivity ].

Lemma ng_resetPending l : preserves (NoGrowth l) resetPending.
Proof.
intros w _. right. unfold resetPending. msimpl.
unfold pendingProducers. cbn. rewrite lookup_insert_eq. reflexivity.
Qed.

Lemma ng_handleNewProducer l env a ret :
preserves (NoGrowth l) (handleNewProducer env a ret).
Proof. pres_with ng_leaf. Qed.

Lemma ng_drainLoop l env arr producers idx :
preserves (NoGrowth l) (drainLoop env arr idx producers).
Proof.
revert idx. induction producers as [|a producers IH]; intros idx; simpl.
- apply ng_resetPending.
- apply pres_bind; [apply ng_handleNewProducer | intros _; apply IH].
Qed.

Hint Resolve ng_resetPending ng_drainLoop : pres.

Lemma ng_resume l c r m :
resume c r = Some m -> preserves (NoGrowth l) m.
Proof.
intros Hr.
destruct c; simpl in Hr;
unfold loaded, createProducerTransport_ack, produced_video, produced_audio,
createConsumerTransport_ack, consume_ack, consume_made in Hr;
destruct r; simplify_eq; pres_with ng_leaf.
Qed.

Lemma ng_notification l env n :
(forall a, n <> NNewProducer a) -> preserves (NoGrowth l) (onNotification env n).
Proof.
intros Hn. destruct n; try (pres_with ng_leaf; fail).
exfalso. eapply Hn. reflexivity.
Qed.

(** With a device in place the listener hands the announcement to
[handleNewProducer]. *)
Lemma onNewProducer_live env a w :
is_Some (deviceRef w) ->
onNotification env (NNewProducer a) w =
handleNewProducer env a RetLive
(upd_logs (fun l => l ++ [LSocketEvent "newProducer"]) w).
Proof.
intros [d Hd]. unfold onNotification, onNewProducer.
unfold mbind, M_bind, bindM, log, modify, get.
cbn -[handleNewProducer]. rewrite Hd. reflexivity.
Qed.

(** Without one it appends the announcement to the queue. *)
Lemma onNewProducer_queued env a w :
deviceRef w = None ->
pendingProducers (exec (onNotification env (NNewProducer a)) w)
= pendingProducers w ++ [a].
Proof.
intros Hd. unfold onNotification, onNewProducer. msimpl. rewrite Hd. msimpl.
unfold pendingProducers. cbn. rewrite lookup_insert_eq. reflexivity.
Qed.

Lemma ng_unhandled l e w :
NoGrowth l w -> NoGrowth l (upd_trace (fun t => t ++ [OUnhandled e]) w).
Proof. intros H. exact H. Qed.

Lemma ng_step l e w :
is_Some (deviceRef w) ∨ (forall sid a, e <> Notify sid (NNewProducer a)) ->
NoGrowth l w -> NoGrowth l (step e w).
Proof.
intros He H. destruct e; simpl.
- destruct (isConnected w); exact H.
- destruct (isConnected w); exact H.
- destruct (isConnected w); [exact H|].
apply pres_exec; [apply ng_unhandled | pres_with ng_leaf | exact H].
- destruct (isConnected w); [|exact H].
apply pres_exec; [apply ng_unhandled | pres_with ng_leaf | exact H].
- destruct (negb (isConnected w) || isBroadcasting w); [exact H|].
apply pres_exec; [apply ng_unhandled | pres_with ng_leaf | exact H].
- destruct (isBroadcasting w); [|exact H].
apply pres_exec; [apply ng_unhandled | pres_with ng_leaf | exact H].
- destruct (sockets w !! sid) as [s|]; [|exact H].
destruct (s_open s); [|exact H].
assert (Hcase : (exists a, n = NNewProducer a) ∨ (forall a, n <> NNewProducer a)).
{ destruct n; try (right; intros; discriminate). left; eauto. }
destruct Hcase as [[a ->]|Hn].
+ destruct He as [Hd|He]; [|exfalso; eapply He; reflexivity].
unfold exec. rewrite (onNewProducer_live _ _ _ Hd).
apply (pres_exec _ (handleNewProducer (s_env s) a RetLive));
  [apply ng_unhandled | apply ng_handleNewProducer | exact H].
+ apply pres_exec; [apply ng_unhandled | apply ng_notification, Hn | exact H].
- destruct (pool w !! k) as [c|]; [|exact H].
destruct (resume c r) as [m|] eqn:Hr; [|exact H].
apply pres_exec; [apply ng_unhandled | eapply ng_resume, Hr | exact H].
Qed.

End Pending.

Section DrainedQueue.

Variable n : nat.

Lemma drained_log m :
isProcessing m = false ->
forall w, Drained n w -> Drained n (upd_logs (fun l => l ++ [m]) w).
Proof.
intros Hm w (Hd & Hp & Hn). repeat split; [exact Hd | exact Hp |].
unfold drains. cbn. rewrite List.filter_app. cbn. rewrite Hm.
rewrite app_nil_r. exact Hn.
Qed.

Lemma drained_device_new d :
forall w, Drained n w -> Drained n (upd_deviceRef (fun _ => Some d) w).
Proof. intros w (Hd & Hp & Hn). repeat split; [eexists; reflexivity | exact Hp | exact Hn]. Qed.

Lemma drained_device_loaded dev :
forall w, Drained n w ->
Drained n (upd_deviceRef (fun dr =>
match dr with
| Some d => if d_obj d =? dev then Some (mkDevice dev true) else dr
| None => None
end) w).
Proof.
intros w ([d Hd] & Hp & Hn). repeat split; [| exact Hp | exact Hn].
cbn. rewrite Hd. destruct (d_obj d =? dev); eexists; reflexivity.
Qed.

Ltac drained_leaf :=
first [ frame
  | apply drained_log; reflexivity
  | apply drained_device_new
  | apply drained_device_loaded ].

Lemma drained_resetPending : preserves (Drained n) resetPending.
Proof.
intros w (Hd & Hp & Hn). repeat split; [exact Hd | | exact Hn].
unfold resetPending. msimpl.
unfold pendingProducers. cbn. rewrite lookup_insert_eq. reflexivity.
Qed.

Lemma drained_handleNewProducer env a ret :
preserves (Drained n) (handleNewProducer env a ret).
Proof. pres_with drained_leaf. Qed.

Lemma drained_drainLoop env arr producers idx :
preserves (Drained n) (drainLoop env arr idx producers).
Proof.
revert idx. induction producers as [|a producers IH]; intros idx; simpl.
- apply drained_resetPending.
- apply pres_bind; [apply drained_handleNewProducer | intros _; apply IH].
Qed.

(** With an empty queue the [if] of lines 144-150 is skipped. *)
Lemma drained_processPending env : preserves (Drained n) (processPending env).
Proof.
unfold processPending. apply pres_get_bind. intros w H.
destruct H as (Hd & Hp & Hn). rewrite Hp. cbn. repeat split; assumption.
Qed.

Hint Resolve drained_resetPending drained_drainLoop drained_processPending : pres.

Lemma drained_resume c r m :
resume c r = Some m -> preserves (Drained n) m.
Proof.
intros Hr.
destruct c; simpl in Hr;
unfold loaded, createProducerTransport_ack, produced_video, produced_audio,
createConsumerTransport_ack, consume_ack, consume_made in Hr;
destruct r; simplify_eq; pres_with drained_leaf.
Qed.

Lemma drained_notification env nt :
(forall a, nt <> NNewProducer a) -> preserves (Drained n) (onNotification env nt).
Proof.
intros Hn. destruct nt; try (pres_with drained_leaf; fail).
exfalso. eapply Hn. reflexivity.
Qed.

Lemma drained_unhandled e w :
Drained n w -> Drained n (upd_trace (fun t => t ++ [OUnhandled e]) w).
Proof. intros H. exact H. Qed.

Lemma drained_step e w : Drained n w -> Drained n (step e w).
Proof.
intros H. destruct e as [s0|s0| | | | |sid nt|k r]; simpl.
- destruct (isConnected w); exact H.
- destruct (isConnected w); exact H.
- destruct (isConnected w); [exact H|].
apply pres_exec; [apply drained_unhandled | pres_with drained_leaf | exact H].
- destruct (isConnected w); [|exact H].
apply pres_exec; [apply drained_unhandled | pres_with drained_leaf | exact H].
- destruct (negb (isConnected w) || isBroadcasting w); [exact H|].
apply pres_exec; [apply drained_unhandled | pres_with drained_leaf | exact H].
- destruct (isBroadcasting w); [|exact H].
apply pres_exec; [apply drained_unhandled | pres_with drained_leaf | exact H].
- destruct (sockets w !! sid) as [s|]; [|exact H].
destruct (s_open s); [|exact H].
assert (Hcase : (exists a, nt = NNewProducer a) ∨ (forall a, nt <> NNewProducer a))
by (destruct nt; try (right; intros; discriminate); left; eauto).
destruct Hcase as [[a ->]|Hn].
+ unfold exec. rewrite (onNewProducer_live _ _ _ (proj1 H)).
apply (pres_exec _ (handleNewProducer (s_env s) a RetLive));
  [apply drained_unhandled | apply drained_handleNewProducer |].
apply drained_log; [reflexivity | exact H].
+ apply pres_exec;
  [apply drained_unhandled | apply drained_notification, Hn | exact H].
- destruct (pool w !! k) as [c|]; [|exact H].
destruct (resume c r) as [m|] eqn:Hr; [|exact H].
apply pres_exec; [apply drained_unhandled | eapply drained_resume, Hr | exact H].
Qed.

End DrainedQueue.

(** *** When no drain loop is suspended *)

Section SettledQueue.

Variable n : nat.

Lemma settled_log l m :
  isProcessing m = false -> detectionOf m = None ->
  forall w, Settled n l w -> Settled n l (upd_logs (fun l0 => l0 ++ [m]) w).
Proof.
  intros Hm Hd w (H1 & H2 & H3). split; [apply drained_log; assumption|].
  split; [exact H2|]. unfold detections. cbn. rewrite omap_app. cbn.
  rewrite Hd, app_nil_r. exact H3.
Qed.

Lemma settled_insert l k c :
  suspendedDrain c = false ->
  forall w, Settled n l w -> Settled n l (upd_pool <[ k := c ]> w).
Proof.
  intros Hc w (H1 & H2 & H3). repeat split; try apply H1; [|exact H3].
  unfold noDrain. cbn. apply map_Forall_insert_2; assumption.
Qed.

Lemma settled_delete l k w :
  Settled n l w -> Settled n l (upd_pool (delete k) w).
Proof.
  intros (H1 & H2 & H3). repeat split; try apply H1; [|exact H3].
  unfold noDrain. cbn. apply map_Forall_delete, H2.
Qed.

Lemma settled_drained l (f : World -> World) w :
  Drained n (f w) -> pool (f w) = pool w -> logs (f w) = logs w ->
  Settled n l w -> Settled n l (f w).
Proof.
  intros Hd Hp Hl (_ & H2 & H3). split; [exact Hd|].
  unfold noDrain, detections. rewrite Hp, Hl. split; assumption.
Qed.

Ltac settled_leaf :=
  first [ frame
        | apply settled_log; reflexivity
        | apply settled_insert; reflexivity
        | intros ? ?; apply settled_drained;
          [ first [apply drained_device_new | apply drained_device_loaded];
            match goal with H : Settled _ _ _ |- _ => apply H end
          | reflexivity | reflexivity | assumption ] ].

(** With an empty queue the [if] of lines 144-150 is skipped. *)
Lemma settled_processPending l env : preserves (Settled n l) (processPending env).
Proof.
  unfold processPending. apply pres_get_bind. intros w H.
  destruct H as ((Hd & Hp & Hn) & H2). rewrite Hp. cbn.
  repeat split; first [assumption | apply H2].
Qed.

Hint Resolve settled_processPending : pres.

Lemma settled_unhandled l e w :
  Settled n l w -> Settled n l (upd_trace (fun t => t ++ [OUnhandled e]) w).
Proof. intros H. exact H. Qed.

Lemma exec_log_bind m (f : M unit) w :
  exec (log m;; f) w = exec f (upd_logs (fun l => l ++ [m]) w).
Proof. reflexivity. Qed.

(** A call of [handleNewProducer] by the [newProducer] listener: one more
    call, and no loop to go back to. *)
Lemma settled_handleNewProducer l env a w :
  Settled n l w ->
  Settled n (l ++ [a_userId a]) (exec (handleNewProducer env a RetLive) w).
Proof.
  intros (H1 & H2 & H3). unfold handleNewProducer. rewrite exec_log_bind.
  apply pres_exec; [apply settled_unhandled | pres_with settled_leaf |].
  split; [apply drained_log; [reflexivity | exact H1]|].
  split; [exact H2|]. unfold detections in *. cbn. rewrite omap_app. cbn.
  rewrite H3. reflexivity.
Qed.

(** The completion of a handler that is not a suspended drain loop. *)
Lemma settled_resume l c r m :
  suspendedDrain c = false -> resume c r = Some m -> preserves (Settled n l) m.
Proof.
  intros Hc Hr. destruct c.
  8: { destruct ret; [|discriminate]. resume_cases_of Hr r; pres_with settled_leaf. }
  8: { destruct ret; [|discriminate]. resume_cases_of Hr r; pres_with settled_leaf. }
  all: resume_cases_of Hr r; pres_with settled_leaf.
Qed.

Lemma settled_step l e w :
  Settled n l w -> Settled n (l ++ (a_userId <$> deliveredAt e w)) (step e w).
Proof.
  intros H. destruct e as [s0|s0| | | | |sid nt|k r].
  7: { unfold step, deliveredAt.
       destruct (sockets w !! sid) as [s|];
         [|destruct nt; cbv beta iota; rewrite ?fmap_nil, ?app_nil_r; exact H].
       destruct (s_open s);
         [|destruct nt; cbv beta iota; rewrite ?fmap_nil, ?app_nil_r; exact H].
       destruct nt; cbv beta iota; rewrite ?fmap_nil, ?app_nil_r.
       4: { unfold exec. rewrite (onNewProducer_live _ _ _ (proj1 (proj1 H))).
            apply (settled_handleNewProducer l (s_env s) a).
            apply settled_log; [reflexivity | reflexivity | exact H]. }
       all: apply pres_exec;
         [apply settled_unhandled | pres_with settled_leaf | exact H]. }
  all: simpl; rewrite ?app_nil_r.
  - destruct (isConnected w); exact H.
  - destruct (isConnected w); exact H.
  - destruct (isConnected w); [exact H|].
    apply pres_exec; [apply settled_unhandled | pres_with settled_leaf | exact H].
  - destruct (isConnected w); [|exact H].
    apply pres_exec; [apply settled_unhandled | pres_with settled_leaf | exact H].
  - destruct (negb (isConnected w) || isBroadcasting w); [exact H|].
    apply pres_exec; [apply settled_unhandled | pres_with settled_leaf | exact H].
  - destruct (isBroadcasting w); [|exact H].
    apply pres_exec; [apply settled_unhandled | pres_with settled_leaf | exact H].
  - destruct (pool w !! k) as [c|] eqn:Hk; [|exact H].
    destruct (resume c r) as [m|] eqn:Hr; [|exact H].
    apply pres_exec; [apply settled_unhandled | | apply settled_delete, H].
    eapply settled_resume; [|exact Hr].
    destruct H as (_ & H2 & _). exact (H2 k c Hk).
Qed.

Lemma settled_run es :
  forall l w, Settled n l w ->
              Settled n (l ++ (a_userId <$> delivered es w)) (run es w).
Proof.
  induction es as [|e es IH]; intros l w H; simpl.
  - rewrite app_nil_r. exact H.
  - rewrite fmap_app, app_assoc. apply IH, settled_step, H.
Qed.

End SettledQueue.

(** C10, as stated, fails.  In the session of [Scenario.twice] the queue
    has been emptied and the device is loaded, while the drain loop of the
    second negotiation is still suspended on its timer.  When the timer
    fires the loop goes on over the array it was started on: a second
    [consume] request is sent for [bob], and [carol] is handled and
    requested a second time. *)
Lemma C10_drained_again :
  let w := run Scenario.twice Scenario.start in
  let w' := step (Resume 18 RUnit) w in
  (deviceRef w = Some (mkDevice 7 true) ∧ pendingProducers w = [] ∧
   drains w = 2 ∧ detections w = ["bob"; "bob"; "carol"] ∧
   consumeRequests w = ["p1"; "p2"]) ∧
  pool w !! 18 =
    Some (KPoll (mkEnv "me" Scenario.info) Scenario.bob_video (RetDrain 0 1)) ∧
  pendingProducers w' = [] ∧
  detections w' = ["bob"; "bob"; "carol"; "carol"] ∧
  consumeRequests w' = ["p1"; "p2"; "p1"; "p2"].
Proof. vm_compute. repeat split; reflexivity. Qed.

(** C10 (amended): the queue only grows while there is no device, hence
    before capability negotiation has completed: a step that leaves the
    queue different and not empty is the [newProducer] listener appending
    its announcement, in a state where [deviceRef.current] is still null.
    Once the device exists and the queue is empty, the queue is empty after
    every further sequence of events, the device is still in place, and the
    drain is not entered again.  If moreover no drain loop is suspended,
    none is suspended later, so that none is resumed, and the calls of
    [handleNewProducer] from then on are those of the [newProducer]
    listener: one for each announcement, when it arrives. *)
Theorem C10_queue_stays_drained :
  (forall e w,
      pendingProducers (step e w) <> pendingProducers w ->
      pendingProducers (step e w) <> [] ->
      deviceRef w = None ∧
      exists sid a, e = Notify sid (NNewProducer a) ∧
                    pendingProducers (step e w) = pendingProducers w ++ [a]) ∧
  (forall es w,
      is_Some (deviceRef w) -> pendingProducers w = [] ->
      pendingProducers (run es w) = [] ∧
      drains (run es w) = drains w ∧
      is_Some (deviceRef (run es w))) ∧
  (forall es w,
      is_Some (deviceRef w) -> pendingProducers w = [] -> noDrain w ->
      noDrain (run es w) ∧
      detections (run es w) = detections w ++ (a_userId <$> delivered es w)).
Proof.
  split; [|split].
  - intros e w Hchanged Hnonempty.
    destruct (deviceRef w) as [d|] eqn:Hd.
    { exfalso.
      destruct (ng_step (pendingProducers w) e w) as [H|H];
        [left; rewrite Hd; eexists; reflexivity | left; reflexivity | |];
        congruence. }
    split; [reflexivity|].
    assert (Hcase : (exists sid a, e = Notify sid (NNewProducer a)) ∨
                    (forall sid a, e <> Notify sid (NNewProducer a))).
    { destruct e as [| | | | | |sid nt|]; try (right; intros; discriminate).
      destruct nt; try (right; intros; discriminate). left; eauto. }
    destruct Hcase as [(sid & a & ->)|Hne].
    + exists sid, a. split; [reflexivity|].
      simpl in *. destruct (sockets w !! sid) as [s|]; [|congruence].
      destruct (s_open s); [|congruence].
      apply onNewProducer_queued, Hd.
    + exfalso.
      destruct (ng_step (pendingProducers w) e w) as [H|H];
        [right; exact Hne | left; reflexivity | |]; congruence.
  - intros es w Hd Hp.
    assert (H : Drained (drains w) (run es w)).
    { apply run_invariant; [apply drained_step|]. repeat split; assumption. }
    destruct H as (H1 & H2 & H3). repeat split; assumption.
  - intros es w Hd Hp Hn.
    assert (H : Settled (drains w) (detections w ++ (a_userId <$> delivered es w))
                  (run es w)).
    { apply settled_run. repeat split; assumption. }
    destruct H as (_ & H2 & H3). split; assumption.
Qed.

(** The theorem at the announcement of [bob] before the router capabilities,
    which is queued, and in the session of [Scenario.raced], whose queue has
    been drained once and whose drain loop has ended: a further
    announcement and a second [routerCapabilities] notification leave the
    queue empty, do not drain it again, and [dave] is handled once. *)
Lemma C10_queue_stays_drained_witness :
  let w0 := run Scenario.started Scenario.start in
  let e := Notify 4 (NNewProducer Scenario.bob_video) in
  let w := run Scenario.raced Scenario.start in
  let es := [Notify 4 (NNewProducer Scenario.dave_video);
             Notify 4 (NRouterCapabilities "caps")] in
  (pendingProducers (step e w0) <> pendingProducers w0 ∧
   pendingProducers (step e w0) <> [] ∧
   deviceRef w0 = None ∧
   exists sid a, e = Notify sid (NNewProducer a) ∧
                 pendingProducers (step e w0) = pendingProducers w0 ++ [a]) ∧
  (is_Some (deviceRef w) ∧ pendingProducers w = [] ∧ drains w = 1 ∧
   pendingProducers (run es w) = [] ∧
   drains (run es w) = drains w ∧
   is_Some (deviceRef (run es w))) ∧
  (noDrain w ∧ noDrain (run es w) ∧
   detections (run es w) = detections w ++ (a_userId <$> delivered es w) ∧
   delivered es w = [Scenario.dave_video] ∧
   detections (run es w) = ["carol"; "bob"; "dave"]).
Proof.
  assert (Hn : noDrain (run Scenario.raced Scenario.start)).
  { unfold noDrain. refine (bool_decide_unpack _ _). vm_compute. exact I. }
  split; [|split].
  - split; [vm_compute; discriminate|]. split; [vm_compute; discriminate|].
    apply (proj1 C10_queue_stays_drained); vm_compute; discriminate.
  - split; [vm_compute; eexists; reflexivity|].
    split; [vm_compute; reflexivity|].
    split; [vm_compute; reflexivity|].
    apply (proj1 (proj2 C10_queue_stays_drained));
      [vm_compute; eexists; reflexivity | vm_compute; reflexivity].
  - split; [exact Hn|].
    cut ((noDrain (run [Notify 4 (NNewProducer Scenario.dave_video);
                        Notify 4 (NRouterCapabilities "caps")]
                     (run Scenario.raced Scenario.start)) ∧
          detections (run [Notify 4 (NNewProducer Scenario.dave_video);
                           Notify 4 (NRouterCapabilities "caps")]
                        (run Scenario.raced Scenario.start))
          = detections (run Scenario.raced Scenario.start)
            ++ (a_userId <$> delivered [Notify 4 (NNewProducer Scenario.dave_video);
                                        Notify 4 (NRouterCapabilities "caps")]
                               (run Scenario.raced Scenario.start)))).
    { intros [H1 H2]. split; [exact H1|]. split; [exact H2|].
      split; vm_compute; reflexivity. }
    apply (proj2 (proj2 C10_queue_stays_drained));
      [vm_compute; eexists; reflexivity | vm_compute; reflexivity | exact Hn].
Defined.
(** ** The creation guard of the receive transport *)

Section Guard.

Implicit Types (pl : gmap nat Cont) (w : World).

Lemma creationOf_handlerOf c a : creationOf c = Some a -> handlerOf c = Some a.
Proof. destruct c; simpl; congruence. Qed.

Lemma handlerOf_None_creationOf c : handlerOf c = None -> creationOf c = None.
Proof. destruct c; simpl; congruence. Qed.

Lemma no_handlers_no_creation pl :
omap handlerOf pl = ∅ -> omap creationOf pl = ∅.
Proof.
intros He. apply map_empty. intros k. rewrite lookup_omap.
destruct (pl !! k) as [c|] eqn:Hk; [|reflexivity]. simpl.
destruct (creationOf c) as [a|] eqn:Hc; [|reflexivity].
apply creationOf_handlerOf in Hc.
assert (Hl : omap handlerOf pl !! k = Some a) by (rewrite lookup_omap, Hk; exact Hc).
rewrite He, lookup_empty in Hl. discriminate.
Qed.

Lemma size_omap_insert_None {B} (f : Cont -> option B) pl k c :
f c = None -> size (omap f (<[k:=c]> pl)) ≤ size (omap f pl).
Proof.
intros Hf. rewrite (omap_insert_None _ _ _ _ Hf), map_size_delete.
destruct (omap f pl !! k); simpl; lia.
Qed.

Lemma size_omap_delete {B} (f : Cont -> option B) pl k :
size (omap f (delete k pl)) ≤ size (omap f pl).
Proof.
rewrite omap_delete, map_size_delete.
destruct (omap f pl !! k); simpl; lia.
Qed.

Lemma size_omap_delete_present {B} (f : Cont -> option B) pl k c b :
pl !! k = Some c -> f c = Some b ->
size (omap f (delete k pl)) = pred (size (omap f pl)).
Proof.
intros Hk Hf. rewrite omap_delete. apply map_size_delete_Some.
exists b. rewrite lookup_omap, Hk. exact Hf.
Qed.

Lemma size_omap_present {B} (f : Cont -> option B) pl k c b :
pl !! k = Some c -> f c = Some b -> 0 < size (omap f pl).
Proof.
intros Hk Hf.
assert (Hne : size (omap f pl) <> 0).
{ apply map_size_ne_0_lookup. exists k, b. rewrite lookup_omap, Hk. exact Hf. }
lia.
Qed.

Lemma omap_empty_insert_None {B} (f : Cont -> option B) pl k c :
f c = None -> omap f pl = ∅ -> omap f (<[k:=c]> pl) = ∅.
Proof.
intros Hf He. rewrite (omap_insert_None _ _ _ _ Hf), He. apply delete_empty.
Qed.

Lemma omap_empty_delete {B} (f : Cont -> option B) pl k :
omap f pl = ∅ -> omap f (delete k pl) = ∅.
Proof. intros He. rewrite omap_delete, He. apply delete_empty. Qed.

(** *** Updates that keep the guard invariant *)

Lemma guard_out o :
recvConstructionOf o = None -> consumeUseOf o = None ->
forall w, GuardInv w -> GuardInv (upd_trace (fun t => t ++ [o]) w).
Proof.
intros Hr Hu w (H1 & H2 & H3). unfold GuardInv, recvConstructions, consumeUses in *.
cbn in *. rewrite !omap_app. cbn. rewrite Hr, Hu, !app_nil_r.
repeat split; assumption.
Qed.

Lemma guard_insert k c :
handlerOf c = None ->
forall w, GuardInv w -> GuardInv (upd_pool <[k:=c]> w).
Proof.
intros Hc w (H1 & H2 & H3).
pose proof (handlerOf_None_creationOf c Hc) as Hc'.
unfold GuardInv, underConstruction, handlersInFlight in *. cbn in *.
pose proof (size_omap_insert_None creationOf (pool w) k c Hc') as Hle.
split; [lia|]. split.
- intros Hf Ht. apply omap_empty_insert_None; auto.
- destruct (consumerTransportRef w); [|exact H3].
destruct H3 as (Hu & Hr & Hf). repeat split; [lia | exact Hr | exact Hf].
Qed.

Lemma guard_delete k :
forall w, GuardInv w -> GuardInv (upd_pool (delete k) w).
Proof.
intros w (H1 & H2 & H3).
unfold GuardInv, underConstruction, handlersInFlight in *. cbn in *.
pose proof (size_omap_delete creationOf (pool w) k) as Hle.
split; [lia|]. split.
- intros Hf Ht. apply omap_empty_delete; auto.
- destruct (consumerTransportRef w); [|exact H3].
destruct H3 as (Hu & Hr & Hf). repeat split; [lia | exact Hr | exact Hf].
Qed.

Ltac guard_leaf :=
first [ frame
  | apply guard_out; reflexivity
  | apply guard_insert; reflexivity
  | apply guard_delete ].


Lemma guard_insert_poll k env a ret w :
  creatingConsumerTransportRef w = true ->
  GuardInv w -> GuardInv (upd_pool <[k:=KPoll env a ret]> w).
Proof.
  intros Hc (H1 & H2 & H3).
  unfold GuardInv, underConstruction, handlersInFlight in *. cbn in *.
  pose proof (size_omap_insert_None creationOf (pool w) k (KPoll env a ret) eq_refl)
    as Hle.
  split; [lia|]. split; [congruence|].
  destruct (consumerTransportRef w); [|exact H3].
  destruct H3 as (Hu & Hr & Hf). repeat split; [lia | exact Hr | exact Hf].
Qed.

Lemma guard_consumeStream producerId remoteUserId :
  preserves GuardInv (consumeStream producerId remoteUserId).
Proof. pres_with guard_leaf. Qed.

Lemma guard_waitForTransport env a ret :
  preserves GuardInv (waitForTransport env a ret).
Proof.
  unfold waitForTransport. apply pres_get_bind. intros w H.
  destruct (creatingConsumerTransportRef w) eqn:Hc.
  - msimpl. apply (guard_insert_poll _ _ _ _ (upd_nextId S w)); [exact Hc | exact H].
  - apply guard_consumeStream, H.
Qed.

(** The guarded branch of [handleNewProducer]: the flag goes up and the
    only outstanding request is the one just sent. *)
Lemma guard_start_creation k c a w o :
  creationOf c = Some a ->
  recvConstructionOf o = None -> consumeUseOf o = None ->
  creatingConsumerTransportRef w = false -> consumerTransportRef w = None ->
  GuardInv w ->
  GuardInv (upd_trace (fun t => t ++ [o])
              (upd_pool <[k:=c]>
                 (upd_nextId S
                    (upd_creatingConsumerTransportRef (fun _ => true) w)))).
Proof.
  intros Hc Hr Hu Hf Ht (H1 & H2 & H3).
  pose proof (no_handlers_no_creation _ (H2 Hf Ht)) as Hnone.
  unfold GuardInv, underConstruction, handlersInFlight, recvConstructions,
    consumeUses in *.
  cbn in *. rewrite Ht in *. rewrite !omap_app. cbn. rewrite Hr, Hu, !app_nil_r.
  split; [|split; [congruence | exact H3]].
  rewrite (omap_insert_Some _ _ _ _ _ Hc), Hnone.
  rewrite map_size_insert, lookup_empty, map_size_empty. simpl. lia.
Qed.

Lemma guard_flag_up w :
  GuardInv w -> GuardInv (upd_creatingConsumerTransportRef (fun _ => true) w).
Proof.
  intros (H1 & H2 & H3). split; [exact H1|]. split; [|exact H3].
  cbn. congruence.
Qed.

Lemma guard_handleNewProducer env a ret :
  preserves GuardInv (handleNewProducer env a ret).
Proof.
  unfold handleNewProducer. apply pres_bind; [pres_with guard_leaf|]. intros _.
  destruct (String.eqb (a_userId a) (e_userId env)); [pres_with guard_leaf|].
  apply pres_get_bind. intros w H.
  destruct (negb (bool_decide (is_Some (consumerTransportRef w)))
            && negb (creatingConsumerTransportRef w)) eqn:Hg.
  - apply andb_true_iff in Hg as [Ht Hf].
    apply negb_true_iff in Ht, Hf. apply bool_decide_eq_false in Ht.
    assert (Hnone : consumerTransportRef w = None).
    { destruct (consumerTransportRef w); [exfalso; apply Ht; eexists; reflexivity|].
      reflexivity. }
    unfold createConsumerTransport. msimpl.
    destruct (socketRef w) as [sid|]; msimpl.
    + apply guard_start_creation with (a := a); auto.
    + apply guard_flag_up, H.
  - unfold mbind at 1, M_bind, bindM. cbn.
    apply guard_waitForTransport, H.
Qed.

Lemma guard_drainLoop env arr producers idx :
  preserves GuardInv (drainLoop env arr idx producers).
Proof.
  revert idx. induction producers as [|a producers IH]; intros idx; simpl.
  - pres_with guard_leaf.
  - apply pres_bind; [apply guard_handleNewProducer | intros _; apply IH].
Qed.

(** [consume(..)] is called on the transport the ref holds. *)
Lemma guard_consume_use t response w :
  consumerTransportRef w = Some t ->
  GuardInv w -> GuardInv (upd_trace (fun tr => tr ++ [OConsume (t_obj t) response]) w).
Proof.
  intros Ht (H1 & H2 & H3).
  unfold GuardInv, recvConstructions, consumeUses in *. cbn in *.
  rewrite Ht in *. rewrite !omap_app. cbn. rewrite app_nil_r.
  destruct H3 as (Hu & Hr & Hf).
  repeat split; try assumption. apply Forall_app. split; [exact Hf|].
  constructor; [reflexivity | constructor].
Qed.

Lemma guard_consume_ack remoteUserId r m :
  consume_ack remoteUserId r = Some m -> preserves GuardInv m.
Proof.
  intros Hm. destruct r; simpl in Hm; simplify_eq; [pres_with guard_leaf|].
  apply pres_bind; [pres_with guard_leaf|]. intros _.
  apply pres_get_bind. intros w H.
  destruct (consumerTransportRef w) as [t|] eqn:Ht; [|exact H].
  msimpl. apply guard_insert; [reflexivity|].
  apply (guard_consume_use t r (upd_nextId S w)); [exact Ht | exact H].
Qed.

Lemma guard_closeConsumerTransport : preserves GuardInv closeConsumerTransport.
Proof.
  unfold closeConsumerTransport. apply pres_get_bind. intros w H.
  destruct (consumerTransportRef w) as [t|] eqn:Ht; [|exact H].
  msimpl. apply guard_out; [reflexivity | reflexivity |].
  destruct H as (H1 & H2 & H3). unfold GuardInv in *. cbn. rewrite Ht in H3.
  split; [exact H1|]. split; [congruence | exact H3].
Qed.

Hint Resolve guard_waitForTransport guard_handleNewProducer guard_drainLoop
  guard_closeConsumerTransport guard_consumeStream : pres.

Lemma bind_Ok {A B} (m1 : M A) (f : A -> M B) w w1 a :
  m1 w = (w1, Ok a) -> mbind f m1 w = f a w1.
Proof. intros H. unfold mbind, M_bind, bindM. rewrite H. reflexivity. Qed.

Lemma bind_Throw {A B} (m1 : M A) (f : A -> M B) w w1 e :
  m1 w = (w1, Throw e) -> mbind f m1 w = (w1, Throw e).
Proof. intros H. unfold mbind, M_bind, bindM. rewrite H. reflexivity. Qed.

Lemma exec_bind_Ok {A} (m1 : M A) (f : A -> M unit) w w1 a :
  m1 w = (w1, Ok a) -> exec (mbind f m1) w = exec (f a) w1.
Proof. intros H. unfold exec. rewrite (bind_Ok _ _ _ _ _ H). reflexivity. Qed.

Lemma exec_bind_Throw {A} (m1 : M A) (f : A -> M unit) w w1 e :
  m1 w = (w1, Throw e) ->
  exec (mbind f m1) w = upd_trace (fun t => t ++ [OUnhandled e]) w1.
Proof. intros H. unfold exec. rewrite (bind_Throw _ _ _ _ _ H). reflexivity. Qed.



(** *** Once the transport is cached it stays cached *)

Ltac ts_leaf := first [ frame | intros; eexists; reflexivity ].

Lemma ts_handleNewProducer env a ret :
  preserves TransportSet (handleNewProducer env a ret).
Proof. pres_with ts_leaf. Qed.

Lemma ts_drainLoop env arr producers idx :
  preserves TransportSet (drainLoop env arr idx producers).
Proof.
  revert idx. induction producers as [|a producers IH]; intros idx; simpl.
  - pres_with ts_leaf.
  - apply pres_bind; [apply ts_handleNewProducer | intros _; apply IH].
Qed.

Lemma ts_waitForTransport env a ret :
  preserves TransportSet (waitForTransport env a ret).
Proof. pres_with ts_leaf. Qed.

Hint Resolve ts_drainLoop : pres.

Lemma ts_finish env ret : preserves TransportSet (finish env ret).
Proof. pres_with ts_leaf. Qed.

Lemma guard_finish env ret : preserves GuardInv (finish env ret).
Proof. pres_with guard_leaf. Qed.

Lemma guard_flag_down w :
  TransportSet w -> GuardInv w ->
  GuardInv (upd_creatingConsumerTransportRef (fun _ => false) w).
Proof.
  intros [t Ht] (H1 & H2 & H3). split; [exact H1|]. split; [|exact H3].
  cbn. congruence.
Qed.

(** The handler that asked for the transport, from the moment its request
    has been answered with success. *)
Lemma guard_created env a ret w :
  TransportSet w -> GuardInv w ->
  GuardInv (exec (handleNewProducer_created env a ret;; finish env ret) w).
Proof.
  intros Ht H.
  assert (Hpres : preserves (fun w => GuardInv w ∧ TransportSet w)
                    (handleNewProducer_created env a ret;; finish env ret)).
  { apply pres_bind; [|intros _; apply pres_and; [apply guard_finish | apply ts_finish]].
    unfold handleNewProducer_created. apply pres_bind.
    - apply pres_modify. intros w' [H1 H2]. split; [apply guard_flag_down; assumption|].
      exact H2.
    - intros _. apply pres_and; [apply guard_waitForTransport | apply ts_waitForTransport]. }
  apply (pres_exec (fun w => GuardInv w ∧ TransportSet w)); [| exact Hpres | split; assumption].
  intros e w' [H1 H2]. split; [|exact H2].
  apply guard_out; [reflexivity | reflexivity | exact H1].
Qed.

(** *** The callback of the transport request *)

Lemma callback_created env p d w :
  deviceRef w = Some d -> d_loaded d = true ->
  (log LConsumerTransportCreated;;
   t ← newTransport p;
   out (OCreateRecvTransport (t_obj t) (t_id t) (broadcaster_ice (e_connInfo env)));;
   modify (upd_consumerTransportRef (fun _ => Some t))) w
  = (createdState env p w, Ok tt).
Proof.
  intros Hd Hl. unfold newTransport. msimpl. rewrite Hd. cbn. rewrite Hl. reflexivity.
Qed.

Lemma callback_throws env p w :
  (forall d, deviceRef w = Some d -> d_loaded d = false) ->
  exists e,
    (log LConsumerTransportCreated;;
     t ← newTransport p;
     out (OCreateRecvTransport (t_obj t) (t_id t) (broadcaster_ice (e_connInfo env)));;
     modify (upd_consumerTransportRef (fun _ => Some t))) w
    = (upd_logs (fun l => l ++ [LConsumerTransportCreated]) w, Throw e).
Proof.
  intros Hd. unfold newTransport. msimpl.
  destruct (deviceRef w) as [d|]; [|eexists; reflexivity].
  cbn. rewrite (Hd d eq_refl). eexists; reflexivity.
Qed.

Lemma guard_createdState env p w :
  consumerTransportRef w = None -> underConstruction w = 0 ->
  GuardInv w -> GuardInv (createdState env p w).
Proof.
  intros Ht Hzero (G1 & G2 & G3).
  unfold GuardInv, createdState, underConstruction, handlersInFlight,
    recvConstructions, consumeUses in *.
  cbn in *. rewrite Ht in G3. destruct G3 as (Gr & Gu).
  rewrite !omap_app, Gr, Gu. cbn.
  split; [exact G1|]. split; [congruence|].
  repeat split; [exact Hzero | constructor].
Qed.

(** The acknowledgement of the transport request. *)
Lemma guard_resume_creation k env a ret r m w :
  pool w !! k = Some (KCreateConsumerAck env a ret) ->
  resume (KCreateConsumerAck env a ret) r = Some m ->
  GuardInv w -> GuardInv (exec m (upd_pool (delete k) w)).
Proof.
  intros Hk Hr H.
  pose proof (guard_delete k w H) as H0.
  assert (Hpos : 0 < underConstruction w)
    by (eapply size_omap_present; [exact Hk | reflexivity]).
  assert (Ht : consumerTransportRef (upd_pool (delete k) w) = None).
  { destruct H as (_ & _ & H3). cbn. destruct (consumerTransportRef w); [|reflexivity].
    destruct H3 as (Hu & _). lia. }
  assert (Hzero : underConstruction (upd_pool (delete k) w) = 0).
  { unfold underConstruction in *. cbn.
    rewrite (size_omap_delete_present creationOf _ _ _ a Hk eq_refl).
    destruct H as (H1 & _). unfold underConstruction in H1. lia. }
  revert H0 Ht Hzero. generalize (upd_pool (delete k) w). clear H Hk Hpos w.
  intros w H0 Ht Hzero.
  simpl in Hr. destruct r; simpl in Hr; simplify_eq.
  - erewrite exec_bind_Throw by reflexivity.
    apply guard_out; [reflexivity | reflexivity | exact H0].
  - destruct (deviceRef w) as [d|] eqn:Hd.
    2:{ destruct (callback_throws env p w) as [e He]; [congruence|].
        rewrite (exec_bind_Throw _ _ _ _ _ He).
        apply guard_out; [reflexivity | reflexivity | exact H0]. }
    destruct (d_loaded d) eqn:Hl.
    2:{ destruct (callback_throws env p w) as [e He]; [congruence|].
        rewrite (exec_bind_Throw _ _ _ _ _ He).
        apply guard_out; [reflexivity | reflexivity | exact H0]. }
    pose proof (callback_created env p d w Hd Hl) as Hcb.
    rewrite (exec_bind_Ok _ _ _ _ _ Hcb).
    apply guard_created; [eexists; reflexivity|].
    apply guard_createdState; assumption.
Qed.

Lemma guard_resume_other c r m :
  resume c r = Some m -> creationOf c = None -> preserves GuardInv m.
Proof.
  intros Hr Hc.
  destruct c; simpl in Hr; try discriminate Hc;
    try (eapply guard_consume_ack; exact Hr);
    unfold loaded, createProducerTransport_ack, produced_video, produced_audio,
      consume_made in Hr;
    destruct r; simplify_eq; pres_with guard_leaf.
Qed.

Lemma guard_unhandled e w :
  GuardInv w -> GuardInv (upd_trace (fun t => t ++ [OUnhandled e]) w).
Proof. apply guard_out; reflexivity. Qed.

(** Every turn of the event loop keeps the guard invariant. *)
Lemma guard_step e w : GuardInv w -> GuardInv (step e w).
Proof.
  intros H. destruct e as [s0|s0| | | | |sid nt|k r]; simpl.
  - destruct (isConnected w); exact H.
  - destruct (isConnected w); exact H.
  - destruct (isConnected w); [exact H|].
    apply pres_exec; [apply guard_unhandled | pres_with guard_leaf | exact H].
  - destruct (isConnected w); [|exact H].
    apply pres_exec; [apply guard_unhandled | pres_with guard_leaf | exact H].
  - destruct (negb (isConnected w) || isBroadcasting w); [exact H|].
    apply pres_exec; [apply guard_unhandled | pres_with guard_leaf | exact H].
  - destruct (isBroadcasting w); [|exact H].
    apply pres_exec; [apply guard_unhandled | pres_with guard_leaf | exact H].
  - destruct (sockets w !! sid) as [s|]; [|exact H].
    destruct (s_open s); [|exact H].
    apply pres_exec; [apply guard_unhandled | | exact H].
    destruct nt; pres_with guard_leaf.
  - destruct (pool w !! k) as [c|] eqn:Hk; [|exact H].
    destruct (resume c r) as [m|] eqn:Hr; [|exact H].
    destruct (creationOf c) as [a|] eqn:Hc.
    + destruct c; try discriminate Hc.
      eapply guard_resume_creation; eassumption.
    + apply pres_exec; [apply guard_unhandled | | apply guard_delete, H].
      eapply guard_resume_other; eassumption.
Qed.

Lemma guard_initial uid : GuardInv (initial uid).
Proof.
  unfold GuardInv, underConstruction, handlersInFlight. cbn.
  rewrite !omap_empty, map_size_empty. repeat split; try reflexivity. lia.
Qed.

Lemma guard_run es w : GuardInv w -> GuardInv (run es w).
Proof. apply run_invariant. intros e w'. apply guard_step. Qed.

(** What the invariant says in numbers: at most one receive transport is
    under construction or constructed. *)
Lemma guard_at_most_one w :
  GuardInv w -> constructed w + underConstruction w ≤ 1.
Proof.
  intros (H1 & _ & H3). unfold constructed.
  destruct (consumerTransportRef w).
  - destruct H3 as (Hu & Hr & _). rewrite Hu, Hr. simpl. lia.
  - destruct H3 as (Hr & _). rewrite Hr. simpl. lia.
Qed.

End Guard.

(** ** A refused transport request *)

Section Refused.

Variable reqs : list nat.

Lemma stuck_out o :
createRequestOf o = None ->
forall w, Stuck reqs w -> Stuck reqs (upd_trace (fun t => t ++ [o]) w).
Proof.
intros Ho w (H1 & H2 & H3 & H4). repeat split; try assumption.
unfold createRequests in *. cbn. rewrite omap_app. cbn. rewrite Ho, app_nil_r.
exact H4.
Qed.

Lemma stuck_insert k c :
creationOf c = None ->
forall w, Stuck reqs w -> Stuck reqs (upd_pool <[k:=c]> w).
Proof.
intros Hc w (H1 & H2 & H3 & H4). repeat split; try assumption.
unfold underConstruction in *. cbn.
pose proof (size_omap_insert_None creationOf (pool w) k c Hc). lia.
Qed.

Lemma stuck_delete k :
forall w, Stuck reqs w -> Stuck reqs (upd_pool (delete k) w).
Proof.
intros w (H1 & H2 & H3 & H4). repeat split; try assumption.
unfold underConstruction in *. cbn.
pose proof (size_omap_delete creationOf (pool w) k). lia.
Qed.

Ltac stuck_leaf :=
first [ frame
  | apply stuck_out; reflexivity
  | apply stuck_insert; reflexivity
  | apply stuck_delete ].

Lemma stuck_waitForTransport env a ret :
preserves (Stuck reqs) (waitForTransport env a ret).
Proof. pres_with stuck_leaf. Qed.

(** The flag is up, so the guard fails and the handler goes to its loop. *)
Lemma stuck_handleNewProducer env a ret :
preserves (Stuck reqs) (handleNewProducer env a ret).
Proof.
unfold handleNewProducer. apply pres_bind; [pres_with stuck_leaf|]. intros _.
destruct (String.eqb (a_userId a) (e_userId env)); [pres_with stuck_leaf|].
apply pres_get_bind. intros w H.
pose proof H as (Hc & _). rewrite Hc, andb_false_r.
unfold mbind at 1, M_bind, bindM. cbn.
apply stuck_waitForTransport, H.
Qed.

Lemma stuck_drainLoop env arr producers idx :
preserves (Stuck reqs) (drainLoop env arr idx producers).
Proof.
revert idx. induction producers as [|a producers IH]; intros idx; simpl.
- pres_with stuck_leaf.
- apply pres_bind; [apply stuck_handleNewProducer | intros _; apply IH].
Qed.

Lemma stuck_closeConsumerTransport : preserves (Stuck reqs) closeConsumerTransport.
Proof.
unfold closeConsumerTransport. apply pres_get_bind. intros w H.
pose proof H as (_ & Ht & _). rewrite Ht. exact H.
Qed.

Hint Resolve stuck_waitForTransport stuck_handleNewProducer stuck_drainLoop
stuck_closeConsumerTransport : pres.

Lemma stuck_resume c r m :
resume c r = Some m -> creationOf c = None -> preserves (Stuck reqs) m.
Proof.
intros Hr Hc.
destruct c; simpl in Hr; try discriminate Hc;
unfold loaded, createProducerTransport_ack, produced_video, produced_audio,
consume_ack, consume_made in Hr;
destruct r; simplify_eq; pres_with stuck_leaf.
Qed.

Lemma stuck_unhandled e w :
Stuck reqs w -> Stuck reqs (upd_trace (fun t => t ++ [OUnhandled e]) w).
Proof. apply stuck_out. reflexivity. Qed.

Lemma stuck_step e w : Stuck reqs w -> Stuck reqs (step e w).
Proof.
intros H. destruct e as [s0|s0| | | | |sid nt|k r]; simpl.
- destruct (isConnected w); exact H.
- destruct (isConnected w); exact H.
- destruct (isConnected w); [exact H|].
apply pres_exec; [apply stuck_unhandled | pres_with stuck_leaf | exact H].
- destruct (isConnected w); [|exact H].
apply pres_exec; [apply stuck_unhandled | pres_with stuck_leaf | exact H].
- destruct (negb (isConnected w) || isBroadcasting w); [exact H|].
apply pres_exec; [apply stuck_unhandled | pres_with stuck_leaf | exact H].
- destruct (isBroadcasting w); [|exact H].
apply pres_exec; [apply stuck_unhandled | pres_with stuck_leaf | exact H].
- destruct (sockets w !! sid) as [s|]; [|exact H].
destruct (s_open s); [|exact H].
apply pres_exec; [apply stuck_unhandled | | exact H].
destruct nt; pres_with stuck_leaf.
- destruct (pool w !! k) as [c|] eqn:Hk; [|exact H].
destruct (resume c r) as [m|] eqn:Hr; [|exact H].
destruct (creationOf c) as [a|] eqn:Hc.
+ exfalso. pose proof (size_omap_present creationOf _ _ _ _ Hk Hc) as Hpos.
destruct H as (_ & _ & Hu & _). unfold underConstruction in Hu. lia.
+ apply pres_exec; [apply stuck_unhandled | | apply stuck_delete, H].
eapply stuck_resume; eassumption.
Qed.

End Refused.

(** When the acknowledgement of the transport request carries an error, the
    handler that asked is rejected and the flag it raised stays up. *)
Lemma refused_is_stuck k env a ret e w :
  GuardInv w ->
  pool w !! k = Some (KCreateConsumerAck env a ret) ->
  let w' := step (Resume k (RAckError e)) w in
  Stuck (createRequests w) w' ∧ trace w' = trace w ++ [OUnhandled e].
Proof.
  intros H Hk. simpl. rewrite Hk. simpl.
  assert (Hpos : 0 < underConstruction w)
    by (eapply size_omap_present; [exact Hk | reflexivity]).
  assert (Ht : consumerTransportRef w = None).
  { destruct H as (_ & _ & H3). destruct (consumerTransportRef w); [|reflexivity].
    destruct H3 as (Hu & _). lia. }
  assert (Hc : creatingConsumerTransportRef w = true).
  { destruct (creatingConsumerTransportRef w) eqn:Hc; [reflexivity|].
    destruct H as (_ & H2 & _). specialize (H2 Hc Ht).
    apply no_handlers_no_creation in H2.
    unfold underConstruction in Hpos. rewrite H2, map_size_empty in Hpos. lia. }
  erewrite exec_bind_Throw by reflexivity.
  split; [|reflexivity].
  repeat split; try assumption.
  - unfold underConstruction in *. cbn.
    rewrite (size_omap_delete_present creationOf _ _ _ a Hk eq_refl).
    destruct H as (H1 & _). unfold underConstruction in H1. lia.
  - unfold createRequests. cbn. rewrite omap_app. cbn. apply app_nil_r.
Qed.

(** C2 on the code: in any state the component can reach, let the
    acknowledgement of the request for a receive transport carry an error.
    The failure reaches the runtime as an unhandled rejection and no
    transport is cached, but the flag is not cleared: after every further
    sequence of events it is still set, no transport is cached, none was
    constructed, and no second request for one has been sent. *)
Theorem C2_refusal_leaves_flag_set (uid : string) (pre es : list Event) (k : nat)
    (env : Env) (a : Announcement) (ret : Ret) (e : string) :
  let w := run pre (initial uid) in
  pool w !! k = Some (KCreateConsumerAck env a ret) ->
  let w1 := step (Resume k (RAckError e)) w in
  let w' := run es w1 in
  trace w1 = trace w ++ [OUnhandled e] ∧
  creatingConsumerTransportRef w' = true ∧
  consumerTransportRef w' = None ∧
  constructed w' = 0 ∧
  createRequests w' = createRequests w.
Proof.
  intros w Hk w1 w'.
  assert (Hg : GuardInv w) by apply guard_run, guard_initial.
  destruct (refused_is_stuck k env a ret e w Hg Hk) as [Hs Htr].
  split; [exact Htr|].
  assert (Hs' : Stuck (createRequests w) w').
  { apply (run_invariant (Stuck (createRequests w)));
      [intros e0 w0; apply stuck_step | exact Hs]. }
  assert (Hg' : GuardInv w') by apply guard_run, guard_step, Hg.
  destruct Hs' as (H1 & H2 & _ & H4).
  repeat split; try assumption.
  destruct Hg' as (_ & _ & G3). rewrite H2 in G3. unfold constructed.
  destruct G3 as [-> _]. reflexivity.
Qed.

(** The theorem in the session of [Scenario.refused]: the request made for
    [bob] is refused; [carol] is announced afterwards and her handler polls
    the flag twice. *)
Lemma C2_refusal_leaves_flag_set_witness :
  let pre := Scenario.negotiated ++ [Notify 4 (NNewProducer Scenario.bob_video)] in
  let es := [Notify 4 (NNewProducer Scenario.carol_audio);
             Resume 12 RUnit; Resume 13 RUnit] in
  let w := run pre Scenario.start in
  let w1 := step (Resume 11 (RAckError "no transport")) w in
  let w' := run es w1 in
  pool w !! 11 = Some (KCreateConsumerAck (mkEnv "me" Scenario.info)
                         Scenario.bob_video RetLive) ∧
  (trace w1 = trace w ++ [OUnhandled "no transport"] ∧
   creatingConsumerTransportRef w' = true ∧
   consumerTransportRef w' = None ∧
   constructed w' = 0 ∧
   createRequests w' = createRequests w) ∧
  createRequests w = [4] ∧ consumeRequests w' = [] ∧
  handlersInFlight w' = {[ 14 := Scenario.carol_audio ]}.
Proof.
  split; [vm_compute; reflexivity|].
  split; [|vm_compute; repeat split; reflexivity].
  apply (C2_refusal_leaves_flag_set "me"
           (Scenario.negotiated ++ [Notify 4 (NNewProducer Scenario.bob_video)])
           _ 11 (mkEnv "me" Scenario.info) Scenario.bob_video RetLive).
  vm_compute; reflexivity.
Defined.

(** ** Identities of suspended handlers are fresh *)

Section Fresh.

Lemma fresh_bump w : FreshPool w -> FreshPool (upd_nextId S w).
Proof.
unfold FreshPool. cbn. intros H. eapply map_Forall_impl; [exact H|].
cbn. intros k _ Hk. lia.
Qed.

Lemma fresh_delete k w : FreshPool w -> FreshPool (upd_pool (delete k) w).
Proof. unfold FreshPool. cbn. apply map_Forall_delete. Qed.

Lemma fresh_insert_next c w :
FreshPool w -> FreshPool (upd_pool <[nextId w := c]> (upd_nextId S w)).
Proof.
intros H. unfold FreshPool in *. cbn. apply map_Forall_insert_2; [lia|].
eapply map_Forall_impl; [exact H|]. cbn. intros k _ Hk. lia.
Qed.


Ltac fresh_leaf := first [ frame | apply fresh_bump | apply fresh_delete ].

Lemma fresh_await c : preserves FreshPool (await c).
Proof. intros w H. unfold await. msimpl. apply fresh_insert_next, H. Qed.

Lemma fresh_emit msg callback : preserves FreshPool (emit msg callback).
Proof.
intros w H. unfold emit. msimpl.
destruct (socketRef w); [|exact H].
destruct callback; msimpl; [|exact H].
apply (fresh_insert_next _ w), H.
Qed.

Hint Resolve fresh_await fresh_emit : pres.

Lemma fresh_handleNewProducer env a ret :
preserves FreshPool (handleNewProducer env a ret).
Proof. pres_with fresh_leaf. Qed.

Lemma fresh_drainLoop env arr producers idx :
preserves FreshPool (drainLoop env arr idx producers).
Proof.
revert idx. induction producers as [|a producers IH]; intros idx; simpl.
- pres_with fresh_leaf.
- apply pres_bind; [apply fresh_handleNewProducer | intros _; apply IH].
Qed.

Hint Resolve fresh_drainLoop : pres.





End Fresh.

(** ** Announcements handled concurrently *)

Section Concurrency.

(** *** What one call of [handleNewProducer] does *)


Lemma waitForTransport_poll env a ret w :
creatingConsumerTransportRef w = true ->
waitForTransport env a ret w = (pollState env a ret w, Suspend).
Proof. intros Hc. unfold waitForTransport. msimpl. rewrite Hc. reflexivity. Qed.




(** *** The handlers in flight under updates of the pool *)







(** *** The account under the states a handler leaves behind *)

Section Account.

Variables (sid : nat) (env : Env) (rq0 : list string).







End Account.

(** *** One turn of a concurrent run *)

Section Turn.

Variables (sid : nat) (env : Env) (rq0 held ids : list string).









End Turn.

Lemma exec_bind_Suspend {A} (m1 : M A) (f : A -> M unit) w w1 :
  m1 w = (w1, Suspend) -> exec (mbind f m1) w = w1.
Proof.
  intros H. unfold exec, mbind, M_bind, bindM. rewrite H. reflexivity.
Qed.








(** *** A whole concurrent run *)





End Concurrency.



(** * Further properties *)

(** ** The log *)

Section Log.

Variable l0 : list LogMsg.

Lemma logkept_log m w : LogKept l0 w -> LogKept l0 (upd_logs (fun l => l ++ [m]) w).
Proof. unfold LogKept. cbn. intros H. apply prefix_app_r, H. Qed.

Ltac log_leaf := first [ frame | apply logkept_log ].

Lemma logkept_handleNewProducer env a ret :
  preserves (LogKept l0) (handleNewProducer env a ret).
Proof. pres_with log_leaf. Qed.

Lemma logkept_drainLoop env arr producers idx :
  preserves (LogKept l0) (drainLoop env arr idx producers).
Proof.
  revert idx. induction producers as [|a producers IH]; intros idx; simpl.
  - pres_with log_leaf.
  - apply pres_bind; [apply logkept_handleNewProducer | intros _; apply IH].
Qed.

Hint Resolve logkept_drainLoop : pres.

Lemma logkept_step e w : LogKept l0 w -> LogKept l0 (step e w).
Proof.
  apply step_preserves; try (intros; assumption); try solve [pres_with log_leaf].
  - intros env n. destruct n; pres_with log_leaf.
  - intros c r m Hr. resume_cases Hr c r; pres_with log_leaf.
Qed.

End Log.

Lemma logs_only_grow_gen es w : logs w `prefix_of` logs (run es w).
Proof.
  apply (run_invariant (LogKept (logs w))); [apply logkept_step | unfold LogKept; reflexivity].
Qed.
(** ** The producer set *)

Section Producers.

Lemma kinds_set kind p w :
  kind = "video" ∨ kind = "audio" ->
  ProducerKinds w -> ProducerKinds (upd_producersRef <[ kind := p ]> w).
Proof.
  intros Hk H key. cbn. destruct (decide (key = kind)) as [->|Hne].
  - intros _. exact Hk.
  - rewrite lookup_insert_ne by congruence. apply H.
Qed.

Lemma kinds_clear w : ProducerKinds w -> ProducerKinds (upd_producersRef (fun _ => ∅) w).
Proof. intros _ key. cbn. rewrite lookup_empty. intros [x Hx]. discriminate. Qed.

Ltac kinds_leaf :=
  first [ frame
        | intros ? ?; apply kinds_set; [left; reflexivity | assumption]
        | intros ? ?; apply kinds_set; [right; reflexivity | assumption]
        | apply kinds_clear ].

Lemma kinds_handleNewProducer env a ret :
  preserves ProducerKinds (handleNewProducer env a ret).
Proof. pres_with kinds_leaf. Qed.

Lemma kinds_drainLoop env arr producers idx :
  preserves ProducerKinds (drainLoop env arr idx producers).
Proof.
  revert idx. induction producers as [|a producers IH]; intros idx; simpl.
  - pres_with kinds_leaf.
  - apply pres_bind; [apply kinds_handleNewProducer | intros _; apply IH].
Qed.

Hint Resolve kinds_drainLoop : pres.

Lemma kinds_step e w : ProducerKinds w -> ProducerKinds (step e w).
Proof.
  apply step_preserves; try (intros; assumption); try solve [pres_with kinds_leaf].
  - intros env n. destruct n; pres_with kinds_leaf.
  - intros c r m Hr. resume_cases Hr c r; pres_with kinds_leaf.
Qed.

Lemma kinds_initial uid : ProducerKinds (initial uid).
Proof. intros key. cbn. rewrite lookup_empty. intros [x Hx]. discriminate. Qed.

Lemma kinds_size (m : gmap string Producer) :
  (forall key, is_Some (m !! key) -> key = "video" ∨ key = "audio") -> size m ≤ 2.
Proof.
  intros H.
  assert (Hsub : dom m ⊆ ({["video"; "audio"]} : gset string)).
  { intros key Hin. apply elem_of_dom in Hin. apply H in Hin.
    set_solver. }
  rewrite <- size_dom. apply subseteq_size in Hsub.
  rewrite size_union in Hsub by set_solver.
  rewrite !size_singleton in Hsub. exact Hsub.
Qed.

End Producers.

(** ** The participant map *)

Section Participants.

Lemma addTrack_spec t stream :
  addTrack t stream <> [] ∧
  (forall n, tr_obj t < n -> Forall (fun t' => tr_obj t' < n) stream ->
             Forall (fun t' => tr_obj t' < n) (addTrack t stream)).
Proof.
  unfold addTrack.
  destruct (existsb (fun t' => tr_obj t' =? tr_obj t) stream) eqn:He.
  - split; [|intros; assumption].
    intros ->. discriminate He.
  - split; [destruct stream; discriminate|].
    intros n Hn Hf. apply Forall_app. split; [exact Hf|].
    constructor; [exact Hn | constructor].
Qed.

(** What [addConsumerTrack] stores: the entry it found or made, with the
    track added to its stream. *)
Lemma addConsumerTrack_entry u resp t prev :
  exists p',
    addConsumerTrack u resp t prev = <[ u := p' ]> prev ∧
    p_userId p' = p_userId (entryBefore u prev) ∧
    p_stream p' = addTrack t (p_stream (entryBefore u prev)).
Proof.
  unfold addConsumerTrack, entryBefore.
  destruct (String.eqb (cr_kind resp) "video");
    [|destruct (String.eqb (cr_kind resp) "audio")];
    eexists; (split; [reflexivity|]); split; reflexivity.
Qed.

Lemma wellformed_bump w : WellFormed w -> WellFormed (upd_nextId S w).
Proof.
  unfold WellFormed. cbn. intros H. eapply map_Forall_impl; [exact H|].
  cbn. intros u p (H1 & H2 & H3). repeat split; try assumption.
  eapply Forall_impl; [exact H3|]. cbn. intros; lia.
Qed.

Lemma wellformed_clear w : WellFormed w -> WellFormed (upd_participants (fun _ => ∅) w).
Proof. intros _. unfold WellFormed. cbn. apply map_Forall_empty. Qed.

Lemma wellformed_delete u w :
  WellFormed w -> WellFormed (upd_participants (delete u) w).
Proof. unfold WellFormed. cbn. apply map_Forall_delete. Qed.

Lemma wellformed_add u resp f g w :
  WellFormed w ->
  WellFormed
    (upd_participants
       (addConsumerTrack u resp (mkTrack (nextId w) (cr_kind resp)))
       (upd_consumersRef f (upd_nextId S (upd_pool g w)))).
Proof.
  intros H. unfold WellFormed. cbn.
  destruct (addConsumerTrack_entry u resp (mkTrack (nextId w) (cr_kind resp))
              (participants w)) as (p' & -> & Hu & Hs).
  assert (Hold : p_userId (entryBefore u (participants w)) = u ∧
                 Forall (fun t => tr_obj t < S (nextId w))
                   (p_stream (entryBefore u (participants w)))).
  { unfold entryBefore. destruct (participants w !! u) as [p|] eqn:Hp; cbn.
    - apply H in Hp as (H1 & _ & H3). split; [exact H1|].
      eapply Forall_impl; [exact H3|]. cbn. intros; lia.
    - split; [reflexivity | constructor]. }
  destruct Hold as [Hold1 Hold2].
  apply map_Forall_insert_2.
  - rewrite Hu, Hs. split; [exact Hold1|].
    destruct (addTrack_spec (mkTrack (nextId w) (cr_kind resp))
                (p_stream (entryBefore u (participants w)))) as [Hne Hlt].
    split; [exact Hne|]. apply Hlt; [cbn; lia | exact Hold2].
  - eapply map_Forall_impl; [exact H|]. cbn.
    intros u' p (H1 & H2 & H3). repeat split; try assumption.
    eapply Forall_impl; [exact H3|]. cbn. intros; lia.
Qed.

Ltac wf_leaf :=
  first [ frame | apply wellformed_bump | apply wellformed_clear
        | apply wellformed_delete ].

Lemma wellformed_handleNewProducer env a ret :
  preserves WellFormed (handleNewProducer env a ret).
Proof. pres_with wf_leaf. Qed.

Lemma wellformed_drainLoop env arr producers idx :
  preserves WellFormed (drainLoop env arr idx producers).
Proof.
  revert idx. induction producers as [|a producers IH]; intros idx; simpl.
  - pres_with wf_leaf.
  - apply pres_bind; [apply wellformed_handleNewProducer | intros _; apply IH].
Qed.

Hint Resolve wellformed_drainLoop : pres.

Lemma wellformed_consume_made resp u :
  preserves WellFormed
    (tr ← freshId;
     let consumer :=
       mkConsumer (cr_id resp) (cr_producerId resp) (cr_kind resp)
         (mkTrack tr (cr_kind resp)) in
     modify (upd_consumersRef <[ c_id consumer := consumer ]>);;
     modify (upd_participants (addConsumerTrack u resp (c_track consumer)));;
     log (LSuccessfullyConsuming (cr_kind resp) u)).
Proof.
  intros w H. msimpl.
  exact (wellformed_add u resp _ (fun x => x) w H).
Qed.

Lemma wellformed_step e w : WellFormed w -> WellFormed (step e w).
Proof.
  apply step_preserves; try (intros; assumption); try solve [pres_with wf_leaf].
  - intros env n. destruct n; pres_with wf_leaf.
  - intros c r m Hr. destruct c.
    11: { simpl in Hr. unfold consume_made in Hr. destruct r; simplify_eq;
          [apply wellformed_consume_made | pres_with wf_leaf]. }
    all: resume_cases_of Hr r; pres_with wf_leaf.
Qed.

Lemma wellformed_initial uid : WellFormed (initial uid).
Proof. unfold WellFormed. cbn. apply map_Forall_empty. Qed.

End Participants.
(** ** The connect response *)

Section Connected.

Lemma connected_insert k c w :
  startHasInfo c -> ConnectedInv w -> ConnectedInv (upd_pool <[ k := c ]> w).
Proof.
  intros Hc [H1 H2]. split; [exact H1|]. cbn.
  apply map_Forall_insert_2; assumption.
Qed.

Lemma connected_delete k w : ConnectedInv w -> ConnectedInv (upd_pool (delete k) w).
Proof. intros [H1 H2]. split; [exact H1|]. cbn. apply map_Forall_delete, H2. Qed.

Ltac connected_leaf :=
  first [ frame
        | intros ? ?; apply connected_insert; [exact I | assumption]
        | apply connected_delete ].

Lemma connected_handleNewProducer env a ret :
  preserves ConnectedInv (handleNewProducer env a ret).
Proof. pres_with connected_leaf. Qed.

Lemma connected_drainLoop env arr producers idx :
  preserves ConnectedInv (drainLoop env arr idx producers).
Proof.
  revert idx. induction producers as [|a producers IH]; intros idx; simpl.
  - pres_with connected_leaf.
  - apply pres_bind; [apply connected_handleNewProducer | intros _; apply IH].
Qed.

Hint Resolve connected_drainLoop : pres.

Lemma connected_unhandled e w :
  ConnectedInv w -> ConnectedInv (upd_trace (fun t => t ++ [OUnhandled e]) w).
Proof. intros H. exact H. Qed.

Lemma connected_data data w :
  ConnectedInv w -> ConnectedInv (exec (connect_data data) w).
Proof.
  intros [H1 H2]. unfold connect_data. msimpl. split; [|exact H2].
  cbn. split; [intros _; eexists; reflexivity | reflexivity].
Qed.

Lemma connected_disconnect w : ConnectedInv w -> ConnectedInv (exec disconnect w).
Proof.
  intros [H1 H2]. unfold disconnect, stopLocalTracks, closeSocket. msimpl.
  destruct (localStreamRef w); msimpl; destruct (socketRef w); msimpl;
    (split; [|exact H2]); cbn;
    (split; [discriminate | intros [x Hx]; discriminate]).
Qed.

Lemma connected_startBroadcast w :
  isConnected w = true -> ConnectedInv w -> ConnectedInv (exec startBroadcast w).
Proof.
  intros Hc [H1 H2]. unfold startBroadcast. msimpl. split; [exact H1|]. cbn.
  apply map_Forall_insert_2; [|exact H2]. cbn. apply H1, Hc.
Qed.

Lemma connected_resume c r m w :
  r <> RBadData ->
  resume c r = Some m -> ConnectedInv w -> ConnectedInv (exec m w).
Proof.
  intros Hb Hr H. destruct c.
  2: { simpl in Hr. destruct r; simplify_eq;
       [apply pres_exec;
        [apply connected_unhandled | pres_with connected_leaf | exact H]
       |apply connected_data, H]. }
  all: resume_cases_of Hr r;
    (apply pres_exec;
     [apply connected_unhandled | pres_with connected_leaf | exact H]).
Qed.

Lemma wellShaped_resume k r : wellShaped (Resume k r) -> r <> RBadData.
Proof. intros H ->. exact H. Qed.

Lemma connected_step e w :
  wellShaped e -> ConnectedInv w -> ConnectedInv (step e w).
Proof.
  revert e w.
  apply (step_cases_ev
           (fun e w w' => wellShaped e -> ConnectedInv w -> ConnectedInv w')).
  - intros e w _ H. exact H.
  - intros s w _ H. exact H.
  - intros s w _ H. exact H.
  - intros w _ _ H. apply pres_exec;
      [apply connected_unhandled | pres_with connected_leaf | exact H].
  - intros w _ _. apply connected_disconnect.
  - intros w Hc _ _. apply connected_startBroadcast, Hc.
  - intros w _ _ H. apply pres_exec;
      [apply connected_unhandled | pres_with connected_leaf | exact H].
  - intros sid s n w _ _ _ H. apply pres_exec;
      [apply connected_unhandled | | exact H].
    destruct n; pres_with connected_leaf.
  - intros k c r m w _ Hr Hw H.
    eapply connected_resume; [apply (wellShaped_resume k), Hw | exact Hr|].
    apply connected_delete, H.
Qed.

Lemma connected_initial uid : ConnectedInv (initial uid).
Proof.
  split; cbn; [|apply map_Forall_empty].
  split; [discriminate | intros [x Hx]; discriminate].
Qed.

(** *** A usable connect response implies a connection *)

Lemma usable_data data w : Usable (exec (connect_data data) w).
Proof. unfold connect_data. msimpl. intros _. reflexivity. Qed.

Lemma usable_badData w : Usable (exec connect_badData w).
Proof. unfold connect_badData. msimpl. intros _. reflexivity. Qed.

Lemma usable_disconnect w : Usable (exec disconnect w).
Proof.
  unfold disconnect, stopLocalTracks, closeSocket.
  destruct (localStreamRef w) eqn:E1; destruct (socketRef w) eqn:E2;
    repeat (progress (msimpl; rewrite ?E1, ?E2));
    intros [x Hx]; discriminate.
Qed.

Ltac usable_leaf := frame.

Lemma usable_handleNewProducer env a ret :
  preserves Usable (handleNewProducer env a ret).
Proof. pres_with usable_leaf. Qed.

Lemma usable_drainLoop env arr producers idx :
  preserves Usable (drainLoop env arr idx producers).
Proof.
  revert idx. induction producers as [|a producers IH]; intros idx; simpl.
  - pres_with usable_leaf.
  - apply pres_bind; [apply usable_handleNewProducer | intros _; apply IH].
Qed.

Hint Resolve usable_drainLoop : pres.

Lemma usable_resume c r m w :
  resume c r = Some m -> Usable w -> Usable (exec m w).
Proof.
  intros Hr H. destruct c.
  2: { simpl in Hr. destruct r; simplify_eq;
       [apply pres_exec; [intros e w' H'; exact H' | pres_with usable_leaf | exact H]
       |apply usable_data | apply usable_badData]. }
  all: resume_cases_of Hr r;
    (apply pres_exec; [intros e w' H'; exact H' | pres_with usable_leaf | exact H]).
Qed.

Lemma usable_step e w : Usable w -> Usable (step e w).
Proof.
  apply step_guarded.
  - intros s w' H. exact H.
  - intros s w' H. exact H.
  - intros w' _ H. exact H.
  - intros w' _ _. apply usable_disconnect.
  - intros w' _ _ H. exact H.
  - intros w' _ H. apply pres_exec;
      [intros e' w'' H'; exact H' | pres_with usable_leaf | exact H].
  - intros sid s n w' _ _ H. apply pres_exec;
      [intros e' w'' H'; exact H' | | exact H].
    destruct n; pres_with usable_leaf.
  - intros k c r m w' _ Hr H. eapply usable_resume; [exact Hr | exact H].
Qed.

Lemma usable_initial uid : Usable (initial uid).
Proof. intros [x Hx]. discriminate. Qed.

End Connected.
(** ** The consume callback and the receive transport *)

Section Consume.

Ltac set_leaf := first [ frame | intros; eexists; reflexivity ].

Lemma set_step e w : TransportSet w -> TransportSet (step e w).
Proof.
  apply step_preserves; try (intros; assumption); try solve [pres_with set_leaf].
  - intros env n. destruct n; pres_with set_leaf;
      first [apply ts_handleNewProducer | apply ts_drainLoop].
  - intros c r m Hr. resume_cases Hr c r; pres_with set_leaf;
      first [apply ts_handleNewProducer | apply ts_drainLoop].
Qed.

Lemma noc_insert k c w :
  ¬ inConsumption c -> NoConsumption w -> NoConsumption (upd_pool <[ k := c ]> w).
Proof.
  intros Hc [H1 H2]. split; [exact H1|]. cbn.
  apply map_Forall_insert_2; assumption.
Qed.

Lemma noc_delete k w : NoConsumption w -> NoConsumption (upd_pool (delete k) w).
Proof. intros [H1 H2]. split; [exact H1|]. cbn. apply map_Forall_delete, H2. Qed.

Ltac noc_leaf :=
  first [ frame
        | intros ? ?; apply noc_insert; [intros [] | assumption]
        | apply noc_delete ].

Lemma noc_closeConsumerTransport : preserves NoConsumption closeConsumerTransport.
Proof.
  unfold closeConsumerTransport. apply pres_get_bind. intros w H.
  destruct H as [H1 H2]. rewrite H1. split; assumption.
Qed.

(** Without a transport, [handleNewProducer] asks for one or waits for the
    one being made; it sends no [consume] request. *)
Lemma noc_handleNewProducer env a ret :
  preserves NoConsumption (handleNewProducer env a ret).
Proof.
  unfold handleNewProducer. apply pres_bind; [pres_with noc_leaf|]. intros _.
  destruct (String.eqb (a_userId a) (e_userId env)); [pres_with noc_leaf|].
  apply pres_get_bind. intros w H. pose proof H as [Ht Hp].
  rewrite Ht. cbn.
  destruct (creatingConsumerTransportRef w) eqn:Hf; cbn.
  - unfold waitForTransport. msimpl. rewrite Hf. msimpl.
    apply (noc_insert _ _ (upd_nextId S w)); [intros [] | exact H].
  - unfold createConsumerTransport. msimpl.
    destruct (socketRef w) as [sid|]; msimpl.
    + split; [exact Ht|]. cbn. apply map_Forall_insert_2; [intros [] | exact Hp].
    + split; assumption.
Qed.

Lemma noc_drainLoop env arr producers idx :
  preserves NoConsumption (drainLoop env arr idx producers).
Proof.
  revert idx. induction producers as [|a producers IH]; intros idx; simpl.
  - pres_with noc_leaf.
  - apply pres_bind; [apply noc_handleNewProducer | intros _; apply IH].
Qed.

Lemma noc_consume_ack u r m :
  consume_ack u r = Some m -> preserves NoConsumption m.
Proof.
  intros Hm. destruct r; simpl in Hm; simplify_eq; [pres_with noc_leaf|].
  apply pres_bind; [pres_with noc_leaf|]. intros _.
  apply pres_get_bind. intros w H. pose proof H as [Ht _]. rewrite Ht. exact H.
Qed.

Hint Resolve noc_closeConsumerTransport noc_handleNewProducer noc_drainLoop : pres.

Lemma noc_unhandled e w :
  NoConsumption w -> NoConsumption (upd_trace (fun t => t ++ [OUnhandled e]) w).
Proof. intros H. exact H. Qed.

Lemma safe_of_set w : TransportSet w -> ConsumeSafe w.
Proof. intros H k c _ _. exact H. Qed.

Lemma safe_of_noc w : NoConsumption w -> ConsumeSafe w.
Proof. intros [_ H] k c Hk Hc. exfalso. exact (H k c Hk Hc). Qed.

Lemma noc_of_safe w :
  ConsumeSafe w -> consumerTransportRef w = None -> NoConsumption w.
Proof.
  intros H Ht. split; [exact Ht|]. intros k c Hk Hc.
  destruct (H k c Hk Hc) as [t Hs]. congruence.
Qed.

(** The handler that asked for the transport continues only once the
    transport is cached. *)
Lemma safe_acknowledged env a ret r m w :
  resume (KCreateConsumerAck env a ret) r = Some m ->
  NoConsumption w -> ConsumeSafe (exec m w).
Proof.
  intros Hr H. simpl in Hr. destruct r; simpl in Hr; simplify_eq.
  - apply safe_of_noc. rewrite (exec_bind_Throw _ _ w w err) by reflexivity.
    exact H.
  - destruct (deviceRef w) as [d|] eqn:Hd; [destruct (d_loaded d) eqn:Hl|].
    + rewrite (exec_bind_Ok _ _ _ _ _ (callback_created env p d w Hd Hl)).
      apply safe_of_set. apply pres_exec.
      * intros e w' Hw'. exact Hw'.
      * apply pres_bind; [|intros _; apply ts_finish].
        unfold handleNewProducer_created.
        apply pres_bind; [pres_with set_leaf | intros _; apply ts_waitForTransport].
      * eexists. reflexivity.
    + destruct (callback_throws env p w) as [e He].
      { intros d' Hd'. congruence. }
      rewrite (exec_bind_Throw _ _ _ _ _ He). apply safe_of_noc. exact H.
    + destruct (callback_throws env p w) as [e He].
      { intros d' Hd'. congruence. }
      rewrite (exec_bind_Throw _ _ _ _ _ He). apply safe_of_noc. exact H.
Qed.

(** A handler that polls was started while the flag was up, and the flag
    goes down only once the transport is cached. *)
Lemma safe_polled k env a ret w :
  GuardInv w -> pool w !! k = Some (KPoll env a ret) ->
  consumerTransportRef w = None ->
  creatingConsumerTransportRef w = true.
Proof.
  intros (_ & H2 & _) Hk Ht.
  destruct (creatingConsumerTransportRef w) eqn:Hf; [reflexivity|].
  specialize (H2 eq_refl Ht). exfalso.
  assert (Hin : handlersInFlight w !! k = Some a).
  { unfold handlersInFlight. rewrite lookup_omap, Hk. reflexivity. }
  rewrite H2, lookup_empty in Hin. discriminate.
Qed.

Lemma safe_resume k c r m w :
  GuardInv w -> pool w !! k = Some c -> resume c r = Some m ->
  NoConsumption w -> ConsumeSafe (exec m (upd_pool (delete k) w)).
Proof.
  intros Hg Hk Hr H. pose proof (noc_delete k w H) as Hdel.
  destruct c.
  8: { eapply safe_acknowledged; eassumption. }
  8: { unfold resume in Hr. destruct r; simplify_eq.
       pose proof (safe_polled _ _ _ _ _ Hg Hk (proj1 H)) as Hf.
       apply safe_of_noc.
       rewrite (exec_bind_Suspend _ _ _ _
                  (waitForTransport_poll env a ret (upd_pool (delete k) w) Hf)).
       unfold pollState. apply noc_insert; [intros [] | exact Hdel]. }
  all: apply safe_of_noc; apply pres_exec; [apply noc_unhandled | | exact Hdel].
  all: try (eapply noc_consume_ack; exact Hr).
  all: simpl in Hr;
    unfold loaded, createProducerTransport_ack, produced_video, produced_audio,
      consume_made in Hr;
    destruct r; simplify_eq; pres_with noc_leaf.
Qed.

Lemma safe_step e w : GuardInv w -> ConsumeSafe w -> ConsumeSafe (step e w).
Proof.
  intros Hg Hs. destruct (consumerTransportRef w) as [t|] eqn:Ht.
  { apply safe_of_set, set_step. eexists. exact Ht. }
  pose proof (noc_of_safe w Hs Ht) as H. clear Hs Ht. revert Hg H.
  apply (step_cases (fun w w' => GuardInv w -> NoConsumption w -> ConsumeSafe w')).
  - intros w' _. apply safe_of_noc.
  - intros s w' _ H. apply safe_of_noc. exact H.
  - intros s w' _ H. apply safe_of_noc. exact H.
  - intros w' _ _ H. apply safe_of_noc.
    apply pres_exec; [apply noc_unhandled | pres_with noc_leaf | exact H].
  - intros w' _ _ H. apply safe_of_noc.
    apply pres_exec; [apply noc_unhandled | pres_with noc_leaf | exact H].
  - intros w' _ _ _ H. apply safe_of_noc.
    apply pres_exec; [apply noc_unhandled | pres_with noc_leaf | exact H].
  - intros w' _ _ H. apply safe_of_noc.
    apply pres_exec; [apply noc_unhandled | pres_with noc_leaf | exact H].
  - intros sid s n w' _ _ _ H. apply safe_of_noc.
    apply pres_exec; [apply noc_unhandled | | exact H].
    destruct n; pres_with noc_leaf.
  - intros k c r m w' Hk Hr Hg H. eapply safe_resume; eassumption.
Qed.

Lemma safe_run es w :
  GuardInv w -> ConsumeSafe w -> GuardInv (run es w) ∧ ConsumeSafe (run es w).
Proof.
  intros Hg Hs.
  apply (run_invariant (fun w => GuardInv w ∧ ConsumeSafe w)); [|split; assumption].
  intros e w' [Hg' Hs']. split; [apply guard_step, Hg' | apply safe_step; assumption].
Qed.

Lemma safe_initial uid : ConsumeSafe (initial uid).
Proof. intros k c Hk. cbn in Hk. rewrite lookup_empty in Hk. discriminate. Qed.

End Consume.
(** ** Draining the queue *)

Section Drain.














End Drain.

(** ** The socket of a broadcast *)

Section Live.

Lemma live_unhandled e w :
  LiveSocket w -> LiveSocket (upd_trace (fun t => t ++ [OUnhandled e]) w).
Proof. intros H. exact H. Qed.

Lemma live_off w : isBroadcasting w = false -> LiveSocket w.
Proof. intros H Hb. congruence. Qed.

Lemma disconnect_off w : isBroadcasting (exec disconnect w) = false.
Proof.
  unfold disconnect, stopLocalTracks, closeSocket. msimpl.
  destruct (localStreamRef w); msimpl; destruct (socketRef w); reflexivity.
Qed.

Lemma stopBroadcast_off w : isBroadcasting (exec stopBroadcast w) = false.
Proof.
  unfold stopBroadcast, stopLocalTracks, closeProducerTransport,
    closeConsumerTransport, closeSocket.
  msimpl.
  destruct (localStreamRef w); msimpl;
    destruct (producerTransportRef w); msimpl;
    destruct (consumerTransportRef w); msimpl;
    destruct (socketRef w); reflexivity.
Qed.

Lemma live_media uid ci video audio w :
  LiveSocket w -> LiveSocket (exec (startBroadcast_media uid ci video audio) w).
Proof.
  intros H. unfold startBroadcast_media, startBroadcast_catch.
  destruct ci as [i|]; [destruct (origin (broadcaster_url i)) eqn:Hu|].
  - msimpl. intros _. cbn.
    eexists. eexists. split; [reflexivity|].
    split; [apply lookup_insert_eq | reflexivity].
  - msimpl. exact H.
  - msimpl. exact H.
Qed.

Ltac live_leaf := frame.

Lemma live_handleNewProducer env a ret :
  preserves LiveSocket (handleNewProducer env a ret).
Proof. pres_with live_leaf. Qed.

Lemma live_drainLoop env arr producers idx :
  preserves LiveSocket (drainLoop env arr idx producers).
Proof.
  revert idx. induction producers as [|a producers IH]; intros idx; simpl.
  - pres_with live_leaf.
  - apply pres_bind; [apply live_handleNewProducer | intros _; apply IH].
Qed.

Hint Resolve live_drainLoop : pres.

Lemma live_resume c r m w :
  resume c r = Some m -> LiveSocket w -> LiveSocket (exec m w).
Proof.
  intros Hr H. destruct c.
  3: { simpl in Hr. destruct r; simplify_eq;
       [apply pres_exec; [apply live_unhandled | pres_with live_leaf | exact H]
       |apply live_media, H]. }
  all: resume_cases_of Hr r;
    (apply pres_exec; [apply live_unhandled | pres_with live_leaf | exact H]).
Qed.

Lemma live_step e w : LiveSocket w -> LiveSocket (step e w).
Proof.
  apply step_guarded.
  - intros s w' H. exact H.
  - intros s w' H. exact H.
  - intros w' _ H. exact H.
  - intros w' _ _. apply live_off, disconnect_off.
  - intros w' _ _ H. exact H.
  - intros w' _ _. apply live_off, stopBroadcast_off.
  - intros sid s n w' _ _ H. apply pres_exec; [apply live_unhandled | | exact H].
    destruct n; pres_with live_leaf.
  - intros k c r m w' _ Hr H. eapply live_resume; [exact Hr | exact H].
Qed.

Lemma live_initial uid : LiveSocket (initial uid).
Proof. apply live_off. reflexivity. Qed.

End Live.

(** ** What the listeners log *)

Section Listeners.

Variable l0 : list LogMsg.

Ltac kept_leaf :=
  first [ frame | apply logkept_log ].

Lemma logkept_listener env n :
  preserves (LogKept l0)
    match n with
    | NRouterCapabilities _ => onRouterCapabilities env
    | NNewProducer data => onNewProducer env data
    | NPeerDisconnected uid => onPeerDisconnected uid
    | _ => mret tt
    end.
Proof.
  destruct n; pres_with kept_leaf;
    first [ apply logkept_handleNewProducer | apply logkept_drainLoop ].
Qed.

End Listeners.
(** ** Connecting *)

Lemma connect_sends w :
  exec connect w
  = upd_pool <[ nextId w := KFetch ]>
      (upd_nextId S
         (upd_trace (fun t => t ++ [OFetch (roomId w) (userId w)])
            (upd_logs (fun l => l ++ [LConnecting]) w))).
Proof. reflexivity. Qed.

(** X1: from any state in which the component is not connected, a click on
    Connect, an HTTP response that is ok and its body [data] leave the
    component connected and holding [data]; one request was sent, with the
    room and user id of the moment of the click. *)
Theorem X1_connect_succeeds (w : World) (status : nat) (data : ConnInfo) :
  isConnected w = false ->
  let w' := run [UConnect; Resume (nextId w) (RHttp true status);
                 Resume (S (nextId w)) (RData data)] w in
  isConnected w' = true ∧ connectionInfo w' = Some data ∧
  trace w' = trace w ++ [OFetch (roomId w) (userId w)] ∧
  logs w' = logs w ++ [LConnecting; LApiResponse;
                       LBroadcasterUrl (href (broadcaster_url data))] ∧
  isBroadcasting w' = isBroadcasting w ∧ socketRef w' = socketRef w.
Proof.
  intros Hc w'. subst w'. unfold run. cbn [fold_left].
  assert (H1 : step UConnect w = exec connect w).
  { unfold step. rewrite Hc. reflexivity. }
  rewrite H1, connect_sends.
  erewrite (step_resume (nextId w) KFetch (RHttp true status));
    [|cbn; apply lookup_insert_eq | reflexivity].
  unfold connect_response. msimpl_steps.
  erewrite (step_resume (S (nextId w)) KJson (RData data));
    [|cbn; apply lookup_insert_eq | reflexivity].
  unfold connect_data. msimpl. rewrite <- !app_assoc. repeat split; reflexivity.
Qed.

Lemma X1_connect_succeeds_witness :
  let w := initial "me" in
  let w' := run [UConnect; Resume 1 (RHttp true 200); Resume 2 (RData Scenario.info)] w in
  isConnected w = false ∧
  isConnected w' = true ∧ connectionInfo w' = Some Scenario.info ∧
  trace w' = trace w ++ [OFetch (roomId w) (userId w)] ∧
  logs w' = logs w ++ [LConnecting; LApiResponse;
                       LBroadcasterUrl (href (broadcaster_url Scenario.info))] ∧
  isBroadcasting w' = isBroadcasting w ∧ socketRef w' = socketRef w.
Proof.
  split; [vm_compute; reflexivity|].
  apply (X1_connect_succeeds (initial "me") 200 Scenario.info). vm_compute; reflexivity.
Defined.

(** X2: whatever answer completes a suspended [connect], no exception
    escapes it; the connection state changes only when the body of the
    response arrives, and a rejection, an HTTP status that is not ok or a
    body whose [broadcaster] cannot be read is logged and ends the
    attempt. *)
Theorem X2_connect_failure_is_logged (w : World) (k : nat) (c : Cont) (r : Result) :
  pool w !! k = Some c -> connecting c ->
  let w' := step (Resume k r) w in
  trace w' = trace w ∧
  ((isConnected w' = isConnected w ∧ connectionInfo w' = connectionInfo w) ∨
   (exists data, c = KJson ∧ r = RData data ∧
                 isConnected w' = true ∧ connectionInfo w' = Some data) ∨
   (c = KJson ∧ r = RBadData ∧
    isConnected w' = true ∧ connectionInfo w' = None)) ∧
  (forall e, r = RReject e ->
     logs w' = logs w ++ [LError e] ∧ pool w' = delete k (pool w)) ∧
  (forall status, c = KFetch -> r = RHttp false status ->
     logs w' = logs w ++ [LError ("HTTP error! status: " +:+ pretty status)] ∧
     pool w' = delete k (pool w)) ∧
  (c = KJson -> r = RBadData ->
     logs w' = logs w ++ [LApiResponse; LError "TypeError"] ∧
     pool w' = delete k (pool w)).
Proof.
  intros Hk [-> | ->] w'; subst w'.
  - destruct (resume KFetch r) as [m|] eqn:Hr.
    + rewrite (step_resume _ _ _ _ _ Hk Hr).
      destruct r; simpl in Hr; simplify_eq.
      * unfold connect_catch. msimpl.
        repeat split; try (left; split; reflexivity); intros; simplify_eq;
          split; reflexivity.
      * unfold connect_response. destruct ok; msimpl;
          repeat split; try (left; split; reflexivity); intros; simplify_eq;
          split; reflexivity.
    + rewrite (step_resume_ignored _ _ _ _ Hk Hr).
      destruct r; simpl in Hr; simplify_eq;
        repeat split; try (left; split; reflexivity); intros; simplify_eq.
  - destruct (resume KJson r) as [m|] eqn:Hr.
    + rewrite (step_resume _ _ _ _ _ Hk Hr).
      destruct r; simpl in Hr; simplify_eq.
      * unfold connect_catch. msimpl.
        repeat split; try (left; split; reflexivity); intros; simplify_eq;
          split; reflexivity.
      * unfold connect_data. msimpl.
        repeat split; try (right; left; eexists; repeat split; reflexivity);
          intros; simplify_eq.
      * unfold connect_badData. msimpl. rewrite <- app_assoc.
        repeat split; try (right; right; repeat split; reflexivity);
          intros; simplify_eq.
    + rewrite (step_resume_ignored _ _ _ _ Hk Hr).
      destruct r; simpl in Hr; simplify_eq;
        repeat split; try (left; split; reflexivity); intros; simplify_eq.
Qed.

Lemma X2_connect_failure_is_logged_witness :
  let w := run [UConnect] (initial "me") in
  let w' := step (Resume 1 (RHttp false 503)) w in
  pool w !! 1 = Some KFetch ∧ connecting KFetch ∧
  (trace w' = trace w ∧
   ((isConnected w' = isConnected w ∧ connectionInfo w' = connectionInfo w) ∨
    (exists data, KFetch = KJson ∧ RHttp false 503 = RData data ∧
                  isConnected w' = true ∧ connectionInfo w' = Some data) ∨
    (KFetch = KJson ∧ RHttp false 503 = RBadData ∧
     isConnected w' = true ∧ connectionInfo w' = None)) ∧
   (forall e, RHttp false 503 = RReject e ->
      logs w' = logs w ++ [LError e] ∧ pool w' = delete 1 (pool w)) ∧
   (forall status, KFetch = KFetch -> RHttp false 503 = RHttp false status ->
      logs w' = logs w ++ [LError ("HTTP error! status: " +:+ pretty status)] ∧
      pool w' = delete 1 (pool w)) ∧
   (KFetch = KJson -> RHttp false 503 = RBadData ->
      logs w' = logs w ++ [LApiResponse; LError "TypeError"] ∧
      pool w' = delete 1 (pool w))) ∧
  logs w' = [LConnecting; LError "HTTP error! status: 503"] ∧
  isConnected w' = false.
Proof.
  split; [vm_compute; reflexivity|]. split; [left; vm_compute; reflexivity|].
  split; [|split; vm_compute; reflexivity].
  apply (X2_connect_failure_is_logged (run [UConnect] (initial "me")) 1 KFetch
           (RHttp false 503)); [vm_compute; reflexivity | left; vm_compute; reflexivity].
Defined.

(** ** Starting the broadcast *)

(** X3: as long as every connect response that arrives has a [broadcaster]
    member that can be read, the component is connected exactly when it
    holds the connect response, and every [startBroadcast] that is waiting
    for the media stream was started with a [connectionInfo] that is not
    null.  Whatever the responses, a component that holds a readable connect
    response is connected.  A body that is [null] or has no [broadcaster]
    is stored and marks the component as connected before
    [data.broadcaster.url] is read: the error is logged, the component is
    connected with nothing to read, and a broadcast started from there
    fails on [connectionInfo.broadcaster] after the media stream was
    acquired, with a logged broadcast error and no socket opened. *)
Theorem X3_connected_holds_info (uid : string) (es : list Event) :
  let w := run es (initial uid) in
  (Forall wellShaped es ->
   (isConnected w = true ↔ is_Some (connectionInfo w)) ∧
   (forall k u ci, pool w !! k = Some (KGetUserMedia u ci) -> is_Some ci)) ∧
  (is_Some (connectionInfo w) -> isConnected w = true) ∧
  (forall k, pool w !! k = Some KJson ->
     let w1 := step (Resume k RBadData) w in
     isConnected w1 = true ∧ connectionInfo w1 = None ∧
     trace w1 = trace w ∧
     logs w1 = logs w ++ [LApiResponse; LError "TypeError"] ∧
     (isBroadcasting w1 = false -> forall video audio,
        let w2 := step UStartBroadcast w1 in
        let w3 := step (Resume (nextId w1) (RMedia video audio)) w2 in
        pool w2 !! nextId w1 = Some (KGetUserMedia (userId w1) None) ∧
        isBroadcasting w3 = false ∧ sockets w3 = sockets w1 ∧
        socketRef w3 = socketRef w1 ∧
        localStreamRef w3 = Some (mkLocalStream video audio false) ∧
        logs w3 = logs w1 ++ [LStartingBroadcast; LGotLocalMedia;
                              LBroadcastError "TypeError"])).
Proof.
  intros w. split; [|split].
  - intros Hes.
    assert (H : ConnectedInv w).
    { apply (run_invariant_where wellShaped);
        [apply connected_step | exact Hes | apply connected_initial]. }
    destruct H as [H1 H2]. split; [exact H1|].
    intros k u ci Hk. exact (H2 k _ Hk).
  - apply (run_invariant Usable); [apply usable_step | apply usable_initial].
  - clearbody w. intros k Hk w1.
    assert (H1 : w1 = exec connect_badData (upd_pool (delete k) w)).
    { unfold w1. apply (step_resume _ _ RBadData _ _ Hk eq_refl). }
    assert (Hf : isConnected w1 = true ∧ connectionInfo w1 = None ∧
                 trace w1 = trace w ∧
                 logs w1 = logs w ++ [LApiResponse; LError "TypeError"]).
    { rewrite H1. unfold connect_badData. msimpl. rewrite <- app_assoc.
      repeat split; reflexivity. }
    clear H1. clearbody w1. destruct Hf as (F1 & F2 & F3 & F4).
    repeat (split; [assumption|]).
    intros Hb video audio w2 w3.
    assert (H2 : w2 = exec startBroadcast w1).
    { unfold w2, step. rewrite F1, Hb. reflexivity. }
    assert (Hg : pool w2 !! nextId w1 = Some (KGetUserMedia (userId w1) None) ∧
                 isBroadcasting w2 = false ∧ sockets w2 = sockets w1 ∧
                 socketRef w2 = socketRef w1 ∧
                 logs w2 = logs w1 ++ [LStartingBroadcast]).
    { rewrite H2. unfold startBroadcast. msimpl.
      rewrite F2, Hb, lookup_insert_eq. repeat split; reflexivity. }
    clear H2. clearbody w2. destruct Hg as (G1 & G2 & G3 & G4 & G5).
    split; [exact G1|].
    unfold w3. rewrite (step_resume _ _ (RMedia video audio) _ _ G1 eq_refl).
    unfold startBroadcast_media, startBroadcast_catch. msimpl.
    rewrite G2, G3, G4, G5, <- !app_assoc. repeat split; reflexivity.
Qed.

Lemma X3_connected_holds_info_witness :
  let es := Scenario.connected ++ [UStartBroadcast] in
  let w := run es (initial "me") in
  let v := run [UConnect; Resume 1 (RHttp true 200)] (initial "me") in
  let v1 := step (Resume 2 RBadData) v in
  let v3 := run [UStartBroadcast; Resume 3 (RMedia true true)] v1 in
  Forall wellShaped es ∧
  ((isConnected w = true ↔ is_Some (connectionInfo w)) ∧
   (forall k u ci, pool w !! k = Some (KGetUserMedia u ci) -> is_Some ci)) ∧
  isConnected w = true ∧
  pool w !! 3 = Some (KGetUserMedia "me" (Some Scenario.info)) ∧
  pool v !! 2 = Some KJson ∧
  isConnected v1 = true ∧ connectionInfo v1 = None ∧
  logs v1 = [LConnecting; LApiResponse; LError "TypeError"] ∧
  isBroadcasting v3 = false ∧ sockets v3 = ∅ ∧
  last (logs v3) = Some (LBroadcastError "TypeError").
Proof.
  split; [repeat constructor|].
  split; [|repeat split; vm_compute; reflexivity].
  apply (X3_connected_holds_info "me" (Scenario.connected ++ [UStartBroadcast])).
  repeat constructor.
Defined.

(** X4: a [startBroadcast] that fails, because [getUserMedia] is refused or
    because no socket address can be derived from the connect response,
    logs a broadcast error and throws nothing; no socket is opened and the
    session is not marked as broadcasting.  In the second case the media
    stream has been acquired and stays in [localStreamRef], not stopped. *)
Theorem X4_failed_start_opens_nothing (w : World) (k : nat) (uid : string)
    (ci : option ConnInfo) (r : Result) :
  pool w !! k = Some (KGetUserMedia uid ci) ->
  (exists e, r = RReject e) ∨
  (exists video audio, r = RMedia video audio ∧ socketUrlOf ci = None) ->
  let w' := step (Resume k r) w in
  isBroadcasting w' = isBroadcasting w ∧ socketRef w' = socketRef w ∧
  sockets w' = sockets w ∧ trace w' = trace w ∧
  (exists msg, last (logs w') = Some (LBroadcastError msg)) ∧
  localStreamRef w' =
    match r with
    | RMedia video audio => Some (mkLocalStream video audio false)
    | _ => localStreamRef w
    end.
Proof.
  intros Hk Hr w'. subst w'.
  destruct Hr as [[e ->] | (video & audio & -> & Hu)].
  - rewrite (step_resume _ _ (RReject e) _ _ Hk eq_refl).
    unfold startBroadcast_catch. msimpl. rewrite last_snoc.
    repeat split; try reflexivity. eexists; reflexivity.
  - rewrite (step_resume _ _ (RMedia video audio) _ _ Hk eq_refl).
    unfold startBroadcast_media, startBroadcast_catch.
    destruct ci as [i|]; cbn in Hu.
    + msimpl. rewrite Hu. msimpl. rewrite last_snoc.
      repeat split; try reflexivity. eexists; reflexivity.
    + msimpl. rewrite last_snoc.
      repeat split; try reflexivity. eexists; reflexivity.
Qed.

Lemma X4_failed_start_opens_nothing_witness :
  let bad := mkConnInfo (mkUrl "sfu.example" None) "token" "ice" in
  let w := run [UConnect; Resume 1 (RHttp true 200); Resume 2 (RData bad);
                UStartBroadcast] (initial "me") in
  let r := RMedia true true in
  let w' := step (Resume 3 r) w in
  pool w !! 3 = Some (KGetUserMedia "me" (Some bad)) ∧
  ((exists e, r = RReject e) ∨
   (exists video audio, r = RMedia video audio ∧ socketUrlOf (Some bad) = None)) ∧
  (isBroadcasting w' = isBroadcasting w ∧ socketRef w' = socketRef w ∧
   sockets w' = sockets w ∧ trace w' = trace w ∧
   (exists msg, last (logs w') = Some (LBroadcastError msg)) ∧
   localStreamRef w' = Some (mkLocalStream true true false)) ∧
  isBroadcasting w' = false ∧ isConnected w' = true.
Proof.
  split; [vm_compute; reflexivity|].
  split; [right; eexists; eexists; split; vm_compute; reflexivity|].
  split; [|split; vm_compute; reflexivity].
  apply (X4_failed_start_opens_nothing
           (run [UConnect; Resume 1 (RHttp true 200);
                 Resume 2 (RData (mkConnInfo (mkUrl "sfu.example" None) "token" "ice"));
                 UStartBroadcast] (initial "me"))
           3 "me" (Some (mkConnInfo (mkUrl "sfu.example" None) "token" "ice"))
           (RMedia true true)); [vm_compute; reflexivity|].
  right. eexists. eexists. split; vm_compute; reflexivity.
Defined.

(** X5: [disconnect] does not cancel a [startBroadcast] that is waiting for
    the media stream.  When the stream arrives after the disconnect, the
    socket is opened with the address and token of the connect response the
    handler closed over, and the session is marked as broadcasting although
    the component is no longer connected. *)
Theorem X5_start_survives_disconnect (w : World) (k : nat) (uid : string)
    (ci : ConnInfo) (url : string) (video audio : bool) :
  isConnected w = true ->
  pool w !! k = Some (KGetUserMedia uid (Some ci)) ->
  origin (broadcaster_url ci) = Some url ->
  let w1 := step UDisconnect w in
  let w' := step (Resume k (RMedia video audio)) w1 in
  (isConnected w1 = false ∧ connectionInfo w1 = None ∧ pool w1 = pool w) ∧
  isConnected w' = false ∧ connectionInfo w' = None ∧
  isBroadcasting w' = true ∧
  socketRef w' = Some (nextId w) ∧
  sockets w' !! nextId w = Some (mkSocket true (mkEnv uid ci)) ∧
  localStreamRef w' = Some (mkLocalStream video audio false) ∧
  trace w' = trace w1 ++ [OSocketOpen (nextId w) url (broadcaster_token ci)].
Proof.
  intros Hc Hk Hu w1 w'.
  assert (H1 : w1 = exec disconnect w).
  { unfold w1, step. rewrite Hc. reflexivity. }
  assert (Hframe : isConnected w1 = false ∧ connectionInfo w1 = None ∧
                   pool w1 = pool w ∧ nextId w1 = nextId w).
  { rewrite H1. unfold disconnect, stopLocalTracks, closeSocket. msimpl.
    destruct (localStreamRef w); msimpl; destruct (socketRef w); msimpl;
      repeat split; reflexivity. }
  destruct Hframe as (F1 & F2 & F3 & F4). clear H1. clearbody w1.
  split; [repeat split; assumption|].
  assert (Hk1 : pool w1 !! k = Some (KGetUserMedia uid (Some ci)))
    by (rewrite F3; exact Hk).
  unfold w'. rewrite (step_resume _ _ (RMedia video audio) _ _ Hk1 eq_refl).
  unfold startBroadcast_media. msimpl. rewrite Hu. msimpl.
  rewrite F1, F2, F4, lookup_insert_eq. repeat split; reflexivity.
Qed.

Lemma X5_start_survives_disconnect_witness :
  let w := run (Scenario.connected ++ [UStartBroadcast]) (initial "me") in
  let w1 := step UDisconnect w in
  let w' := step (Resume 3 (RMedia true true)) w1 in
  isConnected w = true ∧
  pool w !! 3 = Some (KGetUserMedia "me" (Some Scenario.info)) ∧
  origin (broadcaster_url Scenario.info) = Some "https://sfu.example" ∧
  ((isConnected w1 = false ∧ connectionInfo w1 = None ∧ pool w1 = pool w) ∧
   isConnected w' = false ∧ connectionInfo w' = None ∧
   isBroadcasting w' = true ∧
   socketRef w' = Some (nextId w) ∧
   sockets w' !! nextId w = Some (mkSocket true (mkEnv "me" Scenario.info)) ∧
   localStreamRef w' = Some (mkLocalStream true true false) ∧
   trace w' = trace w1 ++ [OSocketOpen (nextId w) "https://sfu.example"
                             (broadcaster_token Scenario.info)]).
Proof.
  split; [vm_compute; reflexivity|]. split; [vm_compute; reflexivity|]. split; [vm_compute; reflexivity|].
  apply (X5_start_survives_disconnect
           (run (Scenario.connected ++ [UStartBroadcast]) (initial "me"))
           3 "me" Scenario.info "https://sfu.example" true true); vm_compute; reflexivity.
Defined.

(** ** The queue of announcements *)

(** X6: while no device has been created, the announcements that arrive on
    an open socket are appended to the queue in the order of their arrival;
    no handler runs, nothing is sent and nothing is suspended. *)
Theorem X6_queue_is_fifo (w : World) (sid : nat) (env : Env)
    (l : list Announcement) :
  deviceRef w = None ->
  sockets w !! sid = Some (mkSocket true env) ->
  let w' := run (announce sid l) w in
  pendingProducers w' = pendingProducers w ++ l ∧
  detections w' = detections w ∧
  trace w' = trace w ∧ pool w' = pool w ∧ deviceRef w' = None.
Proof.
  revert w. induction l as [|a l IH]; intros w Hd Hs; cbn zeta.
  - cbn. rewrite app_nil_r. repeat split; try reflexivity. exact Hd.
  - change (run (announce sid (a :: l)) w)
      with (run (announce sid l) (step (Notify sid (NNewProducer a)) w)).
    set (w1 := step (Notify sid (NNewProducer a)) w).
    assert (H1 : pendingProducers w1 = pendingProducers w ++ [a] ∧
                 detections w1 = detections w ∧ trace w1 = trace w ∧
                 pool w1 = pool w ∧ deviceRef w1 = None ∧
                 sockets w1 = sockets w).
    { unfold w1, step. rewrite Hs. cbn [s_open s_env].
      unfold onNotification, onNewProducer. msimpl. rewrite Hd. msimpl.
      unfold pendingProducers, detections. cbn.
      rewrite lookup_insert_eq, !omap_app. cbn. rewrite !app_nil_r.
      repeat split; try reflexivity. exact Hd. }
    destruct H1 as (A1 & A2 & A3 & A4 & A5 & A6). clearbody w1.
    destruct (IH w1 A5) as (B1 & B2 & B3 & B4 & B5); [rewrite A6; exact Hs|].
    rewrite B1, B2, B3, B4, B5, A1, A2, A3, A4, <- app_assoc.
    repeat split; reflexivity.
Qed.

Lemma X6_queue_is_fifo_witness :
  let w := run Scenario.started (initial "me") in
  let l := [Scenario.bob_video; Scenario.carol_audio; Scenario.dave_video] in
  let w' := run (announce 4 l) w in
  deviceRef w = None ∧
  sockets w !! 4 = Some (mkSocket true (mkEnv "me" Scenario.info)) ∧
  (pendingProducers w' = pendingProducers w ++ l ∧
   detections w' = detections w ∧
   trace w' = trace w ∧ pool w' = pool w ∧ deviceRef w' = None).
Proof.
  split; [vm_compute; reflexivity|]. split; [vm_compute; reflexivity|].
  apply (X6_queue_is_fifo (run Scenario.started (initial "me")) 4
           (mkEnv "me" Scenario.info)
           [Scenario.bob_video; Scenario.carol_audio; Scenario.dave_video]);
    vm_compute; reflexivity.
Defined.





(** ** What holds in every state the component can reach *)

(** X9: in every state the component can reach in which the session is
    marked as broadcasting, the socket ref holds a socket, and the component
    has not disconnected it. *)
Theorem X9_broadcasting_has_socket (uid : string) (es : list Event) :
  let w := run es (initial uid) in
  isBroadcasting w = true ->
  exists sid s,
    socketRef w = Some sid ∧ sockets w !! sid = Some s ∧ s_open s = true.
Proof.
  intros w.
  apply (run_invariant LiveSocket); [apply live_step | apply live_initial].
Qed.

Lemma X9_broadcasting_has_socket_witness :
  let w := run Scenario.broadcasting (initial "me") in
  isBroadcasting w = true ∧
  exists sid s,
    socketRef w = Some sid ∧ sockets w !! sid = Some s ∧ s_open s = true.
Proof.
  split; [vm_compute; reflexivity|].
  apply (X9_broadcasting_has_socket "me" Scenario.broadcasting). vm_compute; reflexivity.
Defined.

(** X10: in every state the component can reach, the producer set holds
    nothing but a producer under ["video"] and a producer under ["audio"]:
    at most two entries, however often the send transport is negotiated. *)
Theorem X10_producers_video_audio (uid : string) (es : list Event) :
  let w := run es (initial uid) in
  (forall key, is_Some (producersRef w !! key) -> key = "video" ∨ key = "audio") ∧
  size (producersRef w) ≤ 2.
Proof.
  intros w.
  assert (H : ProducerKinds w).
  { apply run_invariant; [apply kinds_step | apply kinds_initial]. }
  split; [exact H | apply kinds_size, H].
Qed.

Lemma X10_producers_video_audio_witness :
  let w := run (Scenario.negotiated ++
                [Notify 4 (NRouterCapabilities "caps"); Resume 12 RUnit;
                 Resume 13 (RAckTransport (mkTransportParams "send-2"));
                 Resume 15 (RProducer "local-video-2");
                 Resume 16 (RProducer "local-audio-2")]) (initial "me") in
  ((forall key, is_Some (producersRef w !! key) -> key = "video" ∨ key = "audio") ∧
   size (producersRef w) ≤ 2) ∧
  producersRef w !! "video" = Some (mkProducer "local-video-2") ∧
  producersRef w !! "audio" = Some (mkProducer "local-audio-2") ∧
  size (producersRef w) = 2.
Proof.
  split; [|vm_compute; repeat split; vm_compute; reflexivity].
  apply (X10_producers_video_audio "me").
Defined.

(** X11: in every state the component can reach, every entry of the
    participant map is filed under the [userId] it carries, and its stream
    holds at least one track. *)
Theorem X11_participants_well_formed (uid : string) (es : list Event)
    (u : string) (p : Participant) :
  participants (run es (initial uid)) !! u = Some p ->
  p_userId p = u ∧ p_stream p <> [].
Proof.
  intros Hp.
  assert (H : WellFormed (run es (initial uid))).
  { apply run_invariant; [apply wellformed_step | apply wellformed_initial]. }
  destruct (H u p Hp) as (H1 & H2 & _). split; assumption.
Qed.

Lemma X11_participants_well_formed_witness :
  let p := mkParticipant "alice" [mkTrack 15 "video"] (Some "p1") None in
  participants (run Scenario.broadcasting (initial "me")) !! "alice" = Some p ∧
  p_userId p = "alice" ∧ p_stream p <> [].
Proof.
  split; [vm_compute; reflexivity|].
  apply (X11_participants_well_formed "me" Scenario.broadcasting "alice").
  vm_compute; reflexivity.
Defined.

(** X12: in every state the component can reach, the completion of a
    consumption adds exactly one track, a new one, at the end of the stream
    of the participant it is for, whose entry is made if there is none; the
    entries of the other participants are left as they are, and the consumer
    is registered under its id. *)
Theorem X12_consumption_adds_one_track (uid : string) (es : list Event)
    (k : nat) (response : ConsumeResponse) (u : string) :
  let w := run es (initial uid) in
  pool w !! k = Some (KConsuming response u) ->
  let w' := step (Resume k RUnit) w in
  let track := mkTrack (nextId w) (cr_kind response) in
  (exists p',
      participants w' !! u = Some p' ∧ p_userId p' = u ∧
      p_stream p' = p_stream (entryBefore u (participants w)) ++ [track]) ∧
  (forall u', u' <> u -> participants w' !! u' = participants w !! u') ∧
  consumersRef w' !! cr_id response
  = Some (mkConsumer (cr_id response) (cr_producerId response)
            (cr_kind response) track).
Proof.
  intros w Hk w' track.
  assert (H : WellFormed w).
  { apply run_invariant; [apply wellformed_step | apply wellformed_initial]. }
  unfold w'. rewrite (step_resume _ _ RUnit _ _ Hk eq_refl). msimpl.
  fold track.
  destruct (addConsumerTrack_entry u response track (participants w))
    as (p' & -> & Hu & Hs).
  assert (Hold : p_userId (entryBefore u (participants w)) = u ∧
                 tr_obj track ∉ tr_obj <$> p_stream (entryBefore u (participants w))).
  { unfold entryBefore. destruct (participants w !! u) as [p|] eqn:Hp; cbn.
    - apply H in Hp as (H1 & _ & H3). split; [exact H1|].
      intros Hin. apply list_elem_of_fmap in Hin as (t & Ht & Hin).
      rewrite Forall_forall in H3. apply H3 in Hin. cbn in Ht. lia.
    - split; [reflexivity | intros Hin; inversion Hin]. }
  destruct Hold as [Hold1 Hold2].
  split; [|split].
  - exists p'. rewrite lookup_insert_eq. split; [reflexivity|].
    rewrite Hu, Hs. split; [exact Hold1 | apply addTrack_new, Hold2].
  - intros u' Hne. apply lookup_insert_ne. congruence.
  - apply lookup_insert_eq.
Qed.

Lemma X12_consumption_adds_one_track_witness :
  let es := Scenario.negotiated ++ Scenario.alice_p1 ++
            [Notify 4 (NNewProducer (mkAnnouncement "p2" "alice" "audio"));
             Resume 16 (RAckConsume (mkConsumeResponse "c2" "p2" "audio"))] in
  let response := mkConsumeResponse "c2" "p2" "audio" in
  let w := run es (initial "me") in
  let w' := step (Resume 17 RUnit) w in
  let track := mkTrack (nextId w) (cr_kind response) in
  pool w !! 17 = Some (KConsuming response "alice") ∧
  ((exists p',
       participants w' !! "alice" = Some p' ∧ p_userId p' = "alice" ∧
       p_stream p' = p_stream (entryBefore "alice" (participants w)) ++ [track]) ∧
   (forall u', u' <> "alice" -> participants w' !! u' = participants w !! u') ∧
   consumersRef w' !! cr_id response
   = Some (mkConsumer (cr_id response) (cr_producerId response)
             (cr_kind response) track)) ∧
  (p_stream <$> participants w' !! "alice")
  = Some [mkTrack 15 "video"; mkTrack 18 "audio"].
Proof.
  split; [vm_compute; reflexivity|]. split; [|vm_compute; reflexivity].
  apply (X12_consumption_adds_one_track "me"
           (Scenario.negotiated ++ Scenario.alice_p1 ++
            [Notify 4 (NNewProducer (mkAnnouncement "p2" "alice" "audio"));
             Resume 16 (RAckConsume (mkConsumeResponse "c2" "p2" "audio"))])
           17 (mkConsumeResponse "c2" "p2" "audio") "alice").
  vm_compute; reflexivity.
Defined.

(** X13: in every state the component can reach, a consumption that is
    under way has a receive transport to work on.  The callback of a
    [consume] request therefore never fails on a missing transport: whatever
    the answer, it throws nothing, and a successful answer is passed to
    [consume(..)] of the cached transport. *)
Theorem X13_consume_finds_transport (uid : string) (es : list Event)
    (k : nat) (c : Cont) :
  let w := run es (initial uid) in
  pool w !! k = Some c -> inConsumption c ->
  is_Some (consumerTransportRef w) ∧
  (forall u r, c = KConsumeAck u ->
     let w' := step (Resume k r) w in
     trace w' = trace w ∨
     exists t response,
       consumerTransportRef w = Some t ∧ r = RAckConsume response ∧
       trace w' = trace w ++ [OConsume (t_obj t) response]).
Proof.
  intros w Hk Hc.
  assert (H : ConsumeSafe w).
  { apply safe_run; [apply guard_initial | apply safe_initial]. }
  pose proof (H k c Hk Hc) as [t Ht]. split; [eexists; exact Ht|].
  intros u r -> w'. subst w'.
  destruct (resume (KConsumeAck u) r) as [m|] eqn:Hr.
  - rewrite (step_resume _ _ _ _ _ Hk Hr).
    destruct r; simpl in Hr; simplify_eq.
    + left. reflexivity.
    + right. exists t, r. split; [exact Ht|]. split; [reflexivity|].
      msimpl. rewrite Ht. msimpl. reflexivity.
  - left. rewrite (step_resume_ignored _ _ _ _ Hk Hr). reflexivity.
Qed.

Lemma X13_consume_finds_transport_witness :
  let es := Scenario.negotiated ++
            [Notify 4 (NNewProducer (mkAnnouncement "p1" "alice" "video"));
             Resume 11 (RAckTransport (mkTransportParams "recv-1"))] in
  let w := run es (initial "me") in
  pool w !! 13 = Some (KConsumeAck "alice") ∧ inConsumption (KConsumeAck "alice") ∧
  is_Some (consumerTransportRef w) ∧
  (forall u r, KConsumeAck "alice" = KConsumeAck u ->
     let w' := step (Resume 13 r) w in
     trace w' = trace w ∨
     exists t response,
       consumerTransportRef w = Some t ∧ r = RAckConsume response ∧
       trace w' = trace w ++ [OConsume (t_obj t) response]).
Proof.
  split; [vm_compute; reflexivity|]. split; [exact I|].
  apply (X13_consume_finds_transport "me"
           (Scenario.negotiated ++
            [Notify 4 (NNewProducer (mkAnnouncement "p1" "alice" "video"));
             Resume 11 (RAckTransport (mkTransportParams "recv-1"))])
           13 (KConsumeAck "alice")); [vm_compute; reflexivity | exact I].
Defined.

(** X14: no turn of the event loop removes or rewrites a line of the log:
    the log after any sequence of events begins with the log before it. *)
Theorem X14_log_only_grows (es : list Event) (w : World) :
  logs w `prefix_of` logs (run es w).
Proof.
  apply (run_invariant (LogKept (logs w))); [apply logkept_step|].
  unfold LogKept. reflexivity.
Qed.

(** X15: over the whole life of the component, through stops, restarts and
    disconnects, at most one receive transport is constructed or under
    construction, and every [consume(..)] is called on that one transport. *)
Theorem X15_one_receive_transport_ever (uid : string) (es : list Event) :
  let w := run es (initial uid) in
  constructed w + underConstruction w ≤ 1 ∧
  (forall obj, obj ∈ consumeUses w -> recvConstructions w = [obj]).
Proof.
  intros w.
  assert (H : GuardInv w) by (apply guard_run, guard_initial).
  split; [apply guard_at_most_one, H|].
  destruct H as (_ & _ & H3). intros obj Hin.
  destruct (consumerTransportRef w) as [t|].
  - destruct H3 as (_ & Hr & Hf). rewrite Forall_forall in Hf.
    rewrite Hr. f_equal. apply Hf, Hin.
  - destruct H3 as (_ & Hu). rewrite Hu in Hin. inversion Hin.
Qed.

Lemma X15_one_receive_transport_ever_witness :
  let es := Scenario.restarted ++
            [Notify 17 (NNewProducer Scenario.bob_video);
             Resume 18 (RAckConsume (mkConsumeResponse "c2" "p1" "video"))] in
  let w := run es (initial "me") in
  (constructed w + underConstruction w ≤ 1 ∧
   (forall obj, obj ∈ consumeUses w -> recvConstructions w = [obj])) ∧
  consumeUses w = [12; 12] ∧ recvConstructions w = [12].
Proof.
  split; [|split; vm_compute; reflexivity].
  apply (X15_one_receive_transport_ever "me").
Defined.

(** ** Publishing the local tracks *)

(** X18: once the server has acknowledged the send transport, the transport
    is made on the loaded device and cached, the video track is published
    before the audio track, each producer is filed under its kind once the
    media library has made it, and only then the server is asked for the
    producers already in the room; a track the local stream does not have is
    skipped. *)
Theorem X18_tracks_published_in_order (w : World) (k : nat) (env : Env)
    (p : TransportParams) (d : Device) (s : LocalStream) (sid : nat)
    (vid aid : string) :
  pool w !! k = Some (KCreateProducerAck env) ->
  deviceRef w = Some d -> d_loaded d = true ->
  localStreamRef w = Some s -> socketRef w = Some sid ->
  pendingProducers w = [] ->
  let n := nextId w in
  let w' := run (Resume k (RAckTransport p)
                 :: published (S n) (ls_video s) (ls_audio s) vid aid) w in
  producerTransportRef w' = Some (mkTransport n (tp_id p) false) ∧
  producersRef w' !! "video"
  = (if ls_video s then Some (mkProducer vid) else producersRef w !! "video") ∧
  producersRef w' !! "audio"
  = (if ls_audio s then Some (mkProducer aid) else producersRef w !! "audio") ∧
  trace w' = trace w
             ++ [OCreateSendTransport n (tp_id p) (broadcaster_ice (e_connInfo env))]
             ++ produceCalls n (ls_video s) (ls_audio s)
             ++ [OEmit sid MRefreshProducers None] ∧
  pendingProducers w' = [].
Proof.
  intros Hk Hd Hl Hs Hsock Hq n w'. subst w' n.
  unfold pendingProducers in Hq.
  destruct s as [video audio st]. cbn [ls_video ls_audio].
  unfold run, published, produceCalls.
  destruct video, audio; cbn [fold_left app].
  - rewrite (step_resume _ _ (RAckTransport p) _ _ Hk eq_refl).
    unfold newTransport, produce. msimpl_steps. rewrite Hd. msimpl_steps.
    rewrite Hl. msimpl_steps. rewrite Hs. msimpl_steps.
    erewrite (step_resume (S (nextId w)) _ (RProducer vid));
      [|cbn; apply lookup_insert_eq | reflexivity].
    unfold produce_audio, produce. msimpl_steps.
    erewrite (step_resume (S (S (nextId w))) _ (RProducer aid));
      [|cbn; apply lookup_insert_eq | reflexivity].
    unfold producing_done, processPending, pendingProducers. msimpl.
    rewrite Hsock. msimpl. rewrite Hq. msimpl.
    rewrite lookup_insert_eq, lookup_insert_ne, lookup_insert_eq, <- !app_assoc
      by discriminate.
    unfold pendingProducers. cbn. rewrite Hq. repeat split; reflexivity.
  - rewrite (step_resume _ _ (RAckTransport p) _ _ Hk eq_refl).
    unfold newTransport, produce. msimpl_steps. rewrite Hd. msimpl_steps.
    rewrite Hl. msimpl_steps. rewrite Hs. msimpl_steps.
    erewrite (step_resume (S (nextId w)) _ (RProducer vid));
      [|cbn; apply lookup_insert_eq | reflexivity].
    unfold produce_audio, producing_done, processPending, pendingProducers.
    msimpl. rewrite Hsock. msimpl. rewrite Hq. msimpl.
    rewrite lookup_insert_eq, lookup_insert_ne, <- !app_assoc by discriminate.
    unfold pendingProducers. cbn. rewrite Hq. repeat split; reflexivity.
  - rewrite (step_resume _ _ (RAckTransport p) _ _ Hk eq_refl).
    unfold newTransport, produce_audio, produce. msimpl_steps. rewrite Hd.
    msimpl_steps. rewrite Hl. msimpl_steps. rewrite Hs. msimpl_steps.
    erewrite (step_resume (S (nextId w)) _ (RProducer aid));
      [|cbn; apply lookup_insert_eq | reflexivity].
    unfold producing_done, processPending, pendingProducers.
    msimpl. rewrite Hsock. msimpl. rewrite Hq. msimpl.
    rewrite lookup_insert_eq, lookup_insert_ne, <- !app_assoc by discriminate.
    unfold pendingProducers. cbn. rewrite Hq. repeat split; reflexivity.
  - rewrite (step_resume _ _ (RAckTransport p) _ _ Hk eq_refl).
    unfold newTransport, produce_audio, producing_done, processPending,
      pendingProducers.
    msimpl. rewrite Hd. msimpl. rewrite Hl. msimpl. rewrite Hs. msimpl.
    rewrite Hsock. msimpl. rewrite Hq. msimpl. rewrite <- !app_assoc.
    unfold pendingProducers. cbn. rewrite Hq. repeat split; reflexivity.
Qed.

Lemma X18_tracks_published_in_order_witness :
  let env := mkEnv "me" Scenario.info in
  let w := run (Scenario.started ++
                [Notify 4 (NRouterCapabilities "caps"); Resume 6 RUnit])
             (initial "me") in
  let p := mkTransportParams "send-1" in
  let s := mkLocalStream true true false in
  let n := nextId w in
  let w' := run (Resume 7 (RAckTransport p)
                 :: published (S n) (ls_video s) (ls_audio s)
                      "local-video" "local-audio") w in
  (pool w !! 7 = Some (KCreateProducerAck env) ∧
   deviceRef w = Some (mkDevice 5 true) ∧ localStreamRef w = Some s ∧
   socketRef w = Some 4 ∧ pendingProducers w = []) ∧
  (producerTransportRef w' = Some (mkTransport n (tp_id p) false) ∧
   producersRef w' !! "video"
   = (if ls_video s then Some (mkProducer "local-video")
      else producersRef w !! "video") ∧
   producersRef w' !! "audio"
   = (if ls_audio s then Some (mkProducer "local-audio")
      else producersRef w !! "audio") ∧
   trace w' = trace w
              ++ [OCreateSendTransport n (tp_id p) (broadcaster_ice (e_connInfo env))]
              ++ produceCalls n (ls_video s) (ls_audio s)
              ++ [OEmit 4 MRefreshProducers None] ∧
   pendingProducers w' = []) ∧
  w' = run Scenario.negotiated (initial "me").
Proof.
  split; [repeat split; vm_compute; reflexivity|]. split; [|vm_compute; reflexivity].
  apply (X18_tracks_published_in_order
           (run (Scenario.started ++
                 [Notify 4 (NRouterCapabilities "caps"); Resume 6 RUnit])
              (initial "me"))
           7 (mkEnv "me" Scenario.info) (mkTransportParams "send-1")
           (mkDevice 5 true) (mkLocalStream true true false) 4
           "local-video" "local-audio"); vm_compute; reflexivity.
Defined.

(** ** Stopping and disconnecting *)

(** X16: [stopBroadcast] empties the producer set, the consumer registry and
    the participant map and clears the broadcasting flag; it stops the local
    tracks, closes the transports in the two transport refs and disconnects
    the socket in the socket ref, and leaves each of them in its ref.  The
    device, the queue of announcements, the creation flag and the connection
    state are left as they are. *)
Theorem X16_stop_closes_and_keeps (w : World) :
  isBroadcasting w = true ->
  let w' := step UStopBroadcast w in
  (producersRef w' = ∅ ∧ consumersRef w' = ∅ ∧ participants w' = ∅ ∧
   isBroadcasting w' = false) ∧
  (localStreamRef w' = stoppedStream <$> localStreamRef w ∧
   producerTransportRef w' = closeTransport <$> producerTransportRef w ∧
   consumerTransportRef w' = closeTransport <$> consumerTransportRef w ∧
   socketRef w' = socketRef w ∧
   (forall sid, socketRef w = Some sid ->
                s_open <$> sockets w' !! sid = (fun _ => false) <$> sockets w !! sid) ∧
   closes w'
   = closes w ++ (t_obj <$> option_list (producerTransportRef w))
              ++ (t_obj <$> option_list (consumerTransportRef w))) ∧
  (deviceRef w' = deviceRef w ∧ pendingProducers w' = pendingProducers w ∧
   creatingConsumerTransportRef w' = creatingConsumerTransportRef w ∧
   isConnected w' = isConnected w ∧ connectionInfo w' = connectionInfo w).
Proof.
  intros Hb w'. subst w'. unfold step. rewrite Hb.
  unfold stopBroadcast, stopLocalTracks, closeProducerTransport,
    closeConsumerTransport, closeSocket, closes, pendingProducers.
  destruct (localStreamRef w) as [s|] eqn:E1;
    destruct (producerTransportRef w) as [pt|] eqn:E2;
    destruct (consumerTransportRef w) as [ct|] eqn:E3;
    destruct (socketRef w) as [sid|] eqn:E4;
    repeat (progress (msimpl; rewrite ?E1, ?E2, ?E3, ?E4));
    rewrite ?omap_app; cbn; rewrite ?app_nil_r, <- ?app_assoc;
    (split; [repeat split; reflexivity|]);
    (split; [|repeat split; reflexivity]);
    repeat split; try reflexivity;
    intros sid' Hsid; simplify_eq;
    rewrite lookup_alter_eq; destruct (sockets w !! sid'); reflexivity.
Qed.

Lemma X16_stop_closes_and_keeps_witness :
  let w := run Scenario.broadcasting (initial "me") in
  let w' := step UStopBroadcast w in
  isBroadcasting w = true ∧
  ((producersRef w' = ∅ ∧ consumersRef w' = ∅ ∧ participants w' = ∅ ∧
    isBroadcasting w' = false) ∧
   (localStreamRef w' = stoppedStream <$> localStreamRef w ∧
    producerTransportRef w' = closeTransport <$> producerTransportRef w ∧
    consumerTransportRef w' = closeTransport <$> consumerTransportRef w ∧
    socketRef w' = socketRef w ∧
    (forall sid, socketRef w = Some sid ->
                 s_open <$> sockets w' !! sid = (fun _ => false) <$> sockets w !! sid) ∧
    closes w'
    = closes w ++ (t_obj <$> option_list (producerTransportRef w))
               ++ (t_obj <$> option_list (consumerTransportRef w))) ∧
   (deviceRef w' = deviceRef w ∧ pendingProducers w' = pendingProducers w ∧
    creatingConsumerTransportRef w' = creatingConsumerTransportRef w ∧
    isConnected w' = isConnected w ∧ connectionInfo w' = connectionInfo w)) ∧
  consumerTransportRef w' = Some (mkTransport 12 "recv-1" true) ∧
  closes w' = [8; 12].
Proof.
  split; [vm_compute; reflexivity|]. split; [|split; vm_compute; reflexivity].
  apply (X16_stop_closes_and_keeps (run Scenario.broadcasting (initial "me"))).
  vm_compute; reflexivity.
Defined.

Lemma empty_entry u response track :
  exists p,
    addConsumerTrack u response track ∅ = {[ u := p ]} ∧
    p_userId p = u ∧ p_stream p = [track].
Proof.
  unfold addConsumerTrack. rewrite lookup_empty. cbn.
  destruct (String.eqb (cr_kind response) "video");
    [|destruct (String.eqb (cr_kind response) "audio")];
    eexists; (split; [apply insert_empty|]); split; reflexivity.
Qed.

(** X17: [disconnect] does not cancel a consumption that is under way.
    When the media library completes it after the disconnect, the consumer
    is registered and the participant is entered again, with the new track
    alone in its stream, into the participant map that the disconnect had
    emptied. *)
Theorem X17_consumption_survives_disconnect (w : World) (k : nat)
    (response : ConsumeResponse) (u : string) :
  isConnected w = true ->
  pool w !! k = Some (KConsuming response u) ->
  let track := mkTrack (nextId w) (cr_kind response) in
  let consumer :=
    mkConsumer (cr_id response) (cr_producerId response) (cr_kind response)
      track in
  let w1 := step UDisconnect w in
  let w' := step (Resume k RUnit) w1 in
  (isConnected w1 = false ∧ participants w1 = ∅ ∧ pool w1 = pool w) ∧
  isConnected w' = false ∧
  (exists p, participants w' = {[ u := p ]} ∧ p_userId p = u ∧
             p_stream p = [track]) ∧
  consumersRef w' = <[ cr_id response := consumer ]> (consumersRef w).
Proof.
  intros Hc Hk track consumer w1 w'.
  assert (H1 : isConnected w1 = false ∧ participants w1 = ∅ ∧
               consumersRef w1 = consumersRef w ∧ pool w1 = pool w ∧
               nextId w1 = nextId w).
  { unfold w1, step. rewrite Hc.
    unfold disconnect, stopLocalTracks, closeSocket.
    destruct (localStreamRef w) eqn:E1; destruct (socketRef w) eqn:E2;
      repeat (progress (msimpl; rewrite ?E1, ?E2));
      repeat split; reflexivity. }
  destruct H1 as (A1 & A2 & A3 & A4 & A5). clearbody w1.
  split; [repeat split; assumption|].
  assert (Hk1 : pool w1 !! k = Some (KConsuming response u))
    by (rewrite A4; exact Hk).
  unfold w'. rewrite (step_resume _ _ RUnit _ _ Hk1 eq_refl). msimpl.
  rewrite A1, A2, A3, A5. fold track. fold consumer.
  split; [reflexivity|]. split; [apply empty_entry | reflexivity].
Qed.

Lemma X17_consumption_survives_disconnect_witness :
  let response := mkConsumeResponse "c1" "p1" "video" in
  let w := run (Scenario.negotiated ++
                [Notify 4 (NNewProducer (mkAnnouncement "p1" "alice" "video"));
                 Resume 11 (RAckTransport (mkTransportParams "recv-1"));
                 Resume 13 (RAckConsume response)]) (initial "me") in
  let track := mkTrack (nextId w) (cr_kind response) in
  let consumer :=
    mkConsumer (cr_id response) (cr_producerId response) (cr_kind response)
      track in
  let w1 := step UDisconnect w in
  let w' := step (Resume 14 RUnit) w1 in
  isConnected w = true ∧
  pool w !! 14 = Some (KConsuming response "alice") ∧
  ((isConnected w1 = false ∧ participants w1 = ∅ ∧ pool w1 = pool w) ∧
   isConnected w' = false ∧
   (exists p, participants w' = {[ "alice" := p ]} ∧ p_userId p = "alice" ∧
              p_stream p = [track]) ∧
   consumersRef w' = <[ cr_id response := consumer ]> (consumersRef w)).
Proof.
  split; [vm_compute; reflexivity|]. split; [vm_compute; reflexivity|].
  apply (X17_consumption_survives_disconnect
           (run (Scenario.negotiated ++
                 [Notify 4 (NNewProducer (mkAnnouncement "p1" "alice" "video"));
                  Resume 11 (RAckTransport (mkTransportParams "recv-1"));
                  Resume 13 (RAckConsume (mkConsumeResponse "c1" "p1" "video"))])
              (initial "me"))
           14 (mkConsumeResponse "c1" "p1" "video") "alice");
    vm_compute; reflexivity.
Defined.

(** ** Failures that no handler catches *)

(** X19: when the device load, the request for the send transport,
    [produce(..)] or [consume(..)] fails, nothing catches the failure: it
    leaves its handler as an unhandled rejection and the handler is gone.
    The state is what it was, so nothing is published or registered by that
    handler, the queue of announcements stays as it is, and nothing is tried
    again. *)
Theorem X19_uncaught_failure_abandons (w : World) (k : nat) (c : Cont)
    (r : Result) (e : string) :
  pool w !! k = Some c -> uncaught c r e ->
  step (Resume k r) w
  = upd_trace (fun t => t ++ [OUnhandled e]) (upd_pool (delete k) w).
Proof.
  intros Hk Hu.
  destruct c; cbn in Hu; try contradiction; subst r;
    first [ rewrite (step_resume _ _ (RReject e) _ _ Hk eq_refl)
          | rewrite (step_resume _ _ (RAckError e) _ _ Hk eq_refl) ];
    reflexivity.
Qed.

Lemma X19_uncaught_failure_abandons_witness :
  let env := mkEnv "me" Scenario.info in
  let w := run (Scenario.started ++
                [Notify 4 (NNewProducer Scenario.bob_video);
                 Notify 4 (NRouterCapabilities "caps"); Resume 6 RUnit])
             (initial "me") in
  let r := RAckError "no transport" in
  let w' := step (Resume 7 r) w in
  pool w !! 7 = Some (KCreateProducerAck env) ∧
  uncaught (KCreateProducerAck env) r "no transport" ∧
  w' = upd_trace (fun t => t ++ [OUnhandled "no transport"])
         (upd_pool (delete 7) w) ∧
  pendingProducers w' = [Scenario.bob_video] ∧ producersRef w' = ∅ ∧
  pool w' = ∅.
Proof.
  split; [vm_compute; reflexivity|]. split; [vm_compute; reflexivity|].
  split; [|repeat split; vm_compute; reflexivity].
  apply (X19_uncaught_failure_abandons
           (run (Scenario.started ++
                 [Notify 4 (NNewProducer Scenario.bob_video);
                  Notify 4 (NRouterCapabilities "caps"); Resume 6 RUnit])
              (initial "me"))
           7 (KCreateProducerAck (mkEnv "me" Scenario.info))
           (RAckError "no transport") "no transport"); vm_compute; reflexivity.
Defined.

(** ** The listeners of the socket *)

(** X20: every server event that an open socket delivers is logged by name,
    and that line comes before anything the listener registered for the
    event logs. *)
Theorem X20_every_server_event_is_logged (w : World) (sid : nat) (s : Socket)
    (n : Notification) (name : string) :
  sockets w !! sid = Some s -> s_open s = true ->
  eventName n = Some name ->
  exists rest,
    logs (step (Notify sid n) w) = logs w ++ LSocketEvent name :: rest.
Proof.
  intros Hs Ho Hn. unfold step. rewrite Hs, Ho.
  set (w1 := upd_logs (fun l => l ++ [LSocketEvent name]) w).
  assert (Hw : exists rest : M unit,
             exec (onNotification (s_env s) n) w = exec rest w1 ∧
             preserves (LogKept (logs w ++ [LSocketEvent name])) rest).
  { destruct n; cbn in Hn; simplify_eq.
    - exists (onRouterCapabilities (s_env s)). split; [reflexivity|].
      apply (logkept_listener _ (s_env s) (NRouterCapabilities caps)).
    - exists (onNewProducer (s_env s) a). split; [reflexivity|].
      apply (logkept_listener _ (s_env s) (NNewProducer a)).
    - exists (onPeerDisconnected uid). split; [reflexivity|].
      apply (logkept_listener _ (s_env s) (NPeerDisconnected uid)).
    - exists (mret tt). split; [reflexivity|].
      apply (logkept_listener _ (s_env s) NConnect). }
  destruct Hw as (rest & -> & Hrest).
  assert (Hk : LogKept (logs w ++ [LSocketEvent name]) (exec rest w1)).
  { apply pres_exec; [intros e w' H; exact H | exact Hrest |].
    unfold LogKept, w1. cbn. reflexivity. }
  destruct Hk as [rest' Hk]. exists rest'. rewrite Hk, <- app_assoc. reflexivity.
Qed.

Lemma X20_every_server_event_is_logged_witness :
  let w := run Scenario.negotiated (initial "me") in
  let n := NNewProducer Scenario.bob_video in
  sockets w !! 4 = Some (mkSocket true (mkEnv "me" Scenario.info)) ∧
  s_open (mkSocket true (mkEnv "me" Scenario.info)) = true ∧
  eventName n = Some "newProducer" ∧
  (exists rest,
      logs (step (Notify 4 n) w) = logs w ++ LSocketEvent "newProducer" :: rest) ∧
  logs (step (Notify 4 n) w)
  = logs w ++ [LSocketEvent "newProducer"; LNewProducerDetected "bob" "video"].
Proof.
  split; [vm_compute; reflexivity|]. split; [vm_compute; reflexivity|].
  split; [vm_compute; reflexivity|]. split; [|vm_compute; reflexivity].
  apply (X20_every_server_event_is_logged
           (run Scenario.negotiated (initial "me")) 4
           (mkSocket true (mkEnv "me" Scenario.info))
           (NNewProducer Scenario.bob_video) "newProducer");
    vm_compute; reflexivity.
Defined.

(** X21: from any state in which the component is connected, is not
    broadcasting and holds a connect response whose URL parses, a click on
    Start followed by the media stream opens one socket, at the origin of
    that URL and with the token of the response, keeps the stream in
    [localStreamRef] and marks the session as broadcasting; the listeners of
    the socket close over the user id and the connect response of the moment
    of the click.  No device or transport is touched. *)
Theorem X21_start_succeeds (w : World) (ci : ConnInfo) (url : string)
    (video audio : bool) :
  isConnected w = true -> isBroadcasting w = false ->
  connectionInfo w = Some ci -> origin (broadcaster_url ci) = Some url ->
  let n := nextId w in
  let w' := run [UStartBroadcast; Resume n (RMedia video audio)] w in
  isBroadcasting w' = true ∧
  socketRef w' = Some (S n) ∧
  sockets w' !! S n = Some (mkSocket true (mkEnv (userId w) ci)) ∧
  localStreamRef w' = Some (mkLocalStream video audio false) ∧
  trace w' = trace w ++ [OGetUserMedia; OSocketOpen (S n) url (broadcaster_token ci)] ∧
  logs w' = logs w ++ [LStartingBroadcast; LGotLocalMedia; LConnectingSocket url] ∧
  deviceRef w' = deviceRef w ∧
  producerTransportRef w' = producerTransportRef w ∧
  consumerTransportRef w' = consumerTransportRef w.
Proof.
  intros Hc Hb Hi Hu n w'. subst w' n. unfold run. cbn [fold_left].
  assert (H1 : step UStartBroadcast w = exec startBroadcast w).
  { unfold step. rewrite Hc, Hb. reflexivity. }
  rewrite H1. unfold startBroadcast. msimpl_steps. rewrite Hi.
  erewrite (step_resume (nextId w) (KGetUserMedia (userId w) (Some ci))
              (RMedia video audio));
    [|cbn; apply lookup_insert_eq | reflexivity].
  unfold startBroadcast_media. msimpl. rewrite Hu. msimpl.
  rewrite lookup_insert_eq, <- !app_assoc. repeat split; reflexivity.
Qed.

Lemma X21_start_succeeds_witness :
  let w := run Scenario.connected (initial "me") in
  let n := nextId w in
  let w' := run [UStartBroadcast; Resume n (RMedia true true)] w in
  (isConnected w = true ∧ isBroadcasting w = false ∧
   connectionInfo w = Some Scenario.info ∧
   origin (broadcaster_url Scenario.info) = Some "https://sfu.example") ∧
  (isBroadcasting w' = true ∧
   socketRef w' = Some (S n) ∧
   sockets w' !! S n = Some (mkSocket true (mkEnv (userId w) Scenario.info)) ∧
   localStreamRef w' = Some (mkLocalStream true true false) ∧
   trace w' = trace w ++ [OGetUserMedia;
                          OSocketOpen (S n) "https://sfu.example"
                            (broadcaster_token Scenario.info)] ∧
   logs w' = logs w ++ [LStartingBroadcast; LGotLocalMedia;
                        LConnectingSocket "https://sfu.example"] ∧
   deviceRef w' = deviceRef w ∧
   producerTransportRef w' = producerTransportRef w ∧
   consumerTransportRef w' = consumerTransportRef w) ∧
  w' = run Scenario.started (initial "me").
Proof.
  split; [repeat split; vm_compute; reflexivity|].
  split; [|vm_compute; reflexivity].
  apply (X21_start_succeeds (run Scenario.connected (initial "me"))
           Scenario.info "https://sfu.example" true true);
    vm_compute; reflexivity.
Defined.
